(** * Dataflow simplification pass of XLS: provenance lattice and rewrite driver

    Shallow embedding of [xls/passes/dataflow_simplification_pass.h]:
    [NodeSource], [NodeSourceDataflowVisitor::DefaultHandler] and
    [NodeSourceDataflowVisitor::JoinElements], together with the parts of the
    IR, of the leaf type tree, of the dataflow visitor and of the pass body
    that the header only declares or includes. *)

From stdpp Require Import gmap strings list pretty.
From Stdlib Require Import ZArith Lia Ascii.

Set Warnings "-register-all".
Local Open Scope Z_scope.

(** ** Status and StatusOr *)

Inductive StatusCode := kInternal | kInvalidArgument.

Inductive StatusOr (A : Type) :=
  | Ok (a : A)
  | Err (code : StatusCode).
Arguments Ok {A} a.
Arguments Err {A} code.

#[global] Instance StatusOr_bind : MBind StatusOr := λ A B f m,
  match m with
  | Ok a => f a
  | Err c => Err c
  end.

(** A value that must be present, otherwise an internal error. *)
Definition ret_check {A} (o : option A) : StatusOr A :=
  match o with
  | Some a => Ok a
  | None => Err kInternal
  end.

(** ** The IR: types, values, nodes *)

(** Modelled from the spec: the IR type (xls/ir/type.h is not part of the
    sources), "a recursive shape: Scalar(width), Tuple(ordered list of Type),
    Array(element Type, length)". *)
Inductive Ty :=
  | BitsType (bit_count : N)
  | TupleType (element_types : list Ty)
  | ArrayType (size : nat) (element_type : Ty).

(** Modelled from the spec: run-time values of the IR (xls/ir/value.h is not
    part of the sources); one constructor per type shape. *)
Inductive Value :=
  | VBits (bits : Z)
  | VTuple (elements : list Value)
  | VArray (elements : list Value).

(** A [Node*]: the identity of a node. Node ids are unique in a function, the
    null pointer is 0. *)
Abbreviation NodePtr := N (only parsing).
Definition nullptr : NodePtr := 0%N.

(** Modelled from the spec: the closed set of node kinds of section 3. The
    array operations take their index as an operand; a select takes its
    selector first and then its cases. *)
Inductive Op :=
  | kParam
  | kLiteral (value : Value)
  | kIdentity
  | kTuple
  | kTupleIndex (index : Z)
  | kArray
  | kArrayIndex
  | kArrayUpdate
  | kSel
  | kOther (tag : string).

(** Modelled from the spec: a node (xls/ir/node.h is not part of the sources)
    with its name, kind, ordered operands and output type. *)
Record Node := MkNode {
  id_ : NodePtr;
  name_ : string;
  op_ : Op;
  operands_ : list NodePtr;
  type_ : Ty;
}.

Definition GetName (n : Node) : string := name_ n.
Definition GetType (n : Node) : Ty := type_ n.

(** Modelled from the spec: the function body, an ordered node collection in
    topological order, the node whose value the function returns, and the id
    the next inserted node gets. *)
Record FunctionBase := MkFunctionBase {
  nodes_ : list Node;
  return_value_ : NodePtr;
  next_node_id_ : NodePtr;
}.

Definition GetNode (f : FunctionBase) (p : NodePtr) : option Node :=
  List.find (λ n, bool_decide (id_ n = p)) (nodes_ f).

(** ** NodeSource *)

Record NodeSource := MkNodeSource {
  node_ : NodePtr;
  tree_index_ : list Z;
}.

(** [NodeSource() = default], value-initialised. *)
Definition NodeSource_default : NodeSource := MkNodeSource nullptr [].

Definition node (s : NodeSource) : NodePtr := node_ s.
Definition tree_index (s : NodeSource) : list Z := tree_index_ s.

(** *** ToString *)

(** [absl::StrJoin(range, sep)] with the default formatter: the separator
    starts empty and becomes [sep] after the first element. *)
Definition StrJoin (range : list Z) (sep : string) : string :=
  fst (fold_left
         (λ '(result, cur_sep) x, (result +:+ cur_sep +:+ pretty x, sep))
         range (EmptyString, EmptyString)).

(** [absl::StrFormat] restricted to the [%s] conversion: every [%s] consumes
    the next argument, any other character is copied. A format that asks for
    more arguments than it is given is rejected. *)
Fixpoint StrFormat (format : string) (args : list string) : option string :=
  match format with
  | EmptyString => Some EmptyString
  | String "%"%char (String "s"%char rest) =>
      match args with
      | a :: args' => (λ r, a +:+ r) <$> StrFormat rest args'
      | [] => None
      end
  | String c rest => String c <$> StrFormat rest args
  end.

(** [node()->GetName()] dereferences the origin: the result is undefined
    ([None]) when the origin is not a node of the function. *)
Definition ToString (f : FunctionBase) (s : NodeSource) : option string :=
  n ← GetNode f (node s);
  if bool_decide (tree_index s = [])
  then Some (GetName n)
  else StrFormat "%s{%s}" [GetName n; StrJoin (tree_index s) ","].

(** *** operator== *)

(** [std::vector<int64_t>::operator==]: equal sizes and equal elements. *)
Fixpoint std_equal (a b : list Z) : bool :=
  match a, b with
  | x :: a', y :: b' => (x =? y) && std_equal a' b'
  | _, _ => true
  end.

Definition vector_eq (a b : list Z) : bool :=
  (length a =? length b)%nat && std_equal a b.

(** The defaulted [operator==]: member-wise, in declaration order. *)
Definition NodeSource_eq (a b : NodeSource) : bool :=
  (node_ a =? node_ b)%N && vector_eq (tree_index_ a) (tree_index_ b).

(** *** AbslStringify *)

(** [absl::Format(&sink, format, args...)]: the formatted text is appended
    to the sink, which is the text it has received so far. *)
Definition Format (sink : string) (format : string) (args : list string)
    : option string :=
  (λ r, sink +:+ r) <$> StrFormat format args.

Definition AbslStringify (f : FunctionBase) (sink : string) (source : NodeSource)
    : option string :=
  str ← ToString f source;
  Format sink "%s" [str].

(** *** AbslHashValue *)

(** The hash state [H] of the hashing framework. [H::combine(h, v)] mixes
    one value into the state; a NodeSource feeds a [Node*] and a span of
    [int64_t]. *)
Class HashState (H : Type) := {
  combine_ptr : H → NodePtr → H;
  combine_span : H → list Z → H;
}.

(** [H::combine(std::move(h), ns.node(), ns.tree_index())]: the values are
    combined from left to right. *)
Definition AbslHashValue {H} `{!HashState H} (h : H) (ns : NodeSource) : H :=
  combine_span (combine_ptr h (node ns)) (tree_index ns).

(** ** Leaf type trees *)

(** Modelled from the spec: the shaped leaf container
    (xls/data_structures/leaf_type_tree.h is not part of the sources), "a tree
    isomorphic to a Type's shape, holding exactly one value of type T at each
    scalar leaf". *)
Inductive LeafTypeTree (T : Type) :=
  | Leaf (x : T)
  | Branch (children : list (LeafTypeTree T)).
Arguments Leaf {T} x.
Arguments Branch {T} children.

(** Element [i] of a list, for an [int64_t] index. *)
Definition nth_z {A} (l : list A) (i : Z) : option A :=
  if bool_decide (0 ≤ i) then l !! Z.to_nat i else None.

Section imapM.
Context {A B : Type} (g : Z → A → StatusOr B).

(** Left-to-right traversal with the position of each element; stops at
    the first error. *)
Fixpoint imapM (i : Z) (l : list A) : StatusOr (list B) :=
  match l with
  | [] => Ok []
  | a :: l' =>
      b ← g i a;
      bs ← imapM (i + 1) l';
      Ok (b :: bs)
  end.
End imapM.

Section iflat_map.
Context {A B : Type} (g : Z → A → list B).

(** Concatenation of the images of the elements, each with its position. *)
Fixpoint iflat_map (i : Z) (l : list A) : list B :=
  match l with
  | [] => []
  | a :: l' => g i a ++ iflat_map (i + 1) l'
  end.
End iflat_map.

Section forall2b.
Context {A B : Type} (f : A → B → bool).

(** Two lists of the same length whose elements are pairwise related. *)
Fixpoint forall2b (l : list A) (k : list B) : bool :=
  match l, k with
  | [], [] => true
  | a :: l', b :: k' => f a b && forall2b l' k'
  | _, _ => false
  end.
End forall2b.

Fixpoint Ty_eqb (a b : Ty) : bool :=
  match a, b with
  | BitsType w, BitsType w' => (w =? w')%N
  | TupleType ts, TupleType ts' => forall2b Ty_eqb ts ts'
  | ArrayType n e, ArrayType n' e' => (n =? n')%nat && Ty_eqb e e'
  | _, _ => false
  end.

(** The type of the [i]-th component of a type. *)
Definition child_type (τ : Ty) (i : Z) : option Ty :=
  match τ with
  | BitsType _ => None
  | TupleType ts => nth_z ts i
  | ArrayType n e => if bool_decide (0 ≤ i < Z.of_nat n) then Some e else None
  end.

Fixpoint type_at (τ : Ty) (p : list Z) : option Ty :=
  match p with
  | [] => Some τ
  | i :: p' => child_type τ i ≫= λ τ', type_at τ' p'
  end.

Definition is_leaf_path (τ : Ty) (p : list Z) : Prop :=
  ∃ w, type_at τ p = Some (BitsType w).

Section LeafTypeTree.
Context {T : Type}.

(** [LeafTypeTree<T>(type)]: the container of a type, every leaf
    value-initialised. *)
Fixpoint CreateFromType (dflt : T) (τ : Ty) : LeafTypeTree T :=
  match τ with
  | BitsType _ => Leaf dflt
  | TupleType ts => Branch (map (CreateFromType dflt) ts)
  | ArrayType n e => Branch (replicate n (CreateFromType dflt e))
  end.

(** The container mirrors the type. *)
Fixpoint has_shape (τ : Ty) (t : LeafTypeTree T) : bool :=
  match τ, t with
  | BitsType _, Leaf _ => true
  | TupleType ts, Branch cs => forall2b has_shape ts cs
  | ArrayType n e, Branch cs =>
      (length cs =? n)%nat && forallb (has_shape e) cs
  | _, _ => false
  end.

(** [subtree(prefix)]: the container rooted at a path. *)
Fixpoint subtree (p : list Z) (t : LeafTypeTree T) : option (LeafTypeTree T) :=
  match p with
  | [] => Some t
  | i :: p' =>
      match t with
      | Leaf _ => None
      | Branch cs => nth_z cs i ≫= subtree p'
      end
  end.

(** The [i]-th subtree. *)
Definition child (t : LeafTypeTree T) (i : Z) : option (LeafTypeTree T) :=
  match t with
  | Leaf _ => None
  | Branch cs => nth_z cs i
  end.

(** [at(path)]: the leaf at a path. *)
Definition leaf_at (p : list Z) (t : LeafTypeTree T) : option T :=
  match subtree p t with
  | Some (Leaf x) => Some x
  | _ => None
  end.

(** [leaves()]: all (path, value) pairs, depth first and left to right. *)
Fixpoint leaves_from (index : list Z) (t : LeafTypeTree T) : list (list Z * T) :=
  match t with
  | Leaf x => [(index, x)]
  | Branch cs => iflat_map (λ i c, leaves_from (index ++ [i]) c) 0 cs
  end.

Definition leaves (t : LeafTypeTree T) : list (list Z * T) := leaves_from [] t.

(** [leaf_type_tree::ForEachIndex(view, f)]: calls [f] on each leaf with the
    type of the leaf, the (mutable) element and its index, in the order of
    [leaves]; stops at the first error. The element type handed to [f]
    is a bits type of unknown width where the tree does not follow
    the type. *)
Fixpoint ForEachIndex_from (f : Ty → T → list Z → StatusOr T)
    (τ : Ty) (index : list Z) (t : LeafTypeTree T) : StatusOr (LeafTypeTree T) :=
  match t with
  | Leaf x => x' ← f τ x index; Ok (Leaf x')
  | Branch cs =>
      cs' ← imapM (λ i c, ForEachIndex_from f (default (BitsType 0) (child_type τ i))
                             (index ++ [i]) c) 0 cs;
      Ok (Branch cs')
  end.

Definition ForEachIndex (τ : Ty) (t : LeafTypeTree T)
    (f : Ty → T → list Z → StatusOr T) : StatusOr (LeafTypeTree T) :=
  ForEachIndex_from f τ [] t.
End LeafTypeTree.

(** ** The dataflow visitor instantiated at NodeSource *)

(** The memo of the visitor: the leaf type tree of every visited node. *)
Abbreviation Memo := (gmap N (LeafTypeTree NodeSource)) (only parsing).

(** Modelled from the spec: [DataflowVisitor::SetValue]
    (xls/passes/dataflow_visitor.h is not part of the sources) records the
    container of a node; a container that does not mirror the node's output
    type is an invariant violation. *)
Definition SetValue (n : Node) (value : LeafTypeTree NodeSource) (map_ : Memo)
    : StatusOr Memo :=
  if has_shape (GetType n) value then Ok (<[id_ n := value]> map_)
  else Err kInternal.

Definition DefaultHandler (n : Node) (map_ : Memo) : StatusOr Memo :=
  let result := CreateFromType NodeSource_default (GetType n) in
  result ← ForEachIndex (GetType n) result
              (λ element_type element index, Ok (MkNodeSource (id_ n) index));
  SetValue n result map_.

(** [data_sources.front()] of an empty span is undefined behaviour: the model
    has no result there. The control sources are the containers of the
    selector or index operands. *)
Definition JoinElements (element_type : Ty) (data_sources : list NodeSource)
    (control_sources : list (LeafTypeTree NodeSource))
    (n : NodePtr) (index : list Z) : option (StatusOr NodeSource) :=
  match data_sources with
  | [] => None
  | front :: _ =>
      if forallb (λ s, NodeSource_eq s front) data_sources
      then Some (Ok front)
      else Some (Ok (MkNodeSource n index))
  end.

(** Modelled from the spec: the dataflow propagation engine of section 4.2
    (xls/passes/dataflow_visitor.h is not part of the sources), instantiated
    with the two hooks above. *)

Definition GetValue (map_ : Memo) (p : NodePtr) : StatusOr (LeafTypeTree NodeSource) :=
  ret_check (map_ !! p).

(** "Join(elementType, candidateValues: non-empty ordered list of V at the
    same leaf position, node, path)", at every leaf position of a type: the
    candidates at a position are the leaves of the data containers there. The
    joined container sits at path [index] of the output of the node. *)
Definition Join (τ : Ty) (data : list (LeafTypeTree NodeSource))
    (control : list (LeafTypeTree NodeSource)) (n : NodePtr) (index : list Z)
    : StatusOr (LeafTypeTree NodeSource) :=
  ForEachIndex τ (CreateFromType NodeSource_default τ)
    (λ element_type _ p,
       candidates ← ret_check (mapM (leaf_at p) data);
       default (Err kInternal)
         (JoinElements element_type candidates control n (index ++ p))).

(** "static-literal-index introspection": the index operand is a literal. *)
Definition literal_index (f : FunctionBase) (p : NodePtr) : option Z :=
  match op_ <$> GetNode f p with
  | Some (kLiteral (VBits k)) => Some k
  | _ => None
  end.

Definition in_range {A} (k : Z) (l : list A) : bool :=
  bool_decide (0 ≤ k < Z.of_nat (length l)).

Definition HandleIdentity (n : Node) (map_ : Memo) : StatusOr Memo :=
  match operands_ n with
  | [a] => t ← GetValue map_ a; SetValue n t map_
  | _ => Err kInternal
  end.

(** Tuple and array construction: the operands' containers become the
    subtrees, in operand order. *)
Definition HandleAggregate (n : Node) (map_ : Memo) : StatusOr Memo :=
  ts ← ret_check (mapM (map_ !!.) (operands_ n));
  SetValue n (Branch ts) map_.

Definition HandleTupleIndex (i : Z) (n : Node) (map_ : Memo) : StatusOr Memo :=
  match operands_ n with
  | [a] =>
      t ← GetValue map_ a;
      s ← ret_check (subtree [i] t);
      SetValue n s map_
  | _ => Err kInternal
  end.

(** A literal index in range selects the subtree; any other index may select
    any element, and the elements are joined. *)
Definition HandleArrayIndex (f : FunctionBase) (n : Node) (map_ : Memo) : StatusOr Memo :=
  match operands_ n with
  | [a; idx] =>
      ta ← GetValue map_ a;
      ti ← GetValue map_ idx;
      match ta with
      | Leaf _ => Err kInternal
      | Branch cs =>
          match literal_index f idx with
          | Some k =>
              if in_range k cs
              then s ← ret_check (subtree [k] ta); SetValue n s map_
              else r ← Join (GetType n) cs [ti] (id_ n) []; SetValue n r map_
          | None => r ← Join (GetType n) cs [ti] (id_ n) []; SetValue n r map_
          end
      end
  | _ => Err kInternal
  end.

(** A literal index replaces the subtree at that position (a position the
    container does not have is inconsistent with its shape); with any other
    index every position may or may not have been hit, and holds the join of
    the base's subtree and the value's container. *)
Definition HandleArrayUpdate (f : FunctionBase) (n : Node) (map_ : Memo) : StatusOr Memo :=
  match operands_ n with
  | [a; v; idx] =>
      ta ← GetValue map_ a;
      tv ← GetValue map_ v;
      ti ← GetValue map_ idx;
      match ta, GetType n with
      | Branch cs, ArrayType _ e =>
          match literal_index f idx with
          | Some k =>
              if in_range k cs
              then SetValue n (Branch (<[Z.to_nat k := tv]> cs)) map_
              else Err kInternal
          | None =>
              cs' ← imapM (λ k c, Join e [c; tv] [ti] (id_ n) [k]) 0 cs;
              SetValue n (Branch cs') map_
          end
      | _, _ => Err kInternal
      end
  | _ => Err kInternal
  end.

(** The cases are joined at every leaf position; the selector is a control
    source only. *)
Definition HandleSelect (n : Node) (map_ : Memo) : StatusOr Memo :=
  match operands_ n with
  | selector :: cases =>
      ts ← GetValue map_ selector;
      tcs ← ret_check (mapM (map_ !!.) cases);
      r ← Join (GetType n) tcs [ts] (id_ n) [];
      SetValue n r map_
  | [] => Err kInternal
  end.

Definition VisitNode (f : FunctionBase) (n : Node) (map_ : Memo) : StatusOr Memo :=
  match op_ n with
  | kIdentity => HandleIdentity n map_
  | kTuple | kArray => HandleAggregate n map_
  | kTupleIndex i => HandleTupleIndex i n map_
  | kArrayIndex => HandleArrayIndex f n map_
  | kArrayUpdate => HandleArrayUpdate f n map_
  | kSel => HandleSelect n map_
  | kParam | kLiteral _ | kOther _ => DefaultHandler n map_
  end.

Fixpoint VisitNodes (f : FunctionBase) (ns : list Node) (map_ : Memo) : StatusOr Memo :=
  match ns with
  | [] => Ok map_
  | n :: ns' => map_' ← VisitNode f n map_; VisitNodes f ns' map_'
  end.

(** [func->Accept(&visitor)]: one sweep over the nodes in topological order,
    starting from an empty memo. *)
Definition Accept (f : FunctionBase) : StatusOr Memo :=
  VisitNodes f (nodes_ f) ∅.

(** ** The rewrite driver *)

(** Modelled from the spec: the host's graph primitives of section 6
    (xls/ir/function_base.h and xls/ir/node.h are not part of the sources):
    "redirect all uses of node N to node N'", "remove unused node" and
    "insert index-chain expression producing type T from base node". *)

Definition replace_operand (old new : NodePtr) (n : Node) : Node :=
  MkNode (id_ n) (name_ n) (op_ n)
         (map (λ o, if bool_decide (o = old) then new else o) (operands_ n))
         (type_ n).

Definition ReplaceUsesWith (old new : NodePtr) (f : FunctionBase) : FunctionBase :=
  MkFunctionBase
    (map (replace_operand old new) (nodes_ f))
    (if bool_decide (return_value_ f = old) then new else return_value_ f)
    (next_node_id_ f).

Definition has_users (p : NodePtr) (f : FunctionBase) : bool :=
  existsb (λ n, bool_decide (p ∈ operands_ n)) (nodes_ f)
  || bool_decide (return_value_ f = p).

Definition RemoveNode (p : NodePtr) (f : FunctionBase) : FunctionBase :=
  MkFunctionBase
    (List.filter (λ n, negb (bool_decide (id_ n = p))) (nodes_ f))
    (return_value_ f)
    (next_node_id_ f).

(** New nodes go right before the node they will replace, which keeps the
    collection in topological order. *)
Fixpoint insert_before (p : NodePtr) (new : list Node) (ns : list Node) : list Node :=
  match ns with
  | [] => new
  | n :: ns' =>
      if bool_decide (id_ n = p) then new ++ n :: ns'
      else n :: insert_before p new ns'
  end.

Definition AddNodesBefore (p : NodePtr) (new : list Node) (next : NodePtr)
    (f : FunctionBase) : FunctionBase :=
  MkFunctionBase (insert_before p new (nodes_ f)) (return_value_ f) next.

(** The tuple-index / array-index chain that reconstructs a path into the
    output of a base node: the new nodes, the node that ends the chain, its
    type and the next free id. An array level takes a literal for its index.
    A path that the type of the base does not have is an invariant
    violation. *)
Fixpoint IndexChain (cur : NodePtr) (τ : Ty) (prefix : list Z) (next : NodePtr)
    : StatusOr (list Node * NodePtr * Ty * NodePtr) :=
  match prefix with
  | [] => Ok ([], cur, τ, next)
  | i :: rest =>
      match τ with
      | BitsType _ => Err kInternal
      | TupleType ts =>
          τ' ← ret_check (nth_z ts i);
          '(ns, target, τf, next') ← IndexChain next τ' rest (next + 1)%N;
          Ok (MkNode next "" (kTupleIndex i) [cur] τ' :: ns, target, τf, next')
      | ArrayType len e =>
          if bool_decide (0 ≤ i < Z.of_nat len) then
            '(ns, target, τf, next') ← IndexChain (next + 1)%N e rest (next + 2)%N;
            Ok (MkNode next "" (kLiteral (VBits i)) [] (BitsType (N.size (Z.to_N i)))
                  :: MkNode (next + 1)%N "" kArrayIndex [cur; next] e
                  :: ns, target, τf, next')
          else Err kInternal
      end
  end.

(** Modelled from the spec: the rewrite condition of section 4.4. "Every
    leaf's origin is some other node M (never N itself)" and there is "a
    single path prefix such that N's leaf at position p equals M's leaf at
    prefix + p for every p". The origin and the prefix are read off the first
    leaf; a container without leaves names no origin. *)
Definition strip_suffix (p q : list Z) : option (list Z) :=
  let k := (length q - length p)%nat in
  if bool_decide (drop k q = p) then Some (take k q) else None.

Definition common_origin (n : NodePtr) (t : LeafTypeTree NodeSource)
    : option (NodePtr * list Z) :=
  match leaves t with
  | [] => None
  | (p0, s0) :: _ =>
      if bool_decide (node s0 = n) then None
      else
        prefix ← strip_suffix p0 (tree_index s0);
        if forallb (λ '(p, s), NodeSource_eq s (MkNodeSource (node s0) (prefix ++ p)))
                   (leaves t)
        then Some (node s0, prefix)
        else None
  end.

(** Modelled from the spec: N is rewritten when it is "a fixed subtree of
    M": its leaves come from one other node M along one prefix, and the
    output type of N is the type M has at that prefix, so that N is the whole
    of that subtree. A node that covers only part of the subtree is no
    candidate. An origin that is not a node of the function, or a prefix
    that the type of the origin does not have, is an invariant violation
    ("if phase 2 ever cannot locate a valid index-chain for a determined
    prefix, that is itself an invariant violation"). *)
Definition single_ancestor (f : FunctionBase) (n : Node) (t : LeafTypeTree NodeSource)
    : StatusOr (option (Node * list Z)) :=
  match common_origin (id_ n) t with
  | None => Ok None
  | Some (m, prefix) =>
      mn ← ret_check (GetNode f m);
      τ ← ret_check (type_at (GetType mn) prefix);
      Ok (if Ty_eqb τ (GetType n) then Some (mn, prefix) else None)
  end.

(** Modelled from the spec: the node [p] already is the index expression
    into M that the rewrite would insert, a chain of tuple-index nodes and of
    array-index nodes with a literal index that leads from M along the
    prefix ([rprefix] is the prefix, last index first). Replacing such a node
    by another copy of itself is no simplification: the pass "replaces them
    with a simpler form", "no rewrite occurs" in scenario 4, and a second
    run "must reach a fixed point". *)
Fixpoint is_index_chain (f : FunctionBase) (p m : NodePtr) (rprefix : list Z) : bool :=
  match rprefix with
  | [] => bool_decide (p = m)
  | i :: rest =>
      match GetNode f p with
      | Some n =>
          match op_ n, operands_ n with
          | kTupleIndex j, [a] => bool_decide (j = i) && is_index_chain f a m rest
          | kArrayIndex, [a; idx] =>
              bool_decide (literal_index f idx = Some i) && is_index_chain f a m rest
          | _, _ => false
          end
      | None => false
      end
  end.

(** "After rewriting, N's node is detached from the graph if it has no
    remaining uses." *)
Definition DetachIfUnused (p : NodePtr) (f : FunctionBase) : FunctionBase :=
  if has_users p f then f else RemoveNode p f.

(** Modelled from the spec: phase 2 of section 4.4 for one node N (the body
    of the pass, dataflow_simplification_pass.cc, is not part of the
    sources). The uses of N go to "M itself if prefix is empty and the shapes
    match exactly, otherwise a freshly inserted index-into-M expression". The
    result is the graph after the step and whether N was rewritten, or the
    error. *)
Definition RewriteNode (map_ : Memo) (p : NodePtr) (f : FunctionBase)
    : FunctionBase * StatusOr bool :=
  match GetNode f p, map_ !! p with
  | Some n, Some t =>
      match single_ancestor f n t with
      | Err c => (f, Err c)
      | Ok None => (f, Ok false)
      | Ok (Some (mn, prefix)) =>
          if is_index_chain f p (id_ mn) (rev prefix) then (f, Ok false)
          else if bool_decide (prefix = [])
          then (DetachIfUnused p (ReplaceUsesWith p (id_ mn) f), Ok true)
          else
            match IndexChain (id_ mn) (GetType mn) prefix (next_node_id_ f) with
            | Ok (chain, target, τ, next) =>
                (DetachIfUnused p
                   (ReplaceUsesWith p target (AddNodesBefore p chain next f)), Ok true)
            | Err c => (f, Err c)
            end
      end
  | _, _ => (f, Err kInternal)
  end.

Fixpoint RewriteNodes (map_ : Memo) (order : list NodePtr) (f : FunctionBase)
    (changed : bool) : FunctionBase * StatusOr bool :=
  match order with
  | [] => (f, Ok changed)
  | p :: order' =>
      match RewriteNode map_ p f with
      | (f', Ok c) => RewriteNodes map_ order' f' (changed || c)
      | (f', Err e) => (f', Err e)
      end
  end.

(** Modelled from the spec: [DataflowSimplificationPass::
    RunOnFunctionBaseInternal], declared in the header and defined in
    dataflow_simplification_pass.cc, which is not part of the sources. Phase 1
    runs the visitor over the whole function; phase 2 visits the nodes in the
    topological order taken before any rewrite. The function is mutated in
    place: the result pairs the function as the call leaves it with the
    returned [StatusOr<bool>]. *)
Definition RunOnFunctionBaseInternal (f : FunctionBase) : FunctionBase * StatusOr bool :=
  match Accept f with
  | Err c => (f, Err c)
  | Ok map_ => RewriteNodes map_ (map id_ (nodes_ f)) f false
  end.

(** ** Semantics of the IR *)

Fixpoint subvalue (p : list Z) (v : Value) : option Value :=
  match p with
  | [] => Some v
  | i :: p' =>
      match v with
      | VBits _ => None
      | VTuple vs | VArray vs => nth_z vs i ≫= subvalue p'
      end
  end.

Fixpoint value_has_type (v : Value) (τ : Ty) : bool :=
  match v, τ with
  | VBits z, BitsType w => bool_decide (0 ≤ z < 2 ^ Z.of_N w)
  | VTuple vs, TupleType ts => forall2b value_has_type vs ts
  | VArray vs, ArrayType n e =>
      (length vs =? n)%nat && forallb (λ v, value_has_type v e) vs
  | _, _ => false
  end.

(** An index past the end selects the last element (arrays) or the last
    case, which stands for the default (selects). *)
Definition clamp_index {A} (k : Z) (l : list A) : Z :=
  Z.min k (Z.of_nat (length l) - 1).

Section Semantics.
(** The opaque node kinds: any function of the operand values. *)
Context (other_sem : string → list Value → Ty → Value).
(** The valuation of the parameters. *)
Context (args : NodePtr → Value).

(** Modelled from the spec: the value a node computes from the values of
    its operands (the IR interpreter is not part of the sources). *)
Definition eval_node (ρ : gmap N Value) (n : Node) : option Value :=
  match op_ n, operands_ n with
  | kParam, _ => Some (args (id_ n))
  | kLiteral v, _ => Some v
  | kIdentity, [a] => ρ !! a
  | kTuple, ops => VTuple <$> mapM (ρ !!.) ops
  | kArray, ops => VArray <$> mapM (ρ !!.) ops
  | kTupleIndex i, [a] =>
      match ρ !! a with
      | Some (VTuple vs) => nth_z vs i
      | _ => None
      end
  | kArrayIndex, [a; idx] =>
      match ρ !! a, ρ !! idx with
      | Some (VArray vs), Some (VBits k) => nth_z vs (clamp_index k vs)
      | _, _ => None
      end
  | kArrayUpdate, [a; v; idx] =>
      match ρ !! a, ρ !! v, ρ !! idx with
      | Some (VArray vs), Some x, Some (VBits k) =>
          Some (VArray (if in_range k vs then <[Z.to_nat k := x]> vs else vs))
      | _, _, _ => None
      end
  | kSel, selector :: cases =>
      match ρ !! selector with
      | Some (VBits k) => nth_z cases (clamp_index k cases) ≫= (ρ !!.)
      | _ => None
      end
  | kOther tag, ops =>
      vs ← mapM (ρ !!.) ops; Some (other_sem tag vs (type_ n))
  | _, _ => None
  end.

Fixpoint eval_nodes (ρ : gmap N Value) (ns : list Node) : option (gmap N Value) :=
  match ns with
  | [] => Some ρ
  | n :: ns' => v ← eval_node ρ n; eval_nodes (<[id_ n := v]> ρ) ns'
  end.

(** The function computed by the graph. *)
Definition InterpretFunction (f : FunctionBase) : option Value :=
  ρ ← eval_nodes ∅ (nodes_ f); ρ !! return_value_ f.
End Semantics.

(** ** Well-typed graphs *)

(** Modelled from the spec: the typing rules of the node kinds (the verifier
    of the IR is not part of the sources). [seen] holds the types of the
    nodes defined so far: operands are defined before their users and ids are
    not reused. *)
Definition VerifyNode (next : NodePtr) (seen : gmap N Ty) (n : Node) : bool :=
  bool_decide (seen !! id_ n = None) && bool_decide (id_ n < next)%N &&
  match op_ n, operands_ n with
  | kParam, [] => true
  | kLiteral v, [] => value_has_type v (type_ n)
  | kIdentity, [a] =>
      match seen !! a with Some τ => Ty_eqb τ (type_ n) | None => false end
  | kTuple, ops =>
      match mapM (seen !!.) ops with
      | Some ts => Ty_eqb (TupleType ts) (type_ n)
      | None => false
      end
  | kArray, ops =>
      match mapM (seen !!.) ops, type_ n with
      | Some ts, ArrayType len e =>
          (length ts =? len)%nat && forallb (λ τ, Ty_eqb τ e) ts
      | _, _ => false
      end
  | kTupleIndex i, [a] =>
      match seen !! a with
      | Some (TupleType ts) =>
          match nth_z ts i with Some τ => Ty_eqb τ (type_ n) | None => false end
      | _ => false
      end
  | kArrayIndex, [a; idx] =>
      match seen !! a, seen !! idx with
      | Some (ArrayType len e), Some (BitsType _) =>
          (0 <? len)%nat && Ty_eqb e (type_ n)
      | _, _ => false
      end
  | kArrayUpdate, [a; v; idx] =>
      match seen !! a, seen !! v, seen !! idx with
      | Some (ArrayType len e), Some τv, Some (BitsType _) =>
          Ty_eqb (ArrayType len e) (type_ n) && Ty_eqb τv e
      | _, _, _ => false
      end
  | kSel, selector :: c :: cases =>
      match seen !! selector, mapM (seen !!.) (c :: cases) with
      | Some (BitsType _), Some ts => forallb (λ τ, Ty_eqb τ (type_ n)) ts
      | _, _ => false
      end
  | kOther _, ops => bool_decide (is_Some (mapM (seen !!.) ops))
  | _, _ => false
  end.

Fixpoint VerifyNodes (next : NodePtr) (seen : gmap N Ty) (ns : list Node) : bool :=
  match ns with
  | [] => true
  | n :: ns' =>
      VerifyNode next seen n && VerifyNodes next (<[id_ n := type_ n]> seen) ns'
  end.

Definition VerifyFunction (f : FunctionBase) : bool :=
  VerifyNodes (next_node_id_ f) ∅ (nodes_ f)
  && bool_decide (return_value_ f ∈ map id_ (nodes_ f)).

(** A valuation gives every parameter a value of its type. *)
Definition args_typed (args : NodePtr → Value) (f : FunctionBase) : bool :=
  forallb (λ n, match op_ n with
                | kParam => value_has_type (args (id_ n)) (type_ n)
                | _ => true
                end) (nodes_ f).

(** The all-zero value of a type. *)
Fixpoint ZeroOfType (τ : Ty) : Value :=
  match τ with
  | BitsType _ => VBits 0
  | TupleType ts => VTuple (map ZeroOfType ts)
  | ArrayType n e => VArray (replicate n (ZeroOfType e))
  end.

(** ** Auxiliary notions used by the properties *)

(** The [i]-th component of a value. *)
Definition vchild (v : Value) (i : Z) : option Value :=
  match v with
  | VBits _ => None
  | VTuple vs | VArray vs => nth_z vs i
  end.

(** Renaming of the operands of a node. *)
Definition rename (σ : NodePtr → NodePtr) (n : Node) : Node :=
  MkNode (id_ n) (name_ n) (op_ n) (map σ (operands_ n)) (type_ n).

(** The container [DefaultHandler] builds for a node: it mirrors the output
    type and every leaf names the node and its own path. *)
Definition self_describing (n : Node) (t : LeafTypeTree NodeSource) : Prop :=
  has_shape (GetType n) t = true ∧
  (∀ p, is_leaf_path (GetType n) p → leaf_at p t = Some (MkNodeSource (id_ n) p)) ∧
  (∀ p s, leaf_at p t = Some s → s = MkNodeSource (id_ n) p).

(** The types of the nodes defined after a list of nodes. *)
Definition seen_after (ns : list Node) (seen : gmap N Ty) : gmap N Ty :=
  fold_left (λ s n, <[id_ n := type_ n]> s) ns seen.

(** The node kinds handled by [DefaultHandler]. *)
Definition is_default_op (op : Op) : bool :=
  match op with
  | kParam | kLiteral _ | kOther _ => true
  | _ => false
  end.

(** The valuation and the opaque operations that give every node the
    all-zero value of its type. *)
Definition zero_args (f : FunctionBase) : NodePtr → Value :=
  λ p, match GetNode f p with
       | Some n => ZeroOfType (type_ n)
       | None => VBits 0
       end.

Definition zero_sem : string → list Value → Ty → Value :=
  λ _ _ τ, ZeroOfType τ.

(** The index operand of an array operation. *)
Definition index_operand (n : Node) : option NodePtr :=
  match op_ n, operands_ n with
  | kArrayIndex, [_; idx] => Some idx
  | kArrayUpdate, [_; _; idx] => Some idx
  | _, _ => None
  end.

(** No index operand that is not a literal has a literal as its provenance:
    redirecting the operand to its origin does not turn an unknown index
    into a known one. *)
Definition literal_stable (f : FunctionBase) (m : gmap N (LeafTypeTree NodeSource))
    : bool :=
  forallb (λ n, match index_operand n with
                | Some idx =>
                    match literal_index f idx, m !! idx with
                    | None, Some (Leaf s) =>
                        bool_decide (literal_index f (node s) = None)
                    | _, _ => true
                    end
                | None => true
                end) (nodes_ f).

(** The node [p] is an index chain from [M] along a prefix (given last index
    first), made of nodes of [ns]: what [is_index_chain] tests, with the
    nodes looked up by membership. *)
Fixpoint chain_in (ns : list Node) (p M : NodePtr) (rprefix : list Z) : Prop :=
  match rprefix with
  | [] => p = M
  | i :: rest =>
      ∃ n, n ∈ ns ∧ id_ n = p ∧
        ((op_ n = kTupleIndex i ∧ ∃ a, operands_ n = [a] ∧ chain_in ns a M rest) ∨
         (op_ n = kArrayIndex ∧
          ∃ a idx l, operands_ n = [a; idx] ∧ l ∈ ns ∧ id_ l = idx ∧
                     op_ l = kLiteral (VBits i) ∧ chain_in ns a M rest))
  end.

(** A node that the rewrite phase leaves alone: its container names no
    single origin, or the node is not the whole subtree of its origin, or it
    already is the index chain into its origin. *)
Definition settled (ns : list Node) (mo : gmap N (LeafTypeTree NodeSource)) (n : Node)
    : Prop :=
  ∃ t, mo !! id_ n = Some t ∧
    (common_origin (id_ n) t = None ∨
     ∃ M prefix mn τ,
       common_origin (id_ n) t = Some (M, prefix) ∧ mn ∈ ns ∧ id_ mn = M ∧
       type_at (type_ mn) prefix = Some τ ∧
       (τ ≠ type_ n ∨ chain_in ns (id_ n) M (rev prefix))).

Section imapZ.
Context {A B : Type} (g : Z → A → B).

(** The images of the elements, each with its position. *)
Fixpoint imapZ (i : Z) (l : list A) : list B :=
  match l with
  | [] => []
  | a :: l' => g i a :: imapZ (i + 1) l'
  end.
End imapZ.

(** The container of a type built in one pass, every leaf naming a node and
    the leaf's own index below [index]. *)
Fixpoint default_tree (n : NodePtr) (τ : Ty) (index : list Z) : LeafTypeTree NodeSource :=
  match τ with
  | BitsType _ => Leaf (MkNodeSource n index)
  | TupleType ts => Branch (imapZ (λ i τ', default_tree n τ' (index ++ [i])) 0 ts)
  | ArrayType k e =>
      Branch (imapZ (λ i (_ : unit), default_tree n e (index ++ [i])) 0 (replicate k ()))
  end.

(** Every character of a string satisfies a test. *)
Fixpoint string_forallb (P : ascii → bool) (s : string) : bool :=
  match s with
  | EmptyString => true
  | String c r => P c && string_forallb P r
  end.

(** A name without an opening brace. *)
Definition brace_free (s : string) : bool :=
  string_forallb (λ c, negb (Ascii.eqb c "{")) s.

(** The characters of a rendered [int64_t]. *)
Definition is_number_char (c : ascii) : bool :=
  negb (Ascii.eqb c ",") && negb (Ascii.eqb c "{") && negb (Ascii.eqb c "}").

(** The hash state that records the values it is fed, the last one first:
    no two different sequences of values give the same state. *)
#[global] Instance trace_hash : HashState (list (N + list Z)) := {
  combine_ptr h p := inl p :: h;
  combine_span h l := inr l :: h;
}.

(** ** The scenarios of the specification *)

(** Scenario 1: [t = tuple(x, y); r = tuple_index(t, 1)], with [x] and [y]
    parameters and the uses of [r] in opaque nodes (and, possibly, as the
    return value). *)
Definition tuple_index_scenario (x y t r : N) (τx τy : Ty) (users : list Node)
    (ret next : N) : FunctionBase :=
  MkFunctionBase
    (MkNode x "x" kParam [] τx
     :: MkNode y "y" kParam [] τy
     :: MkNode t "t" kTuple [x; y] (TupleType [τx; τy])
     :: MkNode r "r" (kTupleIndex 1) [t] τy
     :: users) ret next.

Definition tuple_index_scenario_after (x y t r : N) (τx τy : Ty) (users : list Node)
    (ret next : N) : FunctionBase :=
  MkFunctionBase
    (MkNode x "x" kParam [] τx
     :: MkNode y "y" kParam [] τy
     :: MkNode t "t" kTuple [x; y] (TupleType [τx; τy])
     :: map (replace_operand r y) users)
    (if bool_decide (ret = r) then y else ret) next.

(** Scenario 4: [u = array_update(A, x, {i})] with [i] a parameter, then
    [r = array_index(u, {42})], and the uses of [r] in opaque nodes. *)
Definition dynamic_update_scenario (len : nat) (w wi : N) (users : list Node)
    (ret next : N) : FunctionBase :=
  MkFunctionBase
    (MkNode 1 "A" kParam [] (ArrayType len (BitsType w))
     :: MkNode 2 "x" kParam [] (BitsType w)
     :: MkNode 3 "i" kParam [] (BitsType wi)
     :: MkNode 4 "u" kArrayUpdate [1; 2; 3]%N (ArrayType len (BitsType w))
     :: MkNode 5 "c" (kLiteral (VBits 42)) [] (BitsType 6)
     :: MkNode 6 "r" kArrayIndex [4; 5]%N (BitsType w)
     :: users) ret next.

(** A literal behind an identity: the first run replaces the identity by the
    literal, which turns the index of [r] into a literal index. *)
Definition idempotence_example : FunctionBase :=
  MkFunctionBase
    [MkNode 1 "c" (kLiteral (VBits 1)) [] (BitsType 1);
     MkNode 2 "i" kIdentity [1%N] (BitsType 1);
     MkNode 3 "x" kParam [] (BitsType 8);
     MkNode 4 "y" kParam [] (BitsType 8);
     MkNode 5 "arr" kArray [3%N; 4%N] (ArrayType 2 (BitsType 8));
     MkNode 6 "r" kArrayIndex [5%N; 2%N] (BitsType 8)] 6 7.

(* ================================================================== *)
(** * Properties *)

(** ** Lists, strings and traversals *)

Lemma string_app_assoc (a b c : string) : (a +:+ b) +:+ c = a +:+ (b +:+ c).
Proof.
  induction a as [|ch a IH]; [done|].
  change (String ch ((a +:+ b) +:+ c) = String ch (a +:+ b +:+ c)).
  by rewrite IH.
Qed.

Lemma nth_z_Some {A} (l : list A) (i : Z) (x : A) :
  nth_z l i = Some x ↔ 0 ≤ i ∧ l !! Z.to_nat i = Some x.
Proof.
  unfold nth_z. case_bool_decide; [tauto|]. split; [done | tauto].
Qed.

Lemma nth_z_of_nat {A} (l : list A) (k : nat) : nth_z l (Z.of_nat k) = l !! k.
Proof.
  unfold nth_z. rewrite bool_decide_eq_true_2 by lia. by rewrite Nat2Z.id.
Qed.

Lemma nth_z_lt {A} (l : list A) (i : Z) (x : A) :
  nth_z l i = Some x → 0 ≤ i < Z.of_nat (length l).
Proof.
  intros [? H%lookup_lt_Some]%nth_z_Some. lia.
Qed.

Lemma forallb_Forall {A} (f : A → bool) (l : list A) :
  forallb f l = true ↔ Forall (λ x, f x = true) l.
Proof.
  induction l as [|a l IH]; simpl.
  - split; [constructor | done].
  - rewrite andb_true_iff, IH, Forall_cons. done.
Qed.

Lemma forall2b_Forall2 {A B} (f : A → B → bool) (l : list A) (k : list B) :
  forall2b f l k = true ↔ Forall2 (λ a b, f a b = true) l k.
Proof.
  revert k. induction l as [|a l IH]; intros [|b k]; simpl;
    try (split; [done | by inversion 1]).
  rewrite andb_true_iff, IH. split.
  - intros [??]. by constructor.
  - by inversion 1.
Qed.

Lemma bind_Ok {A B} (a : A) (f : A → StatusOr B) : Ok a ≫= f = f a.
Proof. done. Qed.

Lemma bind_Ok_inv {A B} (m : StatusOr A) (f : A → StatusOr B) (b : B) :
  m ≫= f = Ok b → ∃ a, m = Ok a ∧ f a = Ok b.
Proof. destruct m as [a|c]; [eauto | done]. Qed.

Lemma ret_check_Ok {A} (o : option A) (a : A) : ret_check o = Ok a ↔ o = Some a.
Proof. destruct o; simpl; split; congruence. Qed.

Lemma imapM_Ok {A B} (g : Z → A → StatusOr B) (i : Z) (l : list A) (l' : list B) :
  imapM g i l = Ok l' →
  length l' = length l ∧
  ∀ (k : nat) (a : A), l !! k = Some a →
    ∃ b, l' !! k = Some b ∧ g (i + Z.of_nat k) a = Ok b.
Proof.
  revert i l'. induction l as [|a l IH]; intros i l' H; simpl in H.
  - injection H as <-. split; [done | intros k a' Hk; by rewrite lookup_nil in Hk].
  - apply bind_Ok_inv in H as (b & Hg & H). apply bind_Ok_inv in H as (bs & Hbs & H).
    injection H as <-. destruct (IH _ _ Hbs) as [Hlen Hl]. split.
    + simpl. by rewrite Hlen.
    + intros [|k] a' Hk; simpl in *.
      * injection Hk as <-. exists b. by rewrite Z.add_0_r.
      * destruct (Hl k a' Hk) as (b' & ? & Hg'). exists b'. split; [done|].
        rewrite <- Hg'. f_equal. lia.
Qed.

Lemma imapM_is_Ok {A B} (g : Z → A → StatusOr B) (i : Z) (l : list A) :
  (∀ (k : nat) (a : A), l !! k = Some a → ∃ b, g (i + Z.of_nat k) a = Ok b) →
  ∃ l', imapM g i l = Ok l'.
Proof.
  revert i. induction l as [|a l IH]; intros i H; simpl.
  - by eexists.
  - destruct (H 0%nat a eq_refl) as [b Hb]. rewrite Z.add_0_r in Hb.
    rewrite Hb, bind_Ok.
    destruct (IH (i + 1)) as [bs Hbs].
    { intros k a' Hk. destruct (H (S k) a' Hk) as [b' Hb']. exists b'.
      rewrite <- Hb'. f_equal. lia. }
    rewrite Hbs, bind_Ok. by eexists.
Qed.

Lemma LeafTypeTree_ind' {T} (P : LeafTypeTree T → Prop) :
  (∀ x, P (Leaf x)) →
  (∀ cs, Forall P cs → P (Branch cs)) →
  ∀ t, P t.
Proof.
  intros HL HB. fix IH 1. intros [x|cs]; [apply HL|].
  apply HB. induction cs as [|c cs IHcs]; constructor; [apply IH | apply IHcs].
Qed.

Lemma Ty_ind' (P : Ty → Prop) :
  (∀ w, P (BitsType w)) →
  (∀ ts, Forall P ts → P (TupleType ts)) →
  (∀ n e, P e → P (ArrayType n e)) →
  ∀ τ, P τ.
Proof.
  intros HB HT HA. fix IH 1. intros [w|ts|n e]; [apply HB| |apply HA, IH].
  apply HT. induction ts as [|τ ts IHts]; constructor; [apply IH | apply IHts].
Qed.

Lemma Ty_eqb_eq (a b : Ty) : Ty_eqb a b = true ↔ a = b.
Proof.
  revert b. induction a as [w|ts IH|n e IH] using Ty_ind'; intros [w'|ts'|n' e']; simpl;
    try (split; [done | by inversion 1]).
  - rewrite N.eqb_eq. split; [by intros -> | by intros [= ->]].
  - rewrite forall2b_Forall2. split.
    + intros H. f_equal. revert IH. induction H as [|a b l k Hab H IHH]; [done|].
      intros [Ha IH]%Forall_cons. f_equal; [by apply Ha | by apply IHH].
    + intros [= <-]. induction IH as [|a l Ha _ IHl]; constructor; [by apply Ha | done].
  - rewrite andb_true_iff, Nat.eqb_eq, IH.
    split; [by intros [-> ->] | by intros [= -> ->]].
Qed.

Lemma Ty_eqb_refl (a : Ty) : Ty_eqb a a = true.
Proof. by apply Ty_eqb_eq. Qed.

(** ** NodeSource: equality and rendering *)

Lemma std_equal_eq (a b : list Z) :
  length a = length b → std_equal a b = true → a = b.
Proof.
  revert b. induction a as [|x a IH]; intros [|y b]; simpl; try done.
  intros [= Hlen] [->%Z.eqb_eq Hab]%andb_true_iff. f_equal. by apply IH.
Qed.

Lemma std_equal_refl (a : list Z) : std_equal a a = true.
Proof. induction a as [|x a IH]; simpl; [done|]. by rewrite Z.eqb_refl. Qed.

Lemma vector_eq_eq (a b : list Z) : vector_eq a b = true ↔ a = b.
Proof.
  unfold vector_eq. rewrite andb_true_iff, Nat.eqb_eq. split.
  - intros [??]. by apply std_equal_eq.
  - intros ->. split; [done | apply std_equal_refl].
Qed.

Lemma NodeSource_eq_eq (a b : NodeSource) : NodeSource_eq a b = true ↔ a = b.
Proof.
  unfold NodeSource_eq. rewrite andb_true_iff, N.eqb_eq, vector_eq_eq.
  destruct a, b; simpl. split.
  - by intros [-> ->].
  - by intros [= -> ->].
Qed.

(** C8. [operator==] on NodeSource is structural: two values are equal
    exactly when they refer to the same origin node and carry the same
    path. *)
Theorem NodeSource_eq_structural (a b : NodeSource) :
  NodeSource_eq a b = true ↔ node a = node b ∧ tree_index a = tree_index b.
Proof.
  unfold NodeSource_eq, node, tree_index.
  by rewrite andb_true_iff, N.eqb_eq, vector_eq_eq.
Qed.

Lemma NodeSource_eq_refl (a : NodeSource) : NodeSource_eq a a = true.
Proof. by apply NodeSource_eq_eq. Qed.

Lemma StrJoin_fold (sep acc cur : string) (x : Z) (rest : list Z) :
  fst (fold_left
         (λ '(result, cur_sep) x, (result +:+ cur_sep +:+ pretty x, sep))
         (x :: rest) (acc, cur))
  = acc +:+ cur +:+ String.concat sep (map pretty (x :: rest)).
Proof.
  revert acc cur x. induction rest as [|y rest IH]; intros acc cur x.
  - done.
  - change (fold_left ?g (x :: y :: rest) (acc, cur))
      with (fold_left g (y :: rest) (acc +:+ cur +:+ pretty x, sep)).
    rewrite IH.
    change (String.concat sep (map pretty (x :: y :: rest)))
      with (pretty x +:+ sep +:+ String.concat sep (map pretty (y :: rest))).
    by rewrite !string_app_assoc.
Qed.

Lemma StrJoin_concat (range : list Z) (sep : string) :
  StrJoin range sep = String.concat sep (map pretty range).
Proof.
  destruct range as [|x rest]; [done|]. unfold StrJoin. by rewrite StrJoin_fold.
Qed.

(** C7. [ToString] renders a source with an empty path as the name of its
    origin, and a source with path i,j,... as the name followed by the path
    indices joined by commas, between braces. *)
Theorem ToString_rendering (f : FunctionBase) (s : NodeSource) (n : Node) :
  GetNode f (node s) = Some n →
  (tree_index s = [] → ToString f s = Some (GetName n)) ∧
  (tree_index s ≠ [] →
     ToString f s
     = Some (GetName n +:+ "{" +:+ String.concat "," (map pretty (tree_index s)) +:+ "}")).
Proof.
  intros Hn. unfold ToString. rewrite Hn. simpl. split; intros Hp.
  - by rewrite bool_decide_eq_true_2.
  - rewrite bool_decide_eq_false_2 by done. by rewrite StrJoin_concat.
Qed.

Lemma ToString_rendering_witness :
  let f := MkFunctionBase [MkNode 7 "z" kParam [] (TupleType [BitsType 32; BitsType 32])] 7 8 in
  let s := MkNodeSource 7 [1; 0; 12] in
  let n := MkNode 7 "z" kParam [] (TupleType [BitsType 32; BitsType 32]) in
  GetNode f (node s) = Some n ∧
  (tree_index s = [] → ToString f s = Some (GetName n)) ∧
  (tree_index s ≠ [] →
     ToString f s
     = Some (GetName n +:+ "{" +:+ String.concat "," (map pretty (tree_index s)) +:+ "}")).
Proof.
  intros f s n. split; [reflexivity|]. apply (ToString_rendering f s n). reflexivity.
Defined.

(** ** JoinElements *)

(** C4. Given the candidates at one leaf position, [JoinElements] returns the
    common candidate unchanged when all candidates are equal, and the fresh
    self-describing source of the current node and path otherwise; it
    returns nothing else. *)
Theorem JoinElements_spec (element_type : Ty) (data_sources : list NodeSource)
    (control_sources : list (LeafTypeTree NodeSource)) (n : NodePtr) (index : list Z) :
  data_sources ≠ [] →
  (∃ c, Forall (λ s, s = c) data_sources ∧
        JoinElements element_type data_sources control_sources n index = Some (Ok c))
  ∨ ((¬ ∃ c, Forall (λ s, s = c) data_sources) ∧
     JoinElements element_type data_sources control_sources n index
     = Some (Ok (MkNodeSource n index))).
Proof.
  destruct data_sources as [|front rest]; [done|]. intros _. unfold JoinElements.
  destruct (forallb _ _) eqn:Hall.
  - left. exists front. split; [|done].
    apply forallb_Forall in Hall. eapply Forall_impl; [exact Hall|].
    intros s Hs. by apply NodeSource_eq_eq.
  - right. split; [|done]. intros [c Hc].
    assert (forallb (λ s, NodeSource_eq s front) (front :: rest) = true) as Hall';
      [|congruence].
    apply forallb_Forall. pose proof (Forall_inv Hc) as ->.
    eapply Forall_impl; [exact Hc|]. intros s ->. apply NodeSource_eq_refl.
Qed.

Lemma JoinElements_spec_witness :
  let ds := [MkNodeSource 1 [0]; MkNodeSource 2 []] in
  ds ≠ [] ∧
  ((∃ c, Forall (λ s, s = c) ds ∧ JoinElements (BitsType 32) ds [] 5 [1] = Some (Ok c))
   ∨ ((¬ ∃ c, Forall (λ s, s = c) ds) ∧
      JoinElements (BitsType 32) ds [] 5 [1] = Some (Ok (MkNodeSource 5 [1])))).
Proof.
  intros ds. split; [done|]. apply (JoinElements_spec (BitsType 32) ds [] 5%N [1]). done.
Defined.

(** C10. The result of [JoinElements] does not depend on the control
    sources: two calls that differ only there return the same source. *)
Theorem JoinElements_control_independent (element_type : Ty)
    (data_sources : list NodeSource)
    (control_sources control_sources' : list (LeafTypeTree NodeSource))
    (n : NodePtr) (index : list Z) :
  data_sources ≠ [] →
  ∃ r, JoinElements element_type data_sources control_sources n index = Some (Ok r)
     ∧ JoinElements element_type data_sources control_sources' n index = Some (Ok r).
Proof.
  destruct data_sources as [|front rest]; [done|]. intros _. unfold JoinElements.
  destruct (forallb _ _); eauto.
Qed.

Lemma JoinElements_control_independent_witness :
  let ds := [MkNodeSource 3 [0]; MkNodeSource 4 []] in
  ds ≠ [] ∧
  ∃ r, JoinElements (BitsType 8) ds [Leaf (MkNodeSource 1 [])] 9 [2] = Some (Ok r)
     ∧ JoinElements (BitsType 8) ds [Leaf (MkNodeSource 2 [])] 9 [2] = Some (Ok r).
Proof.
  intros ds. split; [done|].
  apply (JoinElements_control_independent (BitsType 8) ds). done.
Defined.

(** ** Leaf type trees: shapes, paths and traversal *)

Lemma type_at_app (τ : Ty) (p q : list Z) :
  type_at τ (p ++ q) = type_at τ p ≫= λ τ', type_at τ' q.
Proof.
  revert τ. induction p as [|i p IH]; intros τ; simpl; [done|].
  destruct (child_type τ i); simpl; [apply IH | done].
Qed.

Section LeafTypeTree_facts.
Context {T : Type}.
Implicit Types (t : LeafTypeTree T) (τ : Ty) (p index : list Z).

Lemma has_shape_CreateFromType (d : T) τ : has_shape τ (CreateFromType d τ) = true.
Proof.
  induction τ as [w|ts IH|n e IH] using Ty_ind'; simpl; [done| |].
  - apply forall2b_Forall2. induction IH; constructor; done.
  - rewrite length_replicate, Nat.eqb_refl. simpl.
    apply forallb_Forall, Forall_replicate. done.
Qed.

Lemma subtree_cons i p t : subtree (i :: p) t = child t i ≫= subtree p.
Proof. by destruct t. Qed.

Lemma leaf_at_cons i p t : leaf_at (i :: p) t = child t i ≫= leaf_at p.
Proof. unfold leaf_at. rewrite subtree_cons. by destruct (child t i). Qed.

Lemma subtree_app p q t : subtree (p ++ q) t = subtree p t ≫= subtree q.
Proof.
  revert t. induction p as [|i p IH]; intros t; [done|].
  rewrite <- app_comm_cons, !subtree_cons. destruct (child t i); simpl; [apply IH | done].
Qed.

(** A container that mirrors a type has a child exactly where the type has
    a component, and the child mirrors the component. *)
Lemma has_shape_child τ t i :
  has_shape τ t = true →
  match child_type τ i, child t i with
  | Some τ', Some c => has_shape τ' c = true
  | None, None => True
  | _, _ => False
  end.
Proof.
  destruct τ as [w|ts|n e], t as [x|cs]; simpl; try done.
  - intros H%forall2b_Forall2. unfold nth_z. case_bool_decide; [|done].
    destruct (ts !! Z.to_nat i) as [τ'|] eqn:Hts.
    + destruct (Forall2_lookup_l _ _ _ _ _ H Hts) as (c & -> & ?). done.
    + destruct (cs !! Z.to_nat i) as [c|] eqn:Hcs; [|done].
      destruct (Forall2_lookup_r _ _ _ _ _ H Hcs) as (? & ? & ?). congruence.
  - intros [Hlen%Nat.eqb_eq Hall%forallb_Forall]%andb_true_iff. subst n.
    unfold nth_z. case_bool_decide as Hi.
    + rewrite bool_decide_eq_true_2 by lia.
      destruct (lookup_lt_is_Some_2 cs (Z.to_nat i)) as [c Hc]; [lia|].
      rewrite Hc. by eapply (Forall_lookup_1 _ _ _ _ Hall).
    + case_bool_decide; [|done]. rewrite lookup_ge_None_2 by lia. done.
Qed.

Lemma has_shape_subtree p : ∀ τ t,
  has_shape τ t = true →
  match type_at τ p, subtree p t with
  | Some τ', Some t' => has_shape τ' t' = true
  | None, None => True
  | _, _ => False
  end.
Proof.
  induction p as [|i p IH]; intros τ t H; [done|].
  rewrite subtree_cons. simpl. pose proof (has_shape_child τ t i H) as Hc.
  destruct (child_type τ i) as [τ'|], (child t i) as [c|]; simpl; try done.
  by apply IH.
Qed.

Lemma has_shape_leaf_at τ t p :
  has_shape τ t = true → (is_Some (leaf_at p t) ↔ is_leaf_path τ p).
Proof.
  intros H. pose proof (has_shape_subtree p τ t H) as Hs.
  unfold leaf_at, is_leaf_path.
  destruct (type_at τ p) as [τ'|], (subtree p t) as [t'|]; try done.
  - destruct τ' as [w|ts|n e], t' as [x|cs]; simpl in Hs; try done.
    + split; eauto.
    + split; [by intros [? ?] | by intros [? ?]].
    + split; [by intros [? ?] | by intros [? ?]].
  - split; [by intros [? ?] | by intros [? ?]].
Qed.

Lemma ForEachIndex_from_inv (f : Ty → T → list Z → StatusOr T) t : ∀ τ index t',
  ForEachIndex_from f τ index t = Ok t' →
  (∀ σ, has_shape σ t = true → has_shape σ t' = true) ∧
  (∀ p, match leaf_at p t' with
        | Some x' => ∃ x σ, leaf_at p t = Some x ∧ f σ x (index ++ p) = Ok x'
        | None => leaf_at p t = None
        end).
Proof.
  induction t as [x|cs IH] using LeafTypeTree_ind'; intros τ index t' H; simpl in H.
  - apply bind_Ok_inv in H as (x' & Hf & [= <-]). split; [by intros [| |]|].
    intros [|i p]; [|done]. simpl. exists x, τ. by rewrite app_nil_r.
  - apply bind_Ok_inv in H as (cs' & Hcs & [= <-]).
    apply imapM_Ok in Hcs as [Hlen Hcs].
    assert (∀ (k : nat) c c', cs !! k = Some c → cs' !! k = Some c' →
              ForEachIndex_from f (default (BitsType 0) (child_type τ (Z.of_nat k)))
                (index ++ [Z.of_nat k]) c = Ok c') as Hk.
    { intros k c c' Hc Hc'. destruct (Hcs k c Hc) as (b & Hb & Hfb).
      rewrite Z.add_0_l in Hfb. congruence. }
    split.
    + intros [w|ts|n e]; simpl; [done| |].
      * rewrite !forall2b_Forall2. intros HF.
        apply Forall2_same_length_lookup. split.
        { rewrite Hlen. by eapply Forall2_length. }
        intros k σ c' Hσ Hc'.
        destruct (lookup_lt_is_Some_2 cs k) as [c Hc].
        { rewrite <- Hlen. by eapply lookup_lt_Some. }
        pose proof (Forall_lookup_1 _ _ _ _ IH Hc) as IHc.
        destruct (IHc _ _ _ (Hk k c c' Hc Hc')) as [Hsh _]. apply Hsh.
        by eapply (Forall2_lookup_lr _ _ _ _ _ _ HF).
      * rewrite Hlen. intros [Hn Hall%forallb_Forall]%andb_true_iff.
        rewrite Hn. simpl. apply forallb_Forall, Forall_lookup. intros k c' Hc'.
        destruct (lookup_lt_is_Some_2 cs k) as [c Hc].
        { rewrite <- Hlen. by eapply lookup_lt_Some. }
        pose proof (Forall_lookup_1 _ _ _ _ IH Hc) as IHc.
        destruct (IHc _ _ _ (Hk k c c' Hc Hc')) as [Hsh _]. apply Hsh.
        by eapply (Forall_lookup_1 _ _ _ _ Hall).
    + intros [|i p]; [done|]. rewrite !leaf_at_cons. simpl. unfold nth_z.
      case_bool_decide as Hi; [|done].
      destruct (cs' !! Z.to_nat i) as [c'|] eqn:Hc'; simpl.
      * destruct (lookup_lt_is_Some_2 cs (Z.to_nat i)) as [c Hc].
        { rewrite <- Hlen. by eapply lookup_lt_Some. }
        rewrite Hc. simpl.
        pose proof (Forall_lookup_1 _ _ _ _ IH Hc) as IHc.
        destruct (IHc _ _ _ (Hk _ c c' Hc Hc')) as [_ Hlf]. specialize (Hlf p).
        rewrite Z2Nat.id in Hlf by done.
        rewrite <- app_assoc in Hlf. done.
      * rewrite lookup_ge_None_2; [done|]. rewrite <- Hlen. by apply lookup_ge_None_1.
Qed.

Lemma ForEachIndex_from_is_Ok (f : Ty → T → list Z → StatusOr T) t : ∀ τ index,
  (∀ p x σ, leaf_at p t = Some x → ∃ x', f σ x (index ++ p) = Ok x') →
  ∃ t', ForEachIndex_from f τ index t = Ok t'.
Proof.
  induction t as [x|cs IH] using LeafTypeTree_ind'; intros τ index Hf; simpl.
  - destruct (Hf [] x τ eq_refl) as [x' Hx']. rewrite app_nil_r in Hx'.
    rewrite Hx', bind_Ok. by eexists.
  - destruct (imapM_is_Ok
      (λ i c, ForEachIndex_from f (default (BitsType 0) (child_type τ i)) (index ++ [i]) c)
      0 cs) as [cs' Hcs'].
    + intros k c Hc. rewrite Z.add_0_l.
      apply (Forall_lookup_1 _ _ _ _ IH Hc). intros p x σ Hp.
      rewrite <- app_assoc. apply (Hf (Z.of_nat k :: p) x σ).
      rewrite leaf_at_cons. simpl. by rewrite nth_z_of_nat, Hc.
    + rewrite Hcs', bind_Ok. by eexists.
Qed.
End LeafTypeTree_facts.

(** ** DefaultHandler *)

Lemma DefaultHandler_Ok (n : Node) (map_ : gmap N (LeafTypeTree NodeSource)) :
  ∃ t, DefaultHandler n map_ = Ok (<[id_ n := t]> map_) ∧ self_describing n t.
Proof.
  unfold DefaultHandler, ForEachIndex.
  destruct (ForEachIndex_from_is_Ok
              (λ (_ : Ty) (_ : NodeSource) index, Ok (MkNodeSource (id_ n) index))
              (CreateFromType NodeSource_default (GetType n)) (GetType n) [])
    as [t Ht]; [by eauto|].
  rewrite Ht, bind_Ok. apply ForEachIndex_from_inv in Ht as [Hshape Hleaves].
  specialize (Hshape _ (has_shape_CreateFromType _ _)).
  exists t. unfold SetValue. rewrite Hshape. split; [done|].
  assert (∀ p s, leaf_at p t = Some s → s = MkNodeSource (id_ n) p) as Hall.
  { intros p s Hs. specialize (Hleaves p). rewrite Hs in Hleaves.
    destruct Hleaves as (? & ? & _ & [= <-]). done. }
  split; [done|]. split; [|done].
  intros p [s Hs]%(has_shape_leaf_at _ t); [|done]. rewrite Hs. f_equal. by apply Hall.
Qed.

(** C3. [DefaultHandler], applied to a node N, produces a leaf type tree over
    the output type of N whose leaf at every path p is NodeSource(N, p), and
    records it as the value of N. *)
Theorem DefaultHandler_self_describing (n : Node)
    (map_ : gmap N (LeafTypeTree NodeSource)) :
  ∃ map_' t,
    DefaultHandler n map_ = Ok map_' ∧
    map_' !! id_ n = Some t ∧
    (∀ m, m ≠ id_ n → map_' !! m = map_ !! m) ∧
    has_shape (GetType n) t = true ∧
    (∀ p, is_leaf_path (GetType n) p → leaf_at p t = Some (MkNodeSource (id_ n) p)) ∧
    (∀ p s, leaf_at p t = Some s → is_leaf_path (GetType n) p ∧ s = MkNodeSource (id_ n) p).
Proof.
  destruct (DefaultHandler_Ok n map_) as (t & Hd & Hshape & Hpaths & Hleaves).
  exists (<[id_ n := t]> map_), t. split; [done|].
  split; [apply lookup_insert_eq|].
  split; [intros m Hm; by apply lookup_insert_ne|].
  split; [done|]. split; [done|].
  intros p s Hs. split; [|by apply Hleaves].
  apply (has_shape_leaf_at _ t); [done | by eexists].
Qed.

(** ** Values and types *)

Lemma subvalue_cons (i : Z) (p : list Z) (v : Value) :
  subvalue (i :: p) v = vchild v i ≫= subvalue p.
Proof. by destruct v. Qed.

Lemma subvalue_app (p q : list Z) (v : Value) :
  subvalue (p ++ q) v = subvalue p v ≫= subvalue q.
Proof.
  revert v. induction p as [|i p IH]; intros v; [done|].
  rewrite <- app_comm_cons, !subvalue_cons. destruct (vchild v i); simpl; [apply IH | done].
Qed.

Lemma value_has_type_tuple (v : Value) (ts : list Ty) :
  value_has_type v (TupleType ts) = true ↔
  ∃ vs, v = VTuple vs ∧ Forall2 (λ u τ, value_has_type u τ = true) vs ts.
Proof.
  destruct v as [z|vs|vs]; simpl.
  - split; [done | by intros (? & ? & _)].
  - rewrite forall2b_Forall2. split; [by eauto | by intros (? & [= <-] & ?)].
  - split; [done | by intros (? & ? & _)].
Qed.

Lemma value_has_type_array (v : Value) (n : nat) (e : Ty) :
  value_has_type v (ArrayType n e) = true ↔
  ∃ vs, v = VArray vs ∧ length vs = n ∧ Forall (λ u, value_has_type u e = true) vs.
Proof.
  destruct v as [z|vs|vs]; simpl.
  - split; [done | by intros (? & ? & _)].
  - split; [done | by intros (? & ? & _)].
  - rewrite andb_true_iff, Nat.eqb_eq, forallb_Forall.
    split; [by eauto | by intros (? & [= <-] & ?)].
Qed.

Lemma value_has_type_bits (v : Value) (w : N) :
  value_has_type v (BitsType w) = true ↔ ∃ z, v = VBits z ∧ 0 ≤ z < 2 ^ Z.of_N w.
Proof.
  destruct v as [z|vs|vs]; simpl.
  - rewrite bool_decide_eq_true. split; [by eauto | by intros (? & [= <-] & ?)].
  - split; [done | by intros (? & ? & _)].
  - split; [done | by intros (? & ? & _)].
Qed.

Lemma value_has_type_child (v : Value) (τ τ' : Ty) (i : Z) :
  value_has_type v τ = true → child_type τ i = Some τ' →
  ∃ u, vchild v i = Some u ∧ value_has_type u τ' = true.
Proof.
  destruct τ as [w|ts|n e]; simpl; [done| |].
  - intros (vs & -> & HF)%value_has_type_tuple [Hi Hτ']%nth_z_Some. simpl.
    destruct (Forall2_lookup_r _ _ _ _ _ HF Hτ') as (u & Hu & ?).
    exists u. split; [|done]. by apply nth_z_Some.
  - intros (vs & -> & Hlen & HF)%value_has_type_array. case_bool_decide as Hi; [|done].
    intros [= <-]. simpl. destruct (lookup_lt_is_Some_2 vs (Z.to_nat i)) as [u Hu]; [lia|].
    exists u. split; [apply nth_z_Some; split; [lia | done]|].
    by eapply (Forall_lookup_1 _ _ _ _ HF).
Qed.

Lemma value_has_type_subvalue (p : list Z) : ∀ (v : Value) (τ τ' : Ty),
  value_has_type v τ = true → type_at τ p = Some τ' →
  ∃ u, subvalue p v = Some u ∧ value_has_type u τ' = true.
Proof.
  induction p as [|i p IH]; intros v τ τ' Hv Hp; simpl in Hp.
  - injection Hp as <-. by exists v.
  - rewrite subvalue_cons. destruct (child_type τ i) as [τi|] eqn:Hi; [|done]. simpl in Hp.
    destruct (value_has_type_child _ _ _ _ Hv Hi) as (u & -> & Hu). simpl.
    by eapply IH.
Qed.

(** Two values of one type that agree at every leaf path are equal. *)
Lemma value_ext (τ : Ty) : ∀ v v' : Value,
  value_has_type v τ = true → value_has_type v' τ = true →
  (∀ p, is_leaf_path τ p → subvalue p v = subvalue p v') →
  v = v'.
Proof.
  induction τ as [w|ts IH|n e IH] using Ty_ind'; intros v v'.
  - intros (z & -> & _)%value_has_type_bits (z' & -> & _)%value_has_type_bits H.
    specialize (H [] ltac:(by eexists)). simpl in H. congruence.
  - intros (vs & -> & HF)%value_has_type_tuple (vs' & -> & HF')%value_has_type_tuple H.
    f_equal. apply list_eq_same_length with (length ts);
      [by eapply Forall2_length | by eapply Forall2_length |].
    intros k u u' Hk Hu Hu'.
    destruct (lookup_lt_is_Some_2 ts k) as [τ Hτ]; [done|].
    apply (Forall_lookup_1 _ _ _ _ IH Hτ).
    + by eapply (Forall2_lookup_lr _ _ _ _ _ _ HF).
    + by eapply (Forall2_lookup_lr _ _ _ _ _ _ HF').
    + intros p [w Hp]. specialize (H (Z.of_nat k :: p)).
      rewrite !subvalue_cons in H. simpl in H. rewrite !nth_z_of_nat, Hu, Hu' in H.
      apply H. exists w. simpl. by rewrite nth_z_of_nat, Hτ.
  - intros (vs & -> & Hlen & HF)%value_has_type_array
           (vs' & -> & Hlen' & HF')%value_has_type_array H.
    f_equal. apply list_eq_same_length with n; [done | done |].
    intros k u u' Hk Hu Hu'. apply IH.
    + by eapply (Forall_lookup_1 _ _ _ _ HF).
    + by eapply (Forall_lookup_1 _ _ _ _ HF').
    + intros p [w Hp]. specialize (H (Z.of_nat k :: p)).
      rewrite !subvalue_cons in H. simpl in H. rewrite !nth_z_of_nat, Hu, Hu' in H.
      apply H. exists w. simpl. rewrite bool_decide_eq_true_2 by lia. done.
Qed.

Lemma value_has_type_ZeroOfType (τ : Ty) : value_has_type (ZeroOfType τ) τ = true.
Proof.
  induction τ as [w|ts IH|n e IH] using Ty_ind'; simpl.
  - apply bool_decide_eq_true. split; [done|]. apply Z.pow_pos_nonneg; lia.
  - apply forall2b_Forall2. by apply Forall2_fmap_l, Forall_Forall2_diag.
  - rewrite length_replicate, Nat.eqb_refl. simpl.
    by apply forallb_Forall, Forall_replicate.
Qed.

(** ** Evaluation of well-typed graphs *)

Lemma replace_operand_rename (old new : NodePtr) (n : Node) :
  replace_operand old new n = rename (λ o, if bool_decide (o = old) then new else o) n.
Proof. done. Qed.

Lemma rename_rename (σ σ' : NodePtr → NodePtr) (n : Node) :
  rename σ' (rename σ n) = rename (σ' ∘ σ) n.
Proof. unfold rename. simpl. by rewrite map_map. Qed.

Lemma rename_id (σ : NodePtr → NodePtr) (n : Node) :
  (∀ o, o ∈ operands_ n → σ o = o) → rename σ n = n.
Proof.
  intros H. destruct n as [i nm op ops τ]. unfold rename. simpl in *. f_equal.
  induction ops as [|o ops IH]; [done|]. simpl. f_equal.
  - apply H. by left.
  - apply IH. intros o' Ho'. apply H. by right.
Qed.

Lemma map_rename_id (ns : list Node) : map (rename id) ns = ns.
Proof.
  induction ns as [|n ns IH]; [done|]. simpl. by rewrite IH, rename_id.
Qed.

Lemma mapM_lookup_rename {V} (ρ ρ' : gmap N V) (σ : NodePtr → NodePtr) (ops : list N) :
  (∀ o, o ∈ ops → ρ !! σ o = ρ' !! o) →
  mapM (ρ !!.) (map σ ops) = mapM (ρ' !!.) ops.
Proof.
  induction ops as [|o ops IH]; intros H; [done|]. simpl.
  rewrite (H o) by (by left). rewrite IH; [done|].
  intros o' Ho'. apply H. by right.
Qed.

Section Evaluation.
Context (other_sem : string → list Value → Ty → Value).
Context (args : NodePtr → Value).

Lemma eval_node_rename (ρ ρ' : gmap N Value) (σ : NodePtr → NodePtr) (n : Node) :
  (∀ o, o ∈ operands_ n → ρ !! σ o = ρ' !! o) →
  eval_node other_sem args ρ (rename σ n) = eval_node other_sem args ρ' n.
Proof.
  intros H. unfold eval_node. simpl.
  destruct (op_ n) eqn:Hop.
  - done.
  - done.
  - destruct (operands_ n) as [|a [|b l]]; simpl; try done. apply H. by left.
  - by rewrite (mapM_lookup_rename ρ ρ').
  - destruct (operands_ n) as [|a [|b l]]; simpl; try done.
    rewrite (H a) by (by left). done.
  - by rewrite (mapM_lookup_rename ρ ρ').
  - destruct (operands_ n) as [|a [|b [|c l]]]; simpl; try done.
    rewrite (H a), (H b) by (repeat constructor). done.
  - destruct (operands_ n) as [|a [|b [|c [|d l]]]]; simpl; try done.
    rewrite (H a), (H b), (H c) by (repeat constructor). done.
  - destruct (operands_ n) as [|a l]; simpl; [done|].
    rewrite (H a) by (by left).
    destruct (ρ' !! a) as [[k| |]|]; try done.
    unfold clamp_index. rewrite length_map. unfold nth_z. case_bool_decide; [|done].
    rewrite list_lookup_fmap.
    destruct (l !! _) as [c|] eqn:Hc; simpl; [|done].
    apply H. right. by eapply list_elem_of_lookup_2.
  - by rewrite (mapM_lookup_rename ρ ρ').
Qed.

Lemma eval_node_ext (ρ ρ' : gmap N Value) (n : Node) :
  (∀ o, o ∈ operands_ n → ρ !! o = ρ' !! o) →
  eval_node other_sem args ρ n = eval_node other_sem args ρ' n.
Proof.
  intros H. rewrite <- (eval_node_rename ρ ρ' id n H).
  f_equal. symmetry. by apply rename_id.
Qed.

Lemma eval_nodes_app (ρ : gmap N Value) (ns ns' : list Node) :
  eval_nodes other_sem args ρ (ns ++ ns')
  = eval_nodes other_sem args ρ ns ≫= λ ρ', eval_nodes other_sem args ρ' ns'.
Proof.
  revert ρ. induction ns as [|n ns IH]; intros ρ; [done|]. simpl.
  destruct (eval_node other_sem args ρ n); simpl; [apply IH | done].
Qed.

(** Evaluation only adds the ids of the evaluated nodes. *)
Lemma eval_nodes_lookup_other (ns : list Node) : ∀ (ρ ρ' : gmap N Value) (a : N),
  eval_nodes other_sem args ρ ns = Some ρ' →
  a ∉ map id_ ns → ρ' !! a = ρ !! a.
Proof.
  induction ns as [|n ns IH]; intros ρ ρ' a H Ha; simpl in H.
  - by injection H as <-.
  - destruct (eval_node other_sem args ρ n) as [v|]; [|done]. simpl in H.
    rewrite (IH _ _ _ H).
    + apply lookup_insert_ne. intros Heq. apply Ha. rewrite <- Heq. by left.
    + intros ?. apply Ha. by right.
Qed.

Lemma eval_nodes_dom (ns : list Node) : ∀ (ρ ρ' : gmap N Value) (a : N),
  eval_nodes other_sem args ρ ns = Some ρ' →
  is_Some (ρ' !! a) ↔ is_Some (ρ !! a) ∨ a ∈ map id_ ns.
Proof.
  induction ns as [|n ns IH]; intros ρ ρ' a H; simpl in H.
  - injection H as <-. split; [by left | intros [?|Hin]; [done | by inversion Hin]].
  - destruct (eval_node other_sem args ρ n) as [v|]; [|done]. simpl in H.
    rewrite (IH _ _ _ H). simpl. rewrite elem_of_cons.
    destruct (decide (a = id_ n)) as [->|Hne].
    + rewrite lookup_insert_eq. split; [by right; left | by left; eexists].
    + rewrite lookup_insert_ne by done. tauto.
Qed.
End Evaluation.

(** ** Soundness of the provenance analysis *)

Lemma SetValue_Ok (n : Node) (t : LeafTypeTree NodeSource)
    (m m' : gmap N (LeafTypeTree NodeSource)) :
  SetValue n t m = Ok m' → has_shape (type_ n) t = true ∧ m' = <[id_ n := t]> m.
Proof.
  unfold SetValue, GetType. destruct (has_shape _ _); [|done]. by intros [= <-].
Qed.

Lemma JoinElements_cases (ety : Ty) (ds : list NodeSource)
    (cs : list (LeafTypeTree NodeSource)) (n : NodePtr) (index : list Z) (s : NodeSource) :
  default (Err kInternal) (JoinElements ety ds cs n index) = Ok s →
  ds ≠ [] ∧ (Forall (λ d, d = s) ds ∨ s = MkNodeSource n index).
Proof.
  destruct ds as [|front rest]; [done|]. unfold JoinElements.
  destruct (forallb _ _) eqn:Hall; simpl; intros [= <-]; (split; [done|]).
  - left. apply forallb_Forall in Hall. eapply Forall_impl; [exact Hall|].
    intros d Hd. by apply NodeSource_eq_eq.
  - by right.
Qed.

Lemma Join_leaf (τ : Ty) (data control : list (LeafTypeTree NodeSource))
    (n : NodePtr) (index : list Z) (t : LeafTypeTree NodeSource) :
  Join τ data control n index = Ok t →
  ∀ p s, leaf_at p t = Some s →
    ∃ ds, mapM (leaf_at p) data = Some ds ∧ ds ≠ [] ∧
          (Forall (λ d, d = s) ds ∨ s = MkNodeSource n (index ++ p)).
Proof.
  unfold Join, ForEachIndex. intros [_ Hl]%ForEachIndex_from_inv p s Hs.
  specialize (Hl p). rewrite Hs in Hl. destruct Hl as (x & σ & _ & Hf). simpl in Hf.
  apply bind_Ok_inv in Hf as (ds & Hds%ret_check_Ok & Hj).
  apply JoinElements_cases in Hj as [? ?]. eauto.
Qed.

Section Analysis.
Context (other_sem : string → list Value → Ty → Value).
Context (args : NodePtr → Value).
Context (f : FunctionBase).
Hypothesis other_sem_typed :
  ∀ tag vs τ, value_has_type (other_sem tag vs τ) τ = true.

Implicit Types (seen : gmap N Ty) (ρ : gmap N Value) (m : gmap N (LeafTypeTree NodeSource)).

(** Every defined node has a value of its type. *)
Definition env_typed seen ρ : Prop :=
  ∀ a, match seen !! a with
       | Some τ => ∃ v, ρ !! a = Some v ∧ value_has_type v τ = true
       | None => ρ !! a = None
       end.

(** A source found at path [p] of the container of a node with value [v]
    names a leaf of an earlier node that describes itself and holds the
    value that [v] holds at [p]. *)
Definition src_ok ρ m (v : Value) (p : list Z) (s : NodeSource) : Prop :=
  ∃ vM tM u,
    ρ !! node s = Some vM ∧ m !! node s = Some tM ∧
    leaf_at (tree_index s) tM = Some s ∧
    subvalue p v = Some u ∧ subvalue (tree_index s) vM = Some u.

Definition memo_sound seen ρ m : Prop :=
  ∀ a t, m !! a = Some t →
    ∃ τ v, seen !! a = Some τ ∧ ρ !! a = Some v ∧ has_shape τ t = true ∧
           ∀ p s, leaf_at p t = Some s → src_ok ρ m v p s.

Definition literals_known seen ρ : Prop :=
  ∀ a k, literal_index f a = Some k → is_Some (seen !! a) → ρ !! a = Some (VBits k).

(** What a handler has to establish for a leaf of the new container: it is
    fresh, or it is a leaf of an operand that holds the same value. *)
Definition leaf_ok ρ m (n : Node) (v : Value) (p : list Z) (s : NodeSource) : Prop :=
  s = MkNodeSource (id_ n) p ∨
  ∃ a ta va p',
    m !! a = Some ta ∧ leaf_at p' ta = Some s ∧ ρ !! a = Some va ∧
    ∀ u, subvalue p v = Some u → subvalue p' va = Some u.

Lemma typed_leaf_subvalue (τ : Ty) (t : LeafTypeTree NodeSource) (v : Value)
    (p : list Z) (s : NodeSource) :
  has_shape τ t = true → value_has_type v τ = true → leaf_at p t = Some s →
  ∃ u, subvalue p v = Some u.
Proof.
  intros Hsh Hv Hs.
  destruct (proj1 (has_shape_leaf_at τ t p Hsh)) as [w Hw]; [by eexists|].
  destruct (value_has_type_subvalue p v τ _ Hv Hw) as (u & ? & _). eauto.
Qed.

Lemma src_ok_insert ρ m (a : N) (v0 : Value) (t0 : LeafTypeTree NodeSource)
    (v : Value) (p : list Z) (s : NodeSource) :
  ρ !! a = None → src_ok ρ m v p s → src_ok (<[a := v0]> ρ) (<[a := t0]> m) v p s.
Proof.
  intros Ha (vM & tM & u & HvM & HtM & ? & ? & ?).
  assert (node s ≠ a) by congruence.
  exists vM, tM, u. rewrite !lookup_insert_ne by done. done.
Qed.

Lemma analysis_step seen ρ m (n : Node) (v : Value) (t : LeafTypeTree NodeSource) :
  env_typed seen ρ → memo_sound seen ρ m → literals_known seen ρ →
  seen !! id_ n = None →
  GetNode f (id_ n) = Some n →
  eval_node other_sem args ρ n = Some v →
  value_has_type v (type_ n) = true →
  has_shape (type_ n) t = true →
  (∀ p s, leaf_at p t = Some s → leaf_ok ρ m n v p s) →
  env_typed (<[id_ n := type_ n]> seen) (<[id_ n := v]> ρ) ∧
  memo_sound (<[id_ n := type_ n]> seen) (<[id_ n := v]> ρ) (<[id_ n := t]> m) ∧
  literals_known (<[id_ n := type_ n]> seen) (<[id_ n := v]> ρ).
Proof.
  intros Henv Hmemo Hlit Hfresh Hget Hev Hv Hsh Hleaves.
  assert (ρ !! id_ n = None) as Hρ.
  { specialize (Henv (id_ n)). by rewrite Hfresh in Henv. }
  split; [|split].
  - intros a. destruct (decide (a = id_ n)) as [->|Hne].
    + rewrite !lookup_insert_eq. eauto.
    + rewrite !lookup_insert_ne by done. apply Henv.
  - intros a ta Ha. destruct (decide (a = id_ n)) as [->|Hne].
    + rewrite lookup_insert_eq in Ha. injection Ha as <-.
      exists (type_ n), v. rewrite !lookup_insert_eq. do 3 (split; [done|]).
      intros p s Hs. destruct (typed_leaf_subvalue _ _ _ _ _ Hsh Hv Hs) as [u Hu].
      destruct (Hleaves p s Hs) as [->|(a & ta & va & p' & Hta & Hp' & Hva & Hsub)].
      * exists v, t, u. simpl. rewrite !lookup_insert_eq. done.
      * destruct (Hmemo a ta Hta) as (τa & va' & _ & Hva' & _ & Hsrc).
        assert (va' = va) as -> by congruence.
        destruct (Hsrc p' s Hp') as (vM & tM & u' & ? & ? & ? & Hu' & ?).
        assert (u' = u) as -> by (specialize (Hsub u Hu); congruence).
        apply src_ok_insert; [done|]. by exists vM, tM, u.
    + rewrite lookup_insert_ne in Ha by done.
      destruct (Hmemo a ta Ha) as (τa & va & ? & ? & ? & Hsrc).
      exists τa, va. rewrite !lookup_insert_ne by done. do 3 (split; [done|]).
      intros p s Hs. apply src_ok_insert; [done|]. by apply Hsrc.
  - intros a k Hk Ha. destruct (decide (a = id_ n)) as [->|Hne].
    + rewrite lookup_insert_eq. f_equal. unfold literal_index in Hk. rewrite Hget in Hk.
      simpl in Hk. unfold eval_node in Hev.
      destruct (op_ n) as [|[z| |]| | | | | | | |]; try done.
      injection Hk as <-. congruence.
    + rewrite lookup_insert_ne in Ha by done. rewrite lookup_insert_ne by done.
      by apply Hlit.
Qed.
End Analysis.

Lemma mapM_lookup_l {A B} (g : A → option B) (l : list A) (k : list B) (i : nat) (a : A) :
  mapM g l = Some k → l !! i = Some a → ∃ b, k !! i = Some b ∧ g a = Some b.
Proof.
  intros HF%mapM_Some Ha. destruct (Forall2_lookup_l _ _ _ _ _ HF Ha) as (b & ? & ?). eauto.
Qed.

Lemma mapM_lookup_r {A B} (g : A → option B) (l : list A) (k : list B) (i : nat) (b : B) :
  mapM g l = Some k → k !! i = Some b → ∃ a, l !! i = Some a ∧ g a = Some b.
Proof.
  intros HF%mapM_Some Hb. destruct (Forall2_lookup_r _ _ _ _ _ HF Hb) as (a & ? & ?). eauto.
Qed.

Lemma shape_value_length (τ : Ty) {T} (cs : list (LeafTypeTree T)) (vs : list Value) :
  has_shape τ (Branch cs) = true →
  value_has_type (VArray vs) τ = true ∨ value_has_type (VTuple vs) τ = true →
  length cs = length vs.
Proof.
  destruct τ as [w|ts|n e]; simpl; [done| |].
  - intros H1%forall2b_Forall2 [?|H2%forall2b_Forall2]; [done|].
    apply Forall2_length in H1, H2. congruence.
  - intros [H1%Nat.eqb_eq _]%andb_true_iff [[H2%Nat.eqb_eq _]%andb_true_iff|?]; [|done].
    congruence.
Qed.

Section Handlers.
Context (other_sem : string → list Value → Ty → Value).
Context (args : NodePtr → Value).
Context (f : FunctionBase).
Context (seen : gmap N Ty) (ρ : gmap N Value) (m : gmap N (LeafTypeTree NodeSource)).
Hypothesis Henv : env_typed seen ρ.
Hypothesis Hmemo : memo_sound seen ρ m.
Hypothesis Hlit : literals_known f seen ρ.

Definition handler_ok (n : Node) (v : Value) (m' : gmap N (LeafTypeTree NodeSource)) : Prop :=
  ∃ t, m' = <[id_ n := t]> m ∧ has_shape (type_ n) t = true ∧
       ∀ p s, leaf_at p t = Some s → leaf_ok ρ m n v p s.

Lemma operand_facts (a : N) (ta : LeafTypeTree NodeSource) :
  m !! a = Some ta →
  ∃ τ va, seen !! a = Some τ ∧ ρ !! a = Some va ∧
          value_has_type va τ = true ∧ has_shape τ ta = true.
Proof.
  intros Ha. destruct (Hmemo a ta Ha) as (τ & va & Hτ & Hva & Hsh & _).
  exists τ, va. do 2 (split; [done|]). split; [|done].
  specialize (Henv a). rewrite Hτ in Henv. destruct Henv as (v' & ? & ?). congruence.
Qed.

Lemma operand_lengths (a : N) (cs : list (LeafTypeTree NodeSource)) (vs : list Value) :
  m !! a = Some (Branch cs) → ρ !! a = Some (VArray vs) ∨ ρ !! a = Some (VTuple vs) →
  length cs = length vs.
Proof.
  intros (τ & va & _ & Hva & Hv & Hsh)%operand_facts Hρ.
  apply (shape_value_length τ); [done|].
  destruct Hρ as [Hρ|Hρ]; rewrite Hva in Hρ; injection Hρ as ->; [by left | by right].
Qed.

Lemma from_SetValue (n : Node) (v : Value) (t : LeafTypeTree NodeSource)
    (m' : gmap N (LeafTypeTree NodeSource)) :
  SetValue n t m = Ok m' →
  (∀ p s, leaf_at p t = Some s → leaf_ok ρ m n v p s) →
  handler_ok n v m'.
Proof. intros [Hsh ->]%SetValue_Ok Hl. by exists t. Qed.

Lemma DefaultHandler_ok (n : Node) (v : Value) (m' : gmap N (LeafTypeTree NodeSource)) :
  DefaultHandler n m = Ok m' → handler_ok n v m'.
Proof.
  destruct (DefaultHandler_Ok n m) as (t & -> & Hsh & _ & Hl). intros [= <-].
  exists t. do 2 (split; [done|]). intros p s Hs. left. by apply Hl.
Qed.

Lemma HandleIdentity_ok (n : Node) (v : Value) (m' : gmap N (LeafTypeTree NodeSource)) :
  op_ n = kIdentity →
  eval_node other_sem args ρ n = Some v →
  HandleIdentity n m = Ok m' → handler_ok n v m'.
Proof.
  unfold eval_node, HandleIdentity. intros -> Hev H.
  destruct (operands_ n) as [|a [|b l]]; try done.
  apply bind_Ok_inv in H as (ta & Hta%ret_check_Ok & H).
  eapply from_SetValue; [done|]. intros p s Hs. right. by exists a, ta, v, p.
Qed.

Lemma aggregate_leaf_ok (n : Node) (ops : list N) (ts : list (LeafTypeTree NodeSource))
    (vs : list Value) (v : Value) :
  mapM (m !!.) ops = Some ts → mapM (ρ !!.) ops = Some vs →
  (∀ i, vchild v i = nth_z vs i) →
  ∀ p s, leaf_at p (Branch ts) = Some s → leaf_ok ρ m n v p s.
Proof.
  intros Hts Hvs Hv [|i p] s Hs; [done|]. rewrite leaf_at_cons in Hs. simpl in Hs.
  destruct (nth_z ts i) as [ta|] eqn:Hta; [|done]. simpl in Hs.
  apply nth_z_Some in Hta as [Hi Hta].
  destruct (mapM_lookup_r _ _ _ _ _ Hts Hta) as (a & Ha & Hma).
  destruct (mapM_lookup_l _ _ _ _ _ Hvs Ha) as (va & Hva & Hρa).
  right. exists a, ta, va, p. do 3 (split; [done|]).
  intros u. rewrite subvalue_cons, Hv.
  rewrite (proj2 (nth_z_Some vs i va)) by done. done.
Qed.

Lemma HandleAggregate_ok (n : Node) (v : Value) (m' : gmap N (LeafTypeTree NodeSource)) :
  op_ n = kTuple ∨ op_ n = kArray →
  eval_node other_sem args ρ n = Some v →
  HandleAggregate n m = Ok m' → handler_ok n v m'.
Proof.
  unfold eval_node, HandleAggregate. intros Hop Hev H.
  apply bind_Ok_inv in H as (ts & Hts%ret_check_Ok & H).
  eapply from_SetValue; [done|].
  destruct Hop as [Hop|Hop]; rewrite Hop in Hev;
    destruct (mapM (ρ !!.) (operands_ n)) as [vs|] eqn:Hvs; try done;
    injection Hev as <-; by eapply aggregate_leaf_ok.
Qed.

Lemma child_leaf_ok (n : Node) (a : N) (ta t : LeafTypeTree NodeSource)
    (va v : Value) (i : Z) :
  m !! a = Some ta → ρ !! a = Some va →
  child ta i = Some t → vchild va i = Some v →
  ∀ p s, leaf_at p t = Some s → leaf_ok ρ m n v p s.
Proof.
  intros Hta Hva Ht Hv p s Hs. right. exists a, ta, va, (i :: p).
  split; [done|]. split; [by rewrite leaf_at_cons, Ht|]. split; [done|].
  intros u Hu. by rewrite subvalue_cons, Hv.
Qed.

Lemma subtree_singleton {T} (i : Z) (t : LeafTypeTree T) : subtree [i] t = child t i.
Proof. rewrite subtree_cons. by destruct (child t i). Qed.

Lemma HandleTupleIndex_ok (i : Z) (n : Node) (v : Value)
    (m' : gmap N (LeafTypeTree NodeSource)) :
  op_ n = kTupleIndex i →
  eval_node other_sem args ρ n = Some v →
  HandleTupleIndex i n m = Ok m' → handler_ok n v m'.
Proof.
  unfold eval_node, HandleTupleIndex. intros -> Hev H.
  destruct (operands_ n) as [|a [|b l]]; try done.
  apply bind_Ok_inv in H as (ta & Hta%ret_check_Ok & H).
  apply bind_Ok_inv in H as (t & Ht%ret_check_Ok & H).
  rewrite subtree_singleton in Ht.
  destruct (ρ !! a) as [[|vs|]|] eqn:Hva; try done.
  eapply from_SetValue; [done|]. by eapply child_leaf_ok.
Qed.

Lemma join_children_leaf_ok (n : Node) (a : N) (cs control : list (LeafTypeTree NodeSource))
    (t : LeafTypeTree NodeSource) (va v : Value) (j : Z) :
  m !! a = Some (Branch cs) → ρ !! a = Some va →
  vchild va j = Some v → 0 ≤ j → (Z.to_nat j < length cs)%nat →
  Join (type_ n) cs control (id_ n) [] = Ok t →
  ∀ p s, leaf_at p t = Some s → leaf_ok ρ m n v p s.
Proof.
  intros Hta Hva Hv Hj Hlen HJ p s Hs.
  destruct (Join_leaf _ _ _ _ _ _ HJ p s Hs) as (ds & Hds & _ & [Hall| ->]); [|by left].
  destruct (lookup_lt_is_Some_2 cs (Z.to_nat j) Hlen) as [c Hc].
  destruct (mapM_lookup_l _ _ _ _ _ Hds Hc) as (d & Hd & Hcd).
  pose proof (Forall_lookup_1 _ _ _ _ Hall Hd) as ->.
  right. exists a, (Branch cs), va, (j :: p). split; [done|]. split.
  - rewrite leaf_at_cons. simpl. by rewrite (proj2 (nth_z_Some cs j c)).
  - split; [done|]. intros u Hu. by rewrite subvalue_cons, Hv.
Qed.

Lemma clamp_index_in_range {A B} (k : Z) (cs : list A) (vs : list B) :
  length cs = length vs → in_range k cs = true → clamp_index k vs = k.
Proof.
  unfold in_range, clamp_index. intros <- H%bool_decide_eq_true. lia.
Qed.

Lemma HandleArrayIndex_ok (n : Node) (v : Value) (m' : gmap N (LeafTypeTree NodeSource)) :
  op_ n = kArrayIndex →
  eval_node other_sem args ρ n = Some v →
  HandleArrayIndex f n m = Ok m' → handler_ok n v m'.
Proof.
  unfold eval_node, HandleArrayIndex. intros -> Hev H.
  destruct (operands_ n) as [|a [|idx [|c l]]]; try done.
  apply bind_Ok_inv in H as (ta & Hta%ret_check_Ok & H).
  apply bind_Ok_inv in H as (ti & Hti%ret_check_Ok & H).
  destruct ta as [|cs]; [done|].
  destruct (ρ !! a) as [[| |vs]|] eqn:Hva; try done.
  destruct (ρ !! idx) as [[k'| |]|] eqn:Hvi; try done.
  assert (length cs = length vs) as Hlen by (eapply operand_lengths; eauto).
  assert (∀ t, Join (type_ n) cs [ti] (id_ n) [] = Ok t →
               ∀ p s, leaf_at p t = Some s → leaf_ok ρ m n v p s) as Hjoin.
  { intros t Ht. pose proof (nth_z_lt _ _ _ Hev) as Hj.
    eapply (join_children_leaf_ok n a cs [ti] t (VArray vs) v); eauto; lia. }
  destruct (literal_index f idx) as [k|] eqn:Hk.
  - destruct (in_range k cs) eqn:Hin.
    + apply bind_Ok_inv in H as (t & Ht%ret_check_Ok & H).
      rewrite subtree_singleton in Ht.
      assert (k' = k) as ->.
      { destruct (operand_facts idx ti Hti) as (τ & vi & Hτ & Hvi' & _).
        specialize (Hlit idx k Hk ltac:(by eexists)). congruence. }
      rewrite (clamp_index_in_range k cs vs) in Hev by done.
      eapply from_SetValue; [done|]. by eapply (child_leaf_ok n a (Branch cs) t (VArray vs)).
    + apply bind_Ok_inv in H as (t & Ht & H).
      eapply from_SetValue; [done|]. by apply Hjoin.
  - apply bind_Ok_inv in H as (t & Ht & H).
    eapply from_SetValue; [done|]. by apply Hjoin.
Qed.

Lemma nth_z_insert_eq {A} (l : list A) (k : Z) (x : A) :
  0 ≤ k < Z.of_nat (length l) → nth_z (<[Z.to_nat k := x]> l) k = Some x.
Proof.
  intros Hk. apply nth_z_Some. split; [lia|]. apply list_lookup_insert_eq. lia.
Qed.

Lemma nth_z_insert_ne {A} (l : list A) (k i : Z) (x : A) :
  0 ≤ k → i ≠ k → nth_z (<[Z.to_nat k := x]> l) i = nth_z l i.
Proof.
  intros Hk Hne. unfold nth_z. case_bool_decide; [|done].
  apply list_lookup_insert_ne. lia.
Qed.

Lemma HandleArrayUpdate_ok (n : Node) (v : Value) (m' : gmap N (LeafTypeTree NodeSource)) :
  op_ n = kArrayUpdate →
  eval_node other_sem args ρ n = Some v →
  HandleArrayUpdate f n m = Ok m' → handler_ok n v m'.
Proof.
  unfold eval_node, HandleArrayUpdate. intros -> Hev H.
  destruct (operands_ n) as [|a [|x [|idx [|c l]]]]; try done.
  apply bind_Ok_inv in H as (ta & Hta%ret_check_Ok & H).
  apply bind_Ok_inv in H as (tv & Htv%ret_check_Ok & H).
  apply bind_Ok_inv in H as (ti & Hti%ret_check_Ok & H).
  destruct ta as [|cs]; [done|].
  destruct (GetType n) as [|?|len e] eqn:Hty; try done.
  destruct (ρ !! a) as [[| |vs]|] eqn:Hva; try done.
  destruct (ρ !! x) as [vx|] eqn:Hvx; try done.
  destruct (ρ !! idx) as [[k'| |]|] eqn:Hvi; try done.
  injection Hev as <-.
  assert (length cs = length vs) as Hlen by (eapply operand_lengths; eauto).
  destruct (literal_index f idx) as [k|] eqn:Hk.
  - destruct (in_range k cs) eqn:Hin; [|done].
    assert (k' = k) as ->.
    { destruct (operand_facts idx ti Hti) as (τ & vi & Hτ & Hvi' & _).
      specialize (Hlit idx k Hk ltac:(by eexists)). congruence. }
    assert (in_range k vs = true) as ->.
    { unfold in_range in *. by rewrite <- Hlen. }
    apply bool_decide_eq_true in Hin.
    eapply from_SetValue; [done|]. intros [|i p] s Hs; [done|].
    rewrite leaf_at_cons in Hs. simpl in Hs. right.
    destruct (decide (i = k)) as [->|Hne].
    + rewrite nth_z_insert_eq in Hs by done. simpl in Hs.
      exists x, tv, vx, p. do 3 (split; [done|]). intros u.
      rewrite subvalue_cons. simpl. rewrite nth_z_insert_eq by lia. done.
    + rewrite nth_z_insert_ne in Hs by (done || lia).
      exists a, (Branch cs), (VArray vs), (i :: p). split; [done|].
      split; [by rewrite leaf_at_cons|]. split; [done|]. intros u.
      rewrite !subvalue_cons. simpl. rewrite nth_z_insert_ne by (done || lia). done.
  - apply bind_Ok_inv in H as (cs' & Hcs' & H). apply imapM_Ok in Hcs' as [Hlen' Hcs'].
    eapply from_SetValue; [done|]. intros [|i p] s Hs; [done|].
    rewrite leaf_at_cons in Hs. simpl in Hs.
    destruct (nth_z cs' i) as [c'|] eqn:Hc'; [|done]. simpl in Hs.
    apply nth_z_Some in Hc' as [Hi Hc'].
    destruct (lookup_lt_is_Some_2 cs (Z.to_nat i)) as [c0 Hc0].
    { rewrite <- Hlen'. by eapply lookup_lt_Some. }
    destruct (Hcs' _ _ Hc0) as (c'' & Hc'' & HJ).
    assert (c'' = c') as -> by congruence.
    rewrite Z.add_0_l, Z2Nat.id in HJ by done.
    destruct (Join_leaf _ _ _ _ _ _ HJ p s Hs) as (ds & Hds & _ & [Hall| ->]); [|by left].
    simpl in Hds. destruct (leaf_at p c0) as [d1|] eqn:Hd1; [|done].
    destruct (leaf_at p tv) as [d2|] eqn:Hd2; [|done]. simpl in Hds.
    injection Hds as <-. apply Forall_cons in Hall as [-> [-> _]%Forall_cons].
    right. destruct (decide (in_range k' vs = true ∧ i = k')) as [[Hin ->]|Hno].
    + rewrite Hin. apply bool_decide_eq_true in Hin.
      exists x, tv, vx, p. do 3 (split; [done|]). intros u.
      rewrite subvalue_cons. simpl. rewrite nth_z_insert_eq by lia. done.
    + exists a, (Branch cs), (VArray vs), (i :: p). split; [done|]. split.
      { rewrite leaf_at_cons. simpl. by rewrite (proj2 (nth_z_Some cs i c0)). }
      split; [done|]. intros u. rewrite !subvalue_cons. simpl.
      destruct (in_range k' vs) eqn:Hin; [|done].
      apply bool_decide_eq_true in Hin.
      rewrite nth_z_insert_ne; [done | lia |]. intros ->. by apply Hno.
Qed.

Lemma HandleSelect_ok (n : Node) (v : Value) (m' : gmap N (LeafTypeTree NodeSource)) :
  op_ n = kSel →
  eval_node other_sem args ρ n = Some v →
  HandleSelect n m = Ok m' → handler_ok n v m'.
Proof.
  unfold eval_node, HandleSelect. intros -> Hev H.
  destruct (operands_ n) as [|sel cases]; [done|].
  apply bind_Ok_inv in H as (ts & Hts%ret_check_Ok & H).
  apply bind_Ok_inv in H as (tcs & Htcs%ret_check_Ok & H).
  apply bind_Ok_inv in H as (t & HJ & H).
  destruct (ρ !! sel) as [[k| |]|] eqn:Hvs; try done.
  destruct (nth_z cases (clamp_index k cases)) as [c|] eqn:Hc; [|done]. simpl in Hev.
  apply nth_z_Some in Hc as [Hj Hc].
  eapply from_SetValue; [done|]. intros p s Hs.
  destruct (Join_leaf _ _ _ _ _ _ HJ p s Hs) as (ds & Hds & _ & [Hall| ->]); [|by left].
  destruct (mapM_lookup_l _ _ _ _ _ Htcs Hc) as (tc & Htc & Hmc).
  destruct (mapM_lookup_l _ _ _ _ _ Hds Htc) as (d & Hd & Hcd).
  pose proof (Forall_lookup_1 _ _ _ _ Hall Hd) as ->.
  right. by exists c, tc, v, p.
Qed.

Lemma VisitNode_ok (n : Node) (v : Value) (m' : gmap N (LeafTypeTree NodeSource)) :
  eval_node other_sem args ρ n = Some v →
  VisitNode f n m = Ok m' → handler_ok n v m'.
Proof.
  unfold VisitNode. intros Hev H. destruct (op_ n) eqn:Hop.
  - by eapply DefaultHandler_ok.
  - by eapply DefaultHandler_ok.
  - by eapply HandleIdentity_ok.
  - eapply HandleAggregate_ok; eauto.
  - by eapply HandleTupleIndex_ok.
  - eapply HandleAggregate_ok; eauto.
  - by eapply HandleArrayIndex_ok.
  - by eapply HandleArrayUpdate_ok.
  - by eapply HandleSelect_ok.
  - by eapply DefaultHandler_ok.
Qed.
End Handlers.

(** ** Well-typed graphs evaluate *)

Lemma VerifyNode_scoped (next : N) (seen : gmap N Ty) (n : Node) :
  VerifyNode next seen n = true →
  seen !! id_ n = None ∧ (id_ n < next)%N ∧ ∀ o, o ∈ operands_ n → is_Some (seen !! o).
Proof.
  unfold VerifyNode.
  intros [[H1%bool_decide_eq_true H2%bool_decide_eq_true]%andb_true_iff H]%andb_true_iff.
  do 2 (split; [done|]). intros o Ho.
  assert (∀ ops, is_Some (mapM (seen !!.) ops) → o ∈ ops → is_Some (seen !! o)) as Hm.
  { intros ops HF%mapM_is_Some Hin. by apply (proj1 (Forall_forall _ _) HF o Hin). }
  destruct (op_ n).
  - destruct (operands_ n); [by apply elem_of_nil in Ho | done].
  - destruct (operands_ n); [by apply elem_of_nil in Ho | done].
  - destruct (operands_ n) as [|a [|b l]]; try done.
    apply list_elem_of_singleton in Ho as ->. by destruct (seen !! a).
  - apply (Hm (operands_ n)); [|done]. by destruct (mapM _ _).
  - destruct (operands_ n) as [|a [|b l]]; try done.
    apply list_elem_of_singleton in Ho as ->. by destruct (seen !! a).
  - apply (Hm (operands_ n)); [|done]. by destruct (mapM _ _).
  - destruct (operands_ n) as [|a [|b [|c l]]]; try done.
    destruct (seen !! a) eqn:?, (seen !! b) eqn:?; try done;
      [|by destruct t as [| |]].
    apply elem_of_cons in Ho as [->|Ho]; [done|].
    apply list_elem_of_singleton in Ho as ->. done.
  - destruct (operands_ n) as [|a [|b [|c [|d l]]]]; try done.
    destruct (seen !! a) as [[| |]|] eqn:?; try done.
    destruct (seen !! b) eqn:?; try done. destruct (seen !! c) eqn:?; try done.
    apply elem_of_cons in Ho as [->|Ho]; [done|].
    apply elem_of_cons in Ho as [->|Ho]; [done|].
    apply list_elem_of_singleton in Ho as ->. done.
  - destruct (operands_ n) as [|sel [|c cases]]; try done.
    destruct (seen !! sel) as [[| |]|] eqn:?; try done.
    apply elem_of_cons in Ho as [->|Ho]; [done|].
    apply (Hm (c :: cases)); [|done]. by destruct (mapM _ (c :: cases)).
  - apply (Hm (operands_ n)); [|done]. by apply bool_decide_eq_true in H.
Qed.

Section Typing.
Context (other_sem : string → list Value → Ty → Value).
Context (args : NodePtr → Value).
Hypothesis other_sem_typed :
  ∀ tag vs τ, value_has_type (other_sem tag vs τ) τ = true.

Lemma env_typed_lookup (seen : gmap N Ty) (ρ : gmap N Value) (a : N) (τ : Ty) :
  env_typed seen ρ → seen !! a = Some τ →
  ∃ v, ρ !! a = Some v ∧ value_has_type v τ = true.
Proof. intros H Ha. specialize (H a). by rewrite Ha in H. Qed.

Lemma mapM_typed (seen : gmap N Ty) (ρ : gmap N Value) (ops : list N) (ts : list Ty) :
  env_typed seen ρ → mapM (seen !!.) ops = Some ts →
  ∃ vs, mapM (ρ !!.) ops = Some vs ∧ Forall2 (λ v τ, value_has_type v τ = true) vs ts.
Proof.
  intros Henv HF%mapM_Some. induction HF as [|o τ ops ts Ho HF IH].
  - by exists [].
  - destruct IH as (vs & Hvs & HF'). destruct (env_typed_lookup _ _ _ _ Henv Ho) as (v & Hv & ?).
    exists (v :: vs). simpl. rewrite Hv, Hvs. split; [done | by constructor].
Qed.

Lemma eval_node_typed (next : N) (seen : gmap N Ty) (ρ : gmap N Value) (n : Node) :
  env_typed seen ρ →
  VerifyNode next seen n = true →
  (op_ n = kParam → value_has_type (args (id_ n)) (type_ n) = true) →
  ∃ v, eval_node other_sem args ρ n = Some v ∧ value_has_type v (type_ n) = true.
Proof.
  intros Henv HV Harg. unfold VerifyNode in HV. apply andb_true_iff in HV as [_ HV].
  unfold eval_node. destruct (op_ n) eqn:Hop.
  - eauto.
  - destruct (operands_ n); [eauto | done].
  - destruct (operands_ n) as [|a [|b l]]; try done.
    destruct (seen !! a) as [τ|] eqn:Ha; [|done]. apply Ty_eqb_eq in HV as <-.
    by eapply env_typed_lookup.
  - destruct (mapM (seen !!.) (operands_ n)) as [ts|] eqn:Hts; [|done].
    apply Ty_eqb_eq in HV as <-.
    destruct (mapM_typed _ _ _ _ Henv Hts) as (vs & -> & HF).
    eexists. split; [done|]. apply value_has_type_tuple. eauto.
  - destruct (operands_ n) as [|a [|b l]]; try done.
    destruct (seen !! a) as [[|ts|]|] eqn:Ha; try done.
    destruct (nth_z ts index) as [τ|] eqn:Hτ; [|done]. apply Ty_eqb_eq in HV as <-.
    destruct (env_typed_lookup _ _ _ _ Henv Ha) as (v & -> & Hv).
    destruct (value_has_type_child v (TupleType ts) τ index Hv Hτ) as (u & Hu & ?).
    apply value_has_type_tuple in Hv as (vs & -> & _). eauto.
  - destruct (mapM (seen !!.) (operands_ n)) as [ts|] eqn:Hts; [|done].
    destruct (type_ n) as [| |len e]; try done.
    apply andb_true_iff in HV as [Hlen%Nat.eqb_eq Hall%forallb_Forall].
    destruct (mapM_typed _ _ _ _ Henv Hts) as (vs & -> & HF).
    eexists. split; [done|]. apply value_has_type_array. exists vs. split; [done|].
    split; [by rewrite (Forall2_length _ _ _ HF)|].
    apply Forall_lookup. intros k v Hv.
    destruct (Forall2_lookup_l _ _ _ _ _ HF Hv) as (τ & Hτ & Hvτ).
    pose proof (Forall_lookup_1 _ _ _ _ Hall Hτ) as ->%Ty_eqb_eq. done.
  - destruct (operands_ n) as [|a [|idx [|c l]]]; try done.
    destruct (seen !! a) as [[| |len e]|] eqn:Ha; try done.
    destruct (seen !! idx) as [[w| |]|] eqn:Hi; try done.
    apply andb_true_iff in HV as [Hlen%Nat.ltb_lt <-%Ty_eqb_eq].
    destruct (env_typed_lookup _ _ _ _ Henv Ha) as (va & -> & Hva).
    destruct (env_typed_lookup _ _ _ _ Henv Hi) as (vi & -> & Hvi).
    apply value_has_type_array in Hva as (vs & -> & Hvs & HF).
    apply value_has_type_bits in Hvi as (k & -> & Hk).
    destruct (lookup_lt_is_Some_2 vs (Z.to_nat (clamp_index k vs))) as [u Hu].
    { unfold clamp_index. lia. }
    exists u. split; [|by eapply (Forall_lookup_1 _ _ _ _ HF)].
    apply nth_z_Some. split; [unfold clamp_index; lia | done].
  - destruct (operands_ n) as [|a [|x [|idx [|c l]]]]; try done.
    destruct (seen !! a) as [[| |len e]|] eqn:Ha; try done.
    destruct (seen !! x) as [τx|] eqn:Hx; try done.
    destruct (seen !! idx) as [[w| |]|] eqn:Hi; try done.
    apply andb_true_iff in HV as [<-%Ty_eqb_eq ->%Ty_eqb_eq].
    destruct (env_typed_lookup _ _ _ _ Henv Ha) as (va & -> & Hva).
    destruct (env_typed_lookup _ _ _ _ Henv Hx) as (vx & -> & Hvx).
    destruct (env_typed_lookup _ _ _ _ Henv Hi) as (vi & -> & Hvi).
    apply value_has_type_array in Hva as (vs & -> & Hvs & HF).
    apply value_has_type_bits in Hvi as (k & -> & Hk).
    eexists. split; [done|]. apply value_has_type_array. eexists. split; [done|].
    destruct (in_range k vs); [|done]. rewrite length_insert. split; [done|].
    by apply Forall_insert.
  - destruct (operands_ n) as [|sel [|c cases]]; try done.
    destruct (seen !! sel) as [[w| |]|] eqn:Hs; try done.
    destruct (mapM (seen !!.) (c :: cases)) as [ts|] eqn:Hts; [|done].
    apply forallb_Forall in HV.
    destruct (env_typed_lookup _ _ _ _ Henv Hs) as (vsel & -> & Hvsel).
    apply value_has_type_bits in Hvsel as (k & -> & Hk).
    destruct (mapM_typed _ _ _ _ Henv Hts) as (vs & Hvs & HF).
    destruct (lookup_lt_is_Some_2 (c :: cases) (Z.to_nat (clamp_index k (c :: cases))))
      as [c' Hc'].
    { unfold clamp_index. simpl. lia. }
    rewrite (proj2 (nth_z_Some _ _ c')); [|split; [unfold clamp_index; simpl; lia | done]].
    simpl. destruct (mapM_lookup_l _ _ _ _ _ Hvs Hc') as (v & Hv & ->).
    exists v. split; [done|].
    destruct (Forall2_lookup_l _ _ _ _ _ HF Hv) as (τ & Hτ & Hvτ).
    pose proof (Forall_lookup_1 _ _ _ _ HV Hτ) as ->%Ty_eqb_eq. done.
  - apply bool_decide_eq_true in HV as [ts Hts].
    destruct (mapM_typed _ _ _ _ Henv Hts) as (vs & -> & _). simpl. eauto.
Qed.
End Typing.

Lemma VisitNodes_app (f : FunctionBase) (ns ns' : list Node)
    (m : gmap N (LeafTypeTree NodeSource)) :
  VisitNodes f (ns ++ ns') m = VisitNodes f ns m ≫= VisitNodes f ns'.
Proof.
  revert m. induction ns as [|n ns IH]; intros m; [done|]. simpl.
  destruct (VisitNode f n m); simpl; [apply IH | done].
Qed.

Lemma VerifyNodes_app (next : N) (ns ns' : list Node) : ∀ seen : gmap N Ty,
  VerifyNodes next seen (ns ++ ns') = true →
  VerifyNodes next seen ns = true ∧ VerifyNodes next (seen_after ns seen) ns' = true.
Proof.
  induction ns as [|n ns IH]; intros seen; [done|]. simpl.
  intros [? [? ?]%IH]%andb_true_iff. split; [|done]. by apply andb_true_iff.
Qed.

Lemma seen_after_lookup (ns : list Node) : ∀ (seen : gmap N Ty) (a : N) (τ : Ty),
  seen_after ns seen !! a = Some τ →
  seen !! a = Some τ ∨ ∃ n, n ∈ ns ∧ id_ n = a ∧ type_ n = τ.
Proof.
  induction ns as [|n ns IH]; intros seen a τ; simpl; [by left|].
  intros [Ha|(n' & ? & ? & ?)]%IH.
  - destruct (decide (a = id_ n)) as [->|Hne].
    + rewrite lookup_insert_eq in Ha. injection Ha as <-. right. exists n. by split; [left|].
    + rewrite lookup_insert_ne in Ha by done. by left.
  - right. exists n'. by split; [right|].
Qed.

Lemma VerifyNodes_fresh (next : N) (ns : list Node) : ∀ seen : gmap N Ty,
  VerifyNodes next seen ns = true →
  NoDup (map id_ ns) ∧ ∀ n, n ∈ ns → seen !! id_ n = None ∧ (id_ n < next)%N.
Proof.
  induction ns as [|n ns IH]; intros seen; simpl.
  - intros _. split; [constructor | intros n Hn; by apply elem_of_nil in Hn].
  - intros [(Hfresh & Hlt & _)%VerifyNode_scoped [Hnd Hall]%IH]%andb_true_iff.
    assert (∀ n', n' ∈ ns → id_ n' ≠ id_ n) as Hne.
    { intros n' Hn' Heq. destruct (Hall n' Hn') as [Hn'' _].
      rewrite Heq, lookup_insert_eq in Hn''. done. }
    split.
    + constructor; [|done]. intros (n' & Heq & Hn')%list_elem_of_fmap_1.
      by eapply Hne.
    + intros n' [->|Hn']%elem_of_cons; [done|]. destruct (Hall n' Hn') as [Hn'' ?].
      split; [|done]. rewrite lookup_insert_ne in Hn''; [done|].
      intros Heq. by eapply Hne.
Qed.

Lemma find_id_NoDup (ns : list Node) (n : Node) :
  NoDup (map id_ ns) → n ∈ ns →
  List.find (λ n', bool_decide (id_ n' = id_ n)) ns = Some n.
Proof.
  induction ns as [|n' ns IH]; simpl; intros Hnd Hn; [by apply elem_of_nil in Hn|].
  apply NoDup_cons in Hnd as [Hn' Hnd]. case_bool_decide as Heq.
  - apply elem_of_cons in Hn as [->|Hn]; [done|]. exfalso. apply Hn'.
    rewrite Heq. by apply list_elem_of_fmap_2.
  - apply elem_of_cons in Hn as [->|Hn]; [done|]. by apply IH.
Qed.

Lemma find_id_None (ns : list Node) (a : N) :
  a ∉ map id_ ns → List.find (λ n', bool_decide (id_ n' = a)) ns = None.
Proof.
  induction ns as [|n' ns IH]; simpl; intros Ha; [done|].
  rewrite bool_decide_eq_false_2.
  - apply IH. intros ?. apply Ha. by right.
  - intros Heq. apply Ha. rewrite <- Heq. by left.
Qed.

Section AnalysisRun.
Context (other_sem : string → list Value → Ty → Value).
Context (args : NodePtr → Value).
Context (f : FunctionBase).
Hypothesis other_sem_typed :
  ∀ tag vs τ, value_has_type (other_sem tag vs τ) τ = true.

Definition args_typed_on (ns : list Node) : Prop :=
  ∀ n, n ∈ ns → op_ n = kParam → value_has_type (args (id_ n)) (type_ n) = true.

Lemma analysis_sound (next : N) (ns : list Node) :
  ∀ (seen : gmap N Ty) (ρ : gmap N Value) (m m' : gmap N (LeafTypeTree NodeSource)),
  env_typed seen ρ → memo_sound seen ρ m → literals_known f seen ρ →
  VerifyNodes next seen ns = true →
  (∀ n, n ∈ ns → GetNode f (id_ n) = Some n) →
  args_typed_on ns →
  VisitNodes f ns m = Ok m' →
  ∃ ρ',
    eval_nodes other_sem args ρ ns = Some ρ' ∧
    env_typed (seen_after ns seen) ρ' ∧ memo_sound (seen_after ns seen) ρ' m' ∧
    literals_known f (seen_after ns seen) ρ' ∧
    (∀ a t, m !! a = Some t → m' !! a = Some t) ∧
    (∀ n, n ∈ ns → is_Some (m' !! id_ n)).
Proof.
  induction ns as [|n ns IH]; intros seen ρ m m' Henv Hmemo Hlit HV Hget Hargs HVis;
    simpl in *.
  - injection HVis as <-. exists ρ. do 4 (split; [done|]).
    split; [done|]. intros n Hn. by apply elem_of_nil in Hn.
  - apply andb_true_iff in HV as [HVn HV].
    apply bind_Ok_inv in HVis as (m1 & Hm1 & HVis).
    destruct (VerifyNode_scoped _ _ _ HVn) as (Hfresh & _ & _).
    destruct (eval_node_typed other_sem args other_sem_typed next seen ρ n Henv HVn)
      as (v & Hev & Hv).
    { apply Hargs. by left. }
    destruct (VisitNode_ok other_sem args f seen ρ m Henv Hmemo Hlit n v m1 Hev Hm1)
      as (t & -> & Hsh & Hleaves).
    destruct (analysis_step other_sem args f seen ρ m n v t) as (Henv1 & Hmemo1 & Hlit1);
      try done.
    { apply Hget. by left. }
    destruct (IH _ _ _ m' Henv1 Hmemo1 Hlit1 HV)
      as (ρ' & Hev' & Henv' & Hmemo' & Hlit' & Hmono & Hdom); try done.
    { intros n' Hn'. apply Hget. by right. }
    { intros n' Hn'. apply Hargs. by right. }
    exists ρ'. rewrite Hev. simpl. do 4 (split; [done|]).
    assert (m !! id_ n = None) as Hmn.
    { destruct (m !! id_ n) as [t'|] eqn:Ht'; [|done].
      destruct (Hmemo _ _ Ht') as (? & ? & ? & _). congruence. }
    split.
    + intros a ta Ha. apply Hmono. rewrite lookup_insert_ne; [done|]. congruence.
    + intros n' [->|Hn']%elem_of_cons; [|by apply Hdom].
      exists t. apply Hmono. apply lookup_insert_eq.
Qed.
End AnalysisRun.

(** ** The graph primitives on a split node list *)

Lemma find_app {A} (P : A → bool) (l1 l2 : list A) :
  List.find P (l1 ++ l2)
  = match List.find P l1 with Some x => Some x | None => List.find P l2 end.
Proof. induction l1 as [|a l1 IH]; simpl; [done|]. by destruct (P a). Qed.

Lemma GetNode_Some (f : FunctionBase) (p : N) (n : Node) :
  GetNode f p = Some n → n ∈ nodes_ f ∧ id_ n = p.
Proof.
  unfold GetNode. intros [Hin Hid]%find_some. split.
  - by apply list_elem_of_In.
  - by apply bool_decide_eq_true_1 in Hid.
Qed.

Lemma GetNode_head (out rest : list Node) (n : Node) (ret next : N) :
  id_ n ∉ map id_ out →
  GetNode (MkFunctionBase (out ++ n :: rest) ret next) (id_ n) = Some n.
Proof.
  intros Hn. unfold GetNode. simpl. rewrite find_app, find_id_None by done.
  simpl. by rewrite bool_decide_eq_true_2.
Qed.

Lemma GetNode_out (out rest : list Node) (n : Node) (ret next : N) :
  NoDup (map id_ out) → n ∈ out →
  GetNode (MkFunctionBase (out ++ rest) ret next) (id_ n) = Some n.
Proof.
  intros Hnd Hn. unfold GetNode. simpl. by rewrite find_app, find_id_NoDup.
Qed.

Lemma insert_before_split (p : N) (new out rest : list Node) (n : Node) :
  id_ n = p → p ∉ map id_ out →
  insert_before p new (out ++ n :: rest) = out ++ new ++ n :: rest.
Proof.
  intros <- Hn. induction out as [|n' out IH]; simpl.
  - by rewrite bool_decide_eq_true_2.
  - rewrite bool_decide_eq_false_2.
    + f_equal. apply IH. intros ?. apply Hn. by right.
    + intros Heq. apply Hn. rewrite <- Heq. by left.
Qed.

Lemma map_replace_operand_id (old new : N) (ns : list Node) :
  (∀ n, n ∈ ns → old ∉ operands_ n) → map (replace_operand old new) ns = ns.
Proof.
  intros H. induction ns as [|n ns IH]; [done|]. simpl. f_equal.
  - rewrite replace_operand_rename. apply rename_id. intros o Ho.
    rewrite bool_decide_eq_false_2; [done|]. intros ->. by apply (H n); [left|].
  - apply IH. intros n' Hn'. apply H. by right.
Qed.

Lemma replace_operand_not_elem (old new : N) (n : Node) :
  new ≠ old → old ∉ operands_ (replace_operand old new n).
Proof.
  intros Hne. simpl. intros (o & Ho & _)%list_elem_of_fmap_1.
  case_bool_decide; congruence.
Qed.

Lemma filter_remove_id (p : N) (ns : list Node) :
  p ∉ map id_ ns →
  List.filter (λ n, negb (bool_decide (id_ n = p))) ns = ns.
Proof.
  induction ns as [|n ns IH]; simpl; intros Hp; [done|].
  rewrite bool_decide_eq_false_2.
  - simpl. f_equal. apply IH. intros ?. apply Hp. by right.
  - intros Heq. apply Hp. rewrite <- Heq. by left.
Qed.

Lemma map_id_replace_operand (old new : N) (ns : list Node) :
  map id_ (map (replace_operand old new) ns) = map id_ ns.
Proof. rewrite map_map. done. Qed.

(** Redirecting the uses of the head of [n :: rest] and detaching it. *)
Lemma replace_and_detach (out rest : list Node) (n : Node) (ret next tgt : N) :
  tgt ≠ id_ n →
  id_ n ∉ map id_ out → id_ n ∉ map id_ rest →
  (∀ n', n' ∈ out → id_ n ∉ operands_ n') →
  DetachIfUnused (id_ n)
    (ReplaceUsesWith (id_ n) tgt (MkFunctionBase (out ++ n :: rest) ret next))
  = MkFunctionBase (out ++ map (replace_operand (id_ n) tgt) rest)
                   (if bool_decide (ret = id_ n) then tgt else ret) next.
Proof.
  intros Htgt Hout Hrest Hops. unfold DetachIfUnused, ReplaceUsesWith. simpl.
  rewrite map_app. simpl. rewrite (map_replace_operand_id _ _ out) by done.
  assert (has_users (id_ n)
            (MkFunctionBase
               (out ++ replace_operand (id_ n) tgt n
                    :: map (replace_operand (id_ n) tgt) rest)
               (if bool_decide (ret = id_ n) then tgt else ret) next) = false) as ->.
  { unfold has_users. simpl. apply orb_false_iff. split.
    - apply not_true_iff_false. intros (n' & Hn' & Hu%bool_decide_eq_true)%existsb_exists.
      apply list_elem_of_In in Hn'. apply elem_of_app in Hn' as [Hn'|Hn'].
      + by apply (Hops n').
      + apply elem_of_cons in Hn' as [->|Hn'].
        * by apply replace_operand_not_elem in Hu.
        * apply list_elem_of_fmap_1 in Hn' as (n'' & -> & _).
          by apply replace_operand_not_elem in Hu.
    - apply bool_decide_eq_false. case_bool_decide; congruence. }
  unfold RemoveNode. simpl. f_equal. rewrite List.filter_app. simpl.
  rewrite bool_decide_eq_true_2 by done. simpl.
  rewrite !filter_remove_id; [done| |done].
  by rewrite map_id_replace_operand.
Qed.

(** ** The rewrite condition *)

Lemma elem_of_iflat_map {A B} (g : Z → A → list B) (l : list A) : ∀ (i : Z) (x : B),
  x ∈ iflat_map g i l ↔ ∃ (k : nat) (a : A), l !! k = Some a ∧ x ∈ g (i + Z.of_nat k) a.
Proof.
  induction l as [|a l IH]; intros i x; simpl.
  - split; [by intros ?%elem_of_nil | by intros (k & a & ? & _)].
  - rewrite elem_of_app, IH. split.
    + intros [Hx|(k & a' & Hk & Hx)].
      * exists 0%nat, a. by rewrite Z.add_0_r.
      * exists (S k), a'. split; [done|].
        by replace (i + Z.of_nat (S k)) with (i + 1 + Z.of_nat k) by lia.
    + intros ([|k] & a' & Hk & Hx); simpl in Hk.
      * injection Hk as <-. left. by rewrite Z.add_0_r in Hx.
      * right. exists k, a'. split; [done|].
        by replace (i + 1 + Z.of_nat k) with (i + Z.of_nat (S k)) by lia.
Qed.

Lemma elem_of_leaves_from {T} (t : LeafTypeTree T) : ∀ (index q : list Z) (x : T),
  (q, x) ∈ leaves_from index t ↔ ∃ p, q = index ++ p ∧ leaf_at p t = Some x.
Proof.
  induction t as [y|cs IH] using LeafTypeTree_ind'; intros index q x; simpl.
  - rewrite list_elem_of_singleton. split.
    + intros [= -> ->]. exists []. by rewrite app_nil_r.
    + intros ([|i p] & -> & Hp); [|done]. injection Hp as ->. by rewrite app_nil_r.
  - rewrite elem_of_iflat_map. split.
    + intros (k & c & Hc & Hx). rewrite Z.add_0_l in Hx.
      apply (Forall_lookup_1 _ _ _ _ IH Hc) in Hx as (p & -> & Hp).
      exists (Z.of_nat k :: p). rewrite <- app_assoc. split; [done|].
      rewrite leaf_at_cons. simpl. by rewrite nth_z_of_nat, Hc.
    + intros ([|i p] & -> & Hp); [done|]. rewrite leaf_at_cons in Hp. simpl in Hp.
      destruct (nth_z cs i) as [c|] eqn:Hc; [|done]. simpl in Hp.
      apply nth_z_Some in Hc as [Hi Hc]. exists (Z.to_nat i), c. split; [done|].
      rewrite Z.add_0_l. apply (Forall_lookup_1 _ _ _ _ IH Hc).
      exists p. rewrite Z2Nat.id by done. by rewrite <- app_assoc.
Qed.

Lemma elem_of_leaves {T} (t : LeafTypeTree T) (p : list Z) (x : T) :
  (p, x) ∈ leaves t ↔ leaf_at p t = Some x.
Proof.
  unfold leaves. rewrite elem_of_leaves_from. split.
  - by intros (p' & -> & ?).
  - intros ?. by exists p.
Qed.

Lemma common_origin_Some (n : N) (t : LeafTypeTree NodeSource) (M : N) (prefix : list Z) :
  common_origin n t = Some (M, prefix) →
  M ≠ n ∧
  (∃ p0, leaf_at p0 t = Some (MkNodeSource M (prefix ++ p0))) ∧
  (∀ p s, leaf_at p t = Some s → s = MkNodeSource M (prefix ++ p)).
Proof.
  unfold common_origin. destruct (leaves t) as [|[p0 s0] ls] eqn:Hls; [done|].
  case_bool_decide as Hn; [done|].
  destruct (strip_suffix p0 (tree_index s0)) as [pre|] eqn:Hpre; [|done].
  cbn [mbind option_bind].
  destruct (forallb _ _) eqn:Hall; [|done]. intros [= <- <-].
  apply forallb_Forall in Hall.
  assert (∀ p s, leaf_at p t = Some s → s = MkNodeSource (node s0) (pre ++ p)) as H.
  { intros p s Hs%elem_of_leaves. rewrite Hls in Hs.
    apply (proj1 (Forall_forall _ _) Hall) in Hs. by apply NodeSource_eq_eq in Hs. }
  split; [done|]. split; [|done].
  exists p0. assert (leaf_at p0 t = Some s0) as Hs0.
  { apply elem_of_leaves. rewrite Hls. by left. }
  by rewrite <- (H p0 s0 Hs0).
Qed.

Lemma common_origin_None_self (n : N) (t : LeafTypeTree NodeSource) (p : list Z)
    (s : NodeSource) :
  leaf_at p t = Some s → node s = n → common_origin n t = None.
Proof.
  intros Hs Hn. destruct (common_origin n t) as [[M prefix]|] eqn:H; [|done].
  apply common_origin_Some in H as (Hne & _ & Hall).
  specialize (Hall p s Hs). subst s. simpl in Hn. congruence.
Qed.

(** ** Index chains *)

Lemma IndexChain_spec (prefix : list Z) : ∀ (cur : N) (τ : Ty) (next : N)
    (chain : list Node) (target : N) (τf : Ty) (next' : N),
  IndexChain cur τ prefix next = Ok (chain, target, τf, next') →
  (next ≤ next')%N ∧
  type_at τ prefix = Some τf ∧
  (target = cur ∨ target ∈ map id_ chain) ∧
  NoDup (map id_ chain) ∧
  (∀ c, c ∈ chain → (next ≤ id_ c < next')%N) ∧
  (∀ c o, c ∈ chain → o ∈ operands_ c → o = cur ∨ o ∈ map id_ chain).
Proof.
  induction prefix as [|i prefix IH]; intros cur τ next chain target τf next' H; simpl in H.
  - injection H as <- <- <- <-. split; [lia|]. split; [done|]. split; [by left|].
    split; [constructor|]. split; [by intros c ?%elem_of_nil | by intros c o ?%elem_of_nil].
  - destruct τ as [w|ts|len e]; [done| |].
    + apply bind_Ok_inv in H as (τ' & Hτ'%ret_check_Ok & H).
      apply bind_Ok_inv in H as ([[[ns tg] τ''] nx] & Hrec & H).
      injection H as <- <- <- <-.
      destruct (IH _ _ _ _ _ _ _ Hrec) as (Hle & Hty & Htg & Hnd & Hids & Hops).
      split; [lia|]. split; [by simpl; rewrite Hτ'|]. split; [|split; [|split]].
      * right. simpl. destruct Htg as [->|?]; [by left | by right].
      * simpl. constructor; [|done]. intros (c & Hc & Hin)%list_elem_of_fmap_1.
        specialize (Hids c Hin). lia.
      * intros c [->|Hc]%elem_of_cons; simpl; [lia|]. specialize (Hids c Hc). lia.
      * intros c o [->|Hc]%elem_of_cons Ho; simpl in *.
        -- apply list_elem_of_singleton in Ho as ->. by left.
        -- right. destruct (Hops c o Hc Ho) as [->|?]; [by left | by right].
    + case_bool_decide as Hi; [|done].
      apply bind_Ok_inv in H as ([[[ns tg] τ''] nx] & Hrec & H).
      injection H as <- <- <- <-.
      destruct (IH _ _ _ _ _ _ _ Hrec) as (Hle & Hty & Htg & Hnd & Hids & Hops).
      split; [lia|]. split; [by simpl; rewrite bool_decide_eq_true_2|].
      split; [|split; [|split]].
      * right. simpl. right. destruct Htg as [->|?]; [by left | by right].
      * simpl. constructor.
        { intros [Heq|(c & Hc & Hin)%list_elem_of_fmap_1]%elem_of_cons; [lia|].
          specialize (Hids c Hin). lia. }
        constructor; [|done]. intros (c & Hc & Hin)%list_elem_of_fmap_1.
        specialize (Hids c Hin). lia.
      * intros c [->|[->|Hc]%elem_of_cons]%elem_of_cons; simpl; [lia|lia|].
        specialize (Hids c Hc). lia.
      * intros c o [->|[->|Hc]%elem_of_cons]%elem_of_cons Ho; simpl in *.
        -- by apply elem_of_nil in Ho.
        -- apply elem_of_cons in Ho as [->|Ho]; [by left|].
           apply list_elem_of_singleton in Ho as ->. right. by left.
        -- right. right. destruct (Hops c o Hc Ho) as [->|?]; [by left | by right].
Qed.

Section IndexChain_eval.
Context (other_sem : string → list Value → Ty → Value).
Context (args : NodePtr → Value).

Lemma IndexChain_eval (prefix : list Z) : ∀ (cur : N) (τ : Ty) (next : N)
    (chain : list Node) (target : N) (τf : Ty) (next' : N) (ρ : gmap N Value) (v : Value),
  IndexChain cur τ prefix next = Ok (chain, target, τf, next') →
  (cur < next)%N →
  ρ !! cur = Some v → value_has_type v τ = true →
  ∃ ρ' u,
    eval_nodes other_sem args ρ chain = Some ρ' ∧
    ρ' !! target = Some u ∧ subvalue prefix v = Some u.
Proof.
  induction prefix as [|i prefix IH]; intros cur τ next chain target τf next' ρ v H Hlt Hρ Hv;
    simpl in H.
  - injection H as <- <- <- <-. by exists ρ, v.
  - destruct τ as [w|ts|len e]; [done| |].
    + apply bind_Ok_inv in H as (τ' & Hτ'%ret_check_Ok & H).
      apply bind_Ok_inv in H as ([[[ns tg] τ''] nx] & Hrec & H).
      injection H as <- <- <- <-.
      destruct (value_has_type_child v (TupleType ts) τ' i Hv Hτ') as (u & Hu & Hut).
      apply value_has_type_tuple in Hv as (vs & -> & _). simpl in Hu.
      destruct (IH _ _ _ _ _ _ _ (<[next := u]> ρ) u Hrec) as (ρ' & u' & Hev & Htg & Hsub);
        [lia | apply lookup_insert_eq | done |].
      exists ρ', u'. simpl. unfold eval_node at 1. simpl. rewrite Hρ, Hu. simpl.
      by rewrite Hev.
    + case_bool_decide as Hi; [|done].
      apply bind_Ok_inv in H as ([[[ns tg] τ''] nx] & Hrec & H).
      injection H as <- <- <- <-.
      destruct (value_has_type_child v (ArrayType len e) e i Hv) as (u & Hu & Hut).
      { simpl. by rewrite bool_decide_eq_true_2. }
      apply value_has_type_array in Hv as (vs & -> & Hlen & _). simpl in Hu.
      destruct (IH _ _ _ _ _ _ _ (<[(next + 1)%N := u]> (<[next := VBits i]> ρ)) u Hrec)
        as (ρ' & u' & Hev & Htg & Hsub); [lia | apply lookup_insert_eq | done |].
      exists ρ', u'. simpl. unfold eval_node at 1. simpl.
      rewrite lookup_insert_ne by lia. rewrite Hρ, lookup_insert_eq.
      assert (clamp_index i vs = i) as -> by (unfold clamp_index; lia).
      rewrite Hu. simpl. by rewrite Hev.
Qed.
End IndexChain_eval.

(** ** One step of the rewrite phase on a split node list *)

Lemma single_ancestor_Ok (f : FunctionBase) (n : Node) (t : LeafTypeTree NodeSource)
    (r : option (Node * list Z)) :
  single_ancestor f n t = Ok r →
  match r with
  | Some (mn, prefix) =>
      common_origin (id_ n) t = Some (id_ mn, prefix) ∧
      GetNode f (id_ mn) = Some mn ∧
      type_at (type_ mn) prefix = Some (type_ n)
  | None =>
      common_origin (id_ n) t = None ∨
      ∃ M prefix mn τ, common_origin (id_ n) t = Some (M, prefix) ∧
                       GetNode f M = Some mn ∧ type_at (type_ mn) prefix = Some τ ∧
                       τ ≠ type_ n
  end.
Proof.
  unfold single_ancestor.
  destruct (common_origin (id_ n) t) as [[M prefix]|] eqn:Hco; [|intros [= <-]; by left].
  destruct (GetNode f M) as [mn|] eqn:HM; [|done]. cbn [ret_check]. rewrite bind_Ok.
  unfold GetType.
  destruct (type_at (type_ mn) prefix) as [τ|] eqn:Hτ; [|done]. cbn [ret_check].
  rewrite bind_Ok.
  pose proof (GetNode_Some _ _ _ HM) as [_ Hid].
  destruct (Ty_eqb τ (type_ n)) eqn:Heq; intros [= <-].
  - apply Ty_eqb_eq in Heq as ->. by rewrite Hid.
  - right. exists M, prefix, mn, τ. do 3 (split; [done|]).
    intros ->. by rewrite Ty_eqb_refl in Heq.
Qed.

Lemma IndexChain_is_Ok (prefix : list Z) : ∀ (cur : N) (τ τ' : Ty) (next : N),
  type_at τ prefix = Some τ' →
  ∃ chain target next', IndexChain cur τ prefix next = Ok (chain, target, τ', next').
Proof.
  induction prefix as [|i prefix IH]; intros cur τ τ' next H; simpl in H.
  - injection H as <-. by eexists _, _, _.
  - destruct (child_type τ i) as [τ1|] eqn:Hc; [|done]. simpl in H.
    destruct τ as [w|ts|len e]; [done| |]; simpl in Hc |- *.
    + rewrite Hc. cbn [ret_check]. rewrite bind_Ok.
      destruct (IH next τ1 τ' (next + 1)%N H) as (chain & target & next' & ->).
      rewrite bind_Ok. by eexists _, _, _.
    + case_bool_decide; [|done]. injection Hc as ->.
      destruct (IH (next + 1)%N τ1 τ' (next + 2)%N H) as (chain & target & next' & ->).
      rewrite bind_Ok. by eexists _, _, _.
Qed.

Lemma RewriteNode_split (m : gmap N (LeafTypeTree NodeSource))
    (out rest : list Node) (n : Node) (ret next : N) (G' : FunctionBase)
    (st : StatusOr bool) :
  let G := MkFunctionBase (out ++ n :: rest) ret next in
  id_ n ∉ map id_ out → id_ n ∉ map id_ rest →
  (∀ n', n' ∈ out → id_ n ∉ operands_ n') →
  (id_ n < next)%N →
  RewriteNode m (id_ n) G = (G', st) →
  (∃ e, st = Err e ∧ G' = G ∧
     (m !! id_ n = None ∨
      ∃ t M prefix, m !! id_ n = Some t ∧ common_origin (id_ n) t = Some (M, prefix) ∧
        ∀ mn, GetNode G M = Some mn → type_at (type_ mn) prefix = None)) ∨
  (st = Ok false ∧ G' = G ∧
   ∃ t, m !! id_ n = Some t ∧
     (single_ancestor G n t = Ok None ∨
      ∃ mn prefix, single_ancestor G n t = Ok (Some (mn, prefix)) ∧
                   is_index_chain G (id_ n) (id_ mn) (rev prefix) = true)) ∨
  (∃ t M prefix mn chain target next',
     st = Ok true ∧ m !! id_ n = Some t ∧
     common_origin (id_ n) t = Some (M, prefix) ∧
     GetNode G M = Some mn ∧
     is_index_chain G (id_ n) M (rev prefix) = false ∧
     IndexChain M (type_ mn) prefix next = Ok (chain, target, type_ n, next') ∧
     G' = MkFunctionBase (out ++ chain ++ map (replace_operand (id_ n) target) rest)
                         (if bool_decide (ret = id_ n) then target else ret) next').
Proof.
  intros G Hout Hrest Hops Hlt. unfold RewriteNode.
  rewrite (GetNode_head out rest n ret next Hout : GetNode G (id_ n) = Some n).
  destruct (m !! id_ n) as [t|] eqn:Ht; [|intros [= <- <-]; left; eauto].
  destruct (single_ancestor G n t) as [[[mn prefix]|]|e] eqn:Hsa.
  2:{ intros [= <- <-]. right. left. do 2 (split; [done|]). exists t. split; [done|].
      by left. }
  2:{ intros [= <- <-]. left. exists e. do 2 (split; [done|]). right.
      unfold single_ancestor in Hsa.
      destruct (common_origin (id_ n) t) as [[M prefix]|] eqn:Hco; [|done].
      exists t, M, prefix. do 2 (split; [done|]). intros mn HM. rewrite HM in Hsa.
      cbn [ret_check] in Hsa. rewrite bind_Ok in Hsa. unfold GetType in Hsa.
      by destruct (type_at (type_ mn) prefix). }
  pose proof (single_ancestor_Ok _ _ _ _ Hsa) as (Hco & HM & Hty).
  destruct (common_origin_Some _ _ _ _ Hco) as (HMn & _ & _).
  destruct (is_index_chain G (id_ n) (id_ mn) (rev prefix)) eqn:Hguard.
  { intros [= <- <-]. right. left. do 2 (split; [done|]). exists t. split; [done|].
    right. eauto. }
  unfold GetType. case_bool_decide as Hpre.
  - subst prefix. simpl in Hty. injection Hty as Hty.
    intros [= <- <-]. right. right. exists t, (id_ mn), [], mn, [], (id_ mn), next.
    do 5 (split; [done|]). split; [by simpl; rewrite Hty|].
    unfold G. by rewrite replace_and_detach.
  - change (next_node_id_ G) with next.
    destruct (IndexChain_is_Ok prefix (id_ mn) _ _ next Hty)
      as (chain & target & next' & Hch). rewrite Hch.
    intros [= <- <-]. right. right.
    destruct (IndexChain_spec _ _ _ _ _ _ _ _ Hch) as (_ & Hτ & Htg & _ & Hids & Hcops).
    exists t, (id_ mn), prefix, mn, chain, target, next'. do 6 (split; [done|]).
    assert (∀ a, a ∈ map id_ chain → a ≠ id_ n) as Hfresh.
    { intros a (c & -> & Hc)%list_elem_of_fmap_1. specialize (Hids c Hc). lia. }
    unfold AddNodesBefore, G. simpl.
    rewrite (insert_before_split (id_ n) chain out rest n) by done.
    rewrite (app_assoc out chain (n :: rest)).
    rewrite replace_and_detach.
    + by rewrite <- app_assoc.
    + destruct Htg as [->|Htg]; [done | by apply Hfresh].
    + rewrite map_app, elem_of_app. intros [?|Hc]; [done|]. by apply (Hfresh (id_ n)).
    + done.
    + intros n' [?|Hc]%elem_of_app; [by apply Hops|]. intros Hn'.
      destruct (Hcops n' _ Hc Hn') as [?|Hin]; [congruence|]. by apply (Hfresh (id_ n)).
Qed.

Lemma NoDup_id_inj (ns : list Node) (n n' : Node) :
  NoDup (map id_ ns) → n ∈ ns → n' ∈ ns → id_ n = id_ n' → n = n'.
Proof.
  intros Hnd Hn Hn' Heq. pose proof (find_id_NoDup ns n Hnd Hn) as H1.
  pose proof (find_id_NoDup ns n' Hnd Hn') as H2. rewrite Heq in H1. congruence.
Qed.

Lemma VerifyNodes_operands_before (next : N) (pre post : list Node) (n : Node) :
  ∀ seen : gmap N Ty,
  VerifyNodes next seen (pre ++ n :: post) = true →
  ∀ o, o ∈ operands_ n → is_Some (seen !! o) ∨ o ∈ map id_ pre.
Proof.
  induction pre as [|n1 pre IH]; intros seen; simpl.
  - intros [(_ & _ & H)%VerifyNode_scoped _]%andb_true_iff o Ho. left. by apply H.
  - intros [_ HV]%andb_true_iff o Ho. destruct (IH _ HV o Ho) as [Hs|?].
    + destruct (decide (o = id_ n1)) as [->|Hne]; [right; by left|].
      rewrite lookup_insert_ne in Hs by done. by left.
    + right. by right.
Qed.

(** ** Facts about a verified function and its analysis *)

Section Verified.
Context (other_sem : string → list Value → Ty → Value).
Context (args : NodePtr → Value).
Context (f0 : FunctionBase).
Context (m : gmap N (LeafTypeTree NodeSource)).
Hypothesis other_sem_typed :
  ∀ tag vs τ, value_has_type (other_sem tag vs τ) τ = true.
Hypothesis HV : VerifyFunction f0 = true.
Hypothesis Hargs : args_typed args f0 = true.
Hypothesis HAcc : Accept f0 = Ok m.

Lemma verified_nodes : VerifyNodes (next_node_id_ f0) ∅ (nodes_ f0) = true.
Proof. unfold VerifyFunction in HV. by apply andb_true_iff in HV as [? _]. Qed.

Lemma verified_NoDup : NoDup (map id_ (nodes_ f0)).
Proof. by destruct (VerifyNodes_fresh _ _ _ verified_nodes). Qed.

Lemma verified_id_lt (n : Node) : n ∈ nodes_ f0 → (id_ n < next_node_id_ f0)%N.
Proof.
  intros Hn. destruct (VerifyNodes_fresh _ _ _ verified_nodes) as [_ H].
  by destruct (H n Hn).
Qed.

Lemma verified_return : return_value_ f0 ∈ map id_ (nodes_ f0).
Proof.
  unfold VerifyFunction in HV. by apply andb_true_iff in HV as [_ ?%bool_decide_eq_true].
Qed.

Lemma verified_GetNode (n : Node) : n ∈ nodes_ f0 → GetNode f0 (id_ n) = Some n.
Proof. intros Hn. unfold GetNode. apply find_id_NoDup; [apply verified_NoDup | done]. Qed.

Lemma verified_operands_before (pre post : list Node) (n : Node) (o : N) :
  nodes_ f0 = pre ++ n :: post → o ∈ operands_ n → o ∈ map id_ pre.
Proof.
  intros Hsplit Ho. pose proof verified_nodes as H. rewrite Hsplit in H.
  destruct (VerifyNodes_operands_before _ _ _ _ _ H o Ho) as [[? Hs]|?]; [|done].
  by rewrite lookup_empty in Hs.
Qed.

Lemma verified_args (ns : list Node) :
  ns ⊆ nodes_ f0 → args_typed_on args ns.
Proof.
  intros Hsub n Hn Hop. unfold args_typed in Hargs. apply forallb_Forall in Hargs.
  pose proof (proj1 (Forall_forall _ _) Hargs n (Hsub n Hn)) as H. simpl in H.
  by rewrite Hop in H.
Qed.

Lemma env_typed_empty : env_typed ∅ ∅.
Proof. intros a. by rewrite !lookup_empty. Qed.

Lemma memo_sound_empty : memo_sound ∅ ∅ ∅.
Proof. intros a t Ha. by rewrite lookup_empty in Ha. Qed.

Lemma literals_known_empty : literals_known f0 ∅ ∅.
Proof. intros a k _ [? Ha]. by rewrite lookup_empty in Ha. Qed.

(** What the analysis says about a source found in the container of a
    node: it names a leaf of a node at or before that node, which describes
    itself and holds the same value. *)
Definition source_fact (ρ0 : gmap N Value) (before : list Node) (v : Value)
    (p : list Z) (s : NodeSource) : Prop :=
  ∃ nM vM tM u,
    nM ∈ before ∧ id_ nM = node s ∧
    ρ0 !! node s = Some vM ∧ value_has_type vM (type_ nM) = true ∧
    m !! node s = Some tM ∧ leaf_at (tree_index s) tM = Some s ∧
    subvalue p v = Some u ∧ subvalue (tree_index s) vM = Some u.

(** The value and the container of each node of a verified graph are as the
    analysis invariant says. *)
Lemma node_facts (ρ0 : gmap N Value) (pre post : list Node) (n : Node) :
  eval_nodes other_sem args ∅ (nodes_ f0) = Some ρ0 →
  nodes_ f0 = pre ++ n :: post →
  ∃ v t,
    ρ0 !! id_ n = Some v ∧ value_has_type v (type_ n) = true ∧
    m !! id_ n = Some t ∧ has_shape (type_ n) t = true ∧
    ∀ p s, leaf_at p t = Some s → source_fact ρ0 (pre ++ [n]) v p s.
Proof.
  intros Hev0 Hsplit.
  assert (nodes_ f0 = (pre ++ [n]) ++ post) as Hsplit' by (by rewrite <- app_assoc).
  pose proof verified_nodes as HVn. pose proof verified_NoDup as Hnd.
  unfold Accept in HAcc. rewrite Hsplit' in HVn, HAcc, Hev0, Hnd.
  apply VerifyNodes_app in HVn as [HV1 HV2].
  rewrite VisitNodes_app in HAcc. apply bind_Ok_inv in HAcc as (m1 & Hm1 & Hm).
  destruct (analysis_sound other_sem args f0 other_sem_typed (next_node_id_ f0)
              (pre ++ [n]) ∅ ∅ ∅ m1 env_typed_empty memo_sound_empty literals_known_empty
              HV1)
    as (ρ1 & Hev1 & Henv1 & Hmemo1 & Hlit1 & _ & Hdom1); [| |done|].
  { intros n' Hn'. apply verified_GetNode. rewrite Hsplit'. apply elem_of_app. by left. }
  { apply verified_args. intros n' Hn'. rewrite Hsplit'. apply elem_of_app. by left. }
  rewrite eval_nodes_app, Hev1 in Hev0. simpl in Hev0.
  assert (∀ a va, ρ1 !! a = Some va → ρ0 !! a = Some va) as Hρ.
  { intros a va Ha. rewrite <- Ha.
    apply (eval_nodes_lookup_other other_sem args post ρ1 ρ0 a Hev0).
    assert (is_Some (ρ1 !! a)) as Hs by (by eexists).
    apply (eval_nodes_dom _ _ _ _ _ a Hev1) in Hs as [[? Hs]|Hs];
      [by rewrite lookup_empty in Hs|].
    rewrite map_app in Hnd. apply NoDup_app in Hnd as (_ & Hdisj & _). by apply Hdisj. }
  destruct (analysis_sound other_sem args f0 other_sem_typed (next_node_id_ f0)
              post _ ρ1 m1 m Henv1 Hmemo1 Hlit1 HV2)
    as (_ & _ & _ & _ & _ & Hmono & _); [| |done|].
  { intros n' Hn'. apply verified_GetNode. rewrite Hsplit'. apply elem_of_app. by right. }
  { apply verified_args. intros n' Hn'. rewrite Hsplit'. apply elem_of_app. by right. }
  assert (∀ a τ, seen_after (pre ++ [n]) ∅ !! a = Some τ →
            ∃ n', n' ∈ pre ++ [n] ∧ id_ n' = a ∧ type_ n' = τ) as Hseen.
  { intros a τ [Ha|?]%seen_after_lookup; [by rewrite lookup_empty in Ha | done]. }
  assert (n ∈ pre ++ [n]) as Hn by (apply elem_of_app; right; by left).
  destruct (Hdom1 n Hn) as [t Ht].
  destruct (Hmemo1 _ _ Ht) as (τ & v & Hτ & Hv & Hsh & Hsrc).
  destruct (env_typed_lookup _ _ _ _ Henv1 Hτ) as (v' & Hv' & Hvτ).
  assert (v' = v) as -> by congruence.
  destruct (Hseen _ _ Hτ) as (n' & Hn' & Hid & <-).
  assert (n' = n) as ->.
  { rewrite map_app in Hnd. apply NoDup_app in Hnd as (Hnd1 & _ & _).
    by apply (NoDup_id_inj (pre ++ [n])). }
  exists v, t. split; [by apply Hρ|]. split; [done|]. split; [by apply Hmono|].
  split; [done|]. intros p s Hs.
  destruct (Hsrc p s Hs) as (vM & tM & u & HvM & HtM & Hself & Hu & HuM).
  destruct (Hmemo1 _ _ HtM) as (τM & vM' & HτM & HvM' & _ & _).
  destruct (env_typed_lookup _ _ _ _ Henv1 HτM) as (vM'' & HvM'' & HvMτ).
  assert (vM'' = vM) as -> by congruence.
  destruct (Hseen _ _ HτM) as (nM & HnM & HidM & <-).
  exists nM, vM, tM, u. split; [done|]. split; [done|]. split; [by apply Hρ|].
  split; [done|]. split; [by apply Hmono|]. done.
Qed.
End Verified.

Lemma VisitNode_inserts (f : FunctionBase) (n : Node)
    (m m' : gmap N (LeafTypeTree NodeSource)) :
  VisitNode f n m = Ok m' → ∃ t, m' = <[id_ n := t]> m.
Proof.
  assert (DefaultHandler n m = Ok m' → ∃ t, m' = <[id_ n := t]> m) as Hdef.
  { destruct (DefaultHandler_Ok n m) as (t & -> & _). intros [= <-]. eauto. }
  unfold VisitNode, HandleIdentity, HandleAggregate, HandleTupleIndex, HandleArrayIndex,
    HandleArrayUpdate, HandleSelect.
  intros H. destruct (op_ n); try (by apply Hdef);
    repeat (match type of H with
            | (_ ≫= _) = Ok _ => apply bind_Ok_inv in H as (? & _ & H)
            | SetValue _ _ _ = Ok _ => apply SetValue_Ok in H as [_ ->]
            | match ?x with _ => _ end = Ok _ => destruct x eqn:?; try discriminate H
            end); eauto.
Qed.

Lemma VisitNodes_complete (f : FunctionBase) (ns : list Node) :
  ∀ m m' : gmap N (LeafTypeTree NodeSource),
  VisitNodes f ns m = Ok m' →
  (∀ a, is_Some (m !! a) → is_Some (m' !! a)) ∧
  (∀ n, n ∈ ns → is_Some (m' !! id_ n)).
Proof.
  induction ns as [|n ns IH]; intros m m' H; simpl in H.
  - injection H as <-. split; [done|]. by intros n ?%elem_of_nil.
  - apply bind_Ok_inv in H as (m1 & [t ->]%VisitNode_inserts & H).
    destruct (IH _ _ H) as [Hmono Hdom]. split.
    + intros a Ha. apply Hmono. destruct (decide (a = id_ n)) as [->|Hne].
      * rewrite lookup_insert_eq. by eexists.
      * by rewrite lookup_insert_ne.
    + intros n' [->|Hn']%elem_of_cons; [|by apply Hdom].
      apply Hmono. rewrite lookup_insert_eq. by eexists.
Qed.

Lemma VisitNode_default (f : FunctionBase) (n : Node)
    (m : gmap N (LeafTypeTree NodeSource)) :
  is_default_op (op_ n) = true → VisitNode f n m = DefaultHandler n m.
Proof. unfold VisitNode. by destruct (op_ n). Qed.

Lemma VisitNodes_cons (f : FunctionBase) (n : Node) (ns : list Node)
    (m : gmap N (LeafTypeTree NodeSource)) :
  VisitNodes f (n :: ns) m = VisitNode f n m ≫= VisitNodes f ns.
Proof. done. Qed.

Lemma GetNode_elem (f : FunctionBase) (p : N) :
  p ∈ map id_ (nodes_ f) → is_Some (GetNode f p).
Proof.
  unfold GetNode. induction (nodes_ f) as [|n ns IH]; simpl.
  - by intros ?%elem_of_nil.
  - case_bool_decide as Heq; [by eexists|].
    intros [?|?]%elem_of_cons; [congruence | by apply IH].
Qed.

Lemma self_describing_no_ancestor (n : Node) (t : LeafTypeTree NodeSource) :
  self_describing n t → common_origin (id_ n) t = None.
Proof.
  intros (_ & _ & Hall). destruct (common_origin (id_ n) t) as [[M prefix]|] eqn:H; [|done].
  apply common_origin_Some in H as (Hne & (p0 & Hp0) & _).
  specialize (Hall _ _ Hp0). injection Hall as ->. done.
Qed.

(** ** The analysis of a rewritten graph *)

(** Two containers of one shape with the same leaves are the same. *)
Lemma tree_ext {T} (τ : Ty) : ∀ t t' : LeafTypeTree T,
  has_shape τ t = true → has_shape τ t' = true →
  (∀ p, is_leaf_path τ p → leaf_at p t = leaf_at p t') →
  t = t'.
Proof.
  induction τ as [w|ts IH|n e IH] using Ty_ind'; intros [x|cs] [x'|cs']; simpl; try done.
  - intros _ _ H. specialize (H [] ltac:(by eexists)). unfold leaf_at in H. simpl in H.
    congruence.
  - intros HF%forall2b_Forall2 HF'%forall2b_Forall2 H. f_equal.
    apply list_eq_same_length with (length ts);
      [symmetry; by eapply Forall2_length | symmetry; by eapply Forall2_length |].
    intros k c c' Hk Hc Hc'.
    destruct (lookup_lt_is_Some_2 ts k) as [τ Hτ]; [done|].
    apply (Forall_lookup_1 _ _ _ _ IH Hτ).
    + by eapply (Forall2_lookup_lr _ _ _ _ _ _ HF).
    + by eapply (Forall2_lookup_lr _ _ _ _ _ _ HF').
    + intros p [w Hp]. specialize (H (Z.of_nat k :: p)).
      rewrite !leaf_at_cons in H. simpl in H. rewrite !nth_z_of_nat, Hc, Hc' in H.
      apply H. exists w. simpl. by rewrite nth_z_of_nat, Hτ.
  - intros [Hlen%Nat.eqb_eq HF%forallb_Forall]%andb_true_iff
           [Hlen'%Nat.eqb_eq HF'%forallb_Forall]%andb_true_iff H. f_equal.
    apply list_eq_same_length with n; [done | done |].
    intros k c c' Hk Hc Hc'. apply IH.
    + by eapply (Forall_lookup_1 _ _ _ _ HF).
    + by eapply (Forall_lookup_1 _ _ _ _ HF').
    + intros p [w Hp]. specialize (H (Z.of_nat k :: p)).
      rewrite !leaf_at_cons in H. simpl in H. rewrite !nth_z_of_nat, Hc, Hc' in H.
      apply H. exists w. simpl. rewrite bool_decide_eq_true_2 by lia. done.
Qed.

Lemma leaf_at_subtree {T} (p q : list Z) (t t' : LeafTypeTree T) :
  subtree p t = Some t' → leaf_at (p ++ q) t = leaf_at q t'.
Proof. intros H. unfold leaf_at. by rewrite subtree_app, H. Qed.

(** What the analysis reads of the graph is the kind of index operands. *)
Lemma VisitNode_ext (f f' : FunctionBase) (n : Node)
    (m : gmap N (LeafTypeTree NodeSource)) :
  (∀ a, a ∈ operands_ n → GetNode f a = GetNode f' a) →
  VisitNode f n m = VisitNode f' n m.
Proof.
  intros H. unfold VisitNode. destruct (op_ n); try done.
  - unfold HandleArrayIndex. destruct (operands_ n) as [|a [|idx [|]]]; try done.
    unfold literal_index. rewrite (H idx); [done|]. right. left.
  - unfold HandleArrayUpdate. destruct (operands_ n) as [|a [|v [|idx [|]]]]; try done.
    unfold literal_index. rewrite (H idx); [done|]. right. right. left.
Qed.

Lemma VisitNodes_ext (f f' : FunctionBase) (ns : list Node) :
  ∀ m : gmap N (LeafTypeTree NodeSource),
  (∀ n a, n ∈ ns → a ∈ operands_ n → GetNode f a = GetNode f' a) →
  VisitNodes f ns m = VisitNodes f' ns m.
Proof.
  induction ns as [|n ns IH]; intros m H; simpl; [done|].
  rewrite (VisitNode_ext f f' n m) by (intros a Ha; apply (H n a); [left | done]).
  destruct (VisitNode f' n m) as [m1|]; [|done]. rewrite !bind_Ok. apply IH.
  intros n' a Hn'. apply H. by right.
Qed.

Lemma VisitNodes_frame (f : FunctionBase) (ns : list Node) :
  ∀ (m m' : gmap N (LeafTypeTree NodeSource)) (a : N),
  VisitNodes f ns m = Ok m' → a ∉ map id_ ns → m' !! a = m !! a.
Proof.
  induction ns as [|n ns IH]; intros m m' a H Ha; simpl in H.
  - by injection H as <-.
  - apply bind_Ok_inv in H as (m1 & [t ->]%VisitNode_inserts & H).
    rewrite (IH _ _ a H) by (intros ?; apply Ha; by right).
    apply lookup_insert_ne. intros Heq. apply Ha. rewrite <- Heq. by left.
Qed.

Lemma SetValue_transport (σ : N → N) (n : Node) (t t' : LeafTypeTree NodeSource)
    (m1 m2 : gmap N (LeafTypeTree NodeSource)) :
  SetValue n t' m1 = Ok (<[id_ n := t]> m1) →
  SetValue (rename σ n) t' m2 = Ok (<[id_ n := t]> m2).
Proof.
  intros [Hsh Heq]%SetValue_Ok.
  assert (t' = t) as ->.
  { apply (f_equal (λ m, m !! id_ n)) in Heq. rewrite !lookup_insert_eq in Heq.
    congruence. }
  unfold SetValue, GetType. simpl. by rewrite Hsh.
Qed.

Lemma DefaultHandler_transport (σ : N → N) (n : Node) (t : LeafTypeTree NodeSource)
    (m1 m2 : gmap N (LeafTypeTree NodeSource)) :
  DefaultHandler n m1 = Ok (<[id_ n := t]> m1) →
  DefaultHandler (rename σ n) m2 = Ok (<[id_ n := t]> m2).
Proof.
  unfold DefaultHandler. change (GetType (rename σ n)) with (GetType n).
  change (id_ (rename σ n)) with (id_ n).
  destruct (ForEachIndex _ _ _) as [r|]; [|done]. rewrite !bind_Ok.
  apply SetValue_transport.
Qed.

(** The analysis of a node whose operands are redirected to nodes with the
    same containers, index operands keeping their kind, gives the same
    container. *)
Lemma VisitNode_rename (f f' : FunctionBase) (σ : N → N) (n : Node)
    (m1 m2 : gmap N (LeafTypeTree NodeSource)) (t : LeafTypeTree NodeSource) :
  (∀ a, a ∈ operands_ n → m2 !! σ a = m1 !! a) →
  (∀ idx, index_operand n = Some idx →
     literal_index f' (σ idx) = literal_index f idx) →
  VisitNode f n m1 = Ok (<[id_ n := t]> m1) →
  VisitNode f' (rename σ n) m2 = Ok (<[id_ n := t]> m2).
Proof.
  intros Hm Hlit. unfold VisitNode. change (op_ (rename σ n)) with (op_ n).
  unfold index_operand in Hlit.
  destruct (op_ n) eqn:Hop; try apply DefaultHandler_transport.
  - (* identity *)
    unfold HandleIdentity, GetValue. simpl operands_.
    destruct (operands_ n) as [|a [|]]; try done. simpl map. cbv beta iota.
    rewrite (Hm a) by left. destruct (m1 !! a); [|done]. cbn [ret_check].
    rewrite !bind_Ok. apply SetValue_transport.
  - (* tuple *)
    unfold HandleAggregate. simpl operands_.
    rewrite (mapM_lookup_rename m2 m1 σ (operands_ n) Hm).
    destruct (mapM _ _); [|done]. cbn [ret_check]. rewrite !bind_Ok.
    apply SetValue_transport.
  - (* tuple index *)
    unfold HandleTupleIndex, GetValue. simpl operands_.
    destruct (operands_ n) as [|a [|]]; try done. simpl map. cbv beta iota.
    rewrite (Hm a) by left. destruct (m1 !! a) as [ta|]; [|done]. cbn [ret_check].
    rewrite !bind_Ok. destruct (subtree [index] ta); [|done]. cbn [ret_check].
    rewrite !bind_Ok. apply SetValue_transport.
  - (* array *)
    unfold HandleAggregate. simpl operands_.
    rewrite (mapM_lookup_rename m2 m1 σ (operands_ n) Hm).
    destruct (mapM _ _); [|done]. cbn [ret_check]. rewrite !bind_Ok.
    apply SetValue_transport.
  - (* array index *)
    unfold HandleArrayIndex, GetValue. simpl operands_.
    destruct (operands_ n) as [|a [|idx [|]]]; try done. simpl map. cbv beta iota.
    rewrite (Hm a) by left. rewrite (Hm idx) by (right; left).
    rewrite (Hlit idx eq_refl).
    destruct (m1 !! a) as [ta|]; [|done]. cbn [ret_check]. rewrite !bind_Ok.
    destruct (m1 !! idx) as [ti|]; [|done]. cbn [ret_check]. rewrite !bind_Ok.
    change (GetType (rename σ n)) with (GetType n).
    change (id_ (rename σ n)) with (id_ n).
    destruct ta as [|cs]; [done|].
    destruct (literal_index f idx) as [k|].
    + destruct (in_range k cs).
      * destruct (subtree [k] (Branch cs)); [|done]. cbn [ret_check].
        rewrite !bind_Ok. apply SetValue_transport.
      * destruct (Join _ _ _ _ _); [|done]. rewrite !bind_Ok. apply SetValue_transport.
    + destruct (Join _ _ _ _ _); [|done]. rewrite !bind_Ok. apply SetValue_transport.
  - (* array update *)
    unfold HandleArrayUpdate, GetValue. simpl operands_.
    destruct (operands_ n) as [|a [|v [|idx [|]]]]; try done. simpl map. cbv beta iota.
    rewrite (Hm a) by left. rewrite (Hm v) by (right; left).
    rewrite (Hm idx) by (right; right; left). rewrite (Hlit idx eq_refl).
    destruct (m1 !! a) as [ta|]; [|done]. cbn [ret_check]. rewrite !bind_Ok.
    destruct (m1 !! v) as [tv|]; [|done]. cbn [ret_check]. rewrite !bind_Ok.
    destruct (m1 !! idx) as [ti|]; [|done]. cbn [ret_check]. rewrite !bind_Ok.
    change (GetType (rename σ n)) with (GetType n).
    change (id_ (rename σ n)) with (id_ n).
    destruct ta as [|cs]; [done|]. destruct (GetType n) as [|?|len e]; try done.
    destruct (literal_index f idx) as [k|].
    + destruct (in_range k cs); [|done]. apply SetValue_transport.
    + destruct (imapM _ _ _); [|done]. rewrite !bind_Ok. apply SetValue_transport.
  - (* select *)
    unfold HandleSelect, GetValue. simpl operands_.
    destruct (operands_ n) as [|sel cases]; try done. simpl map. cbv beta iota.
    rewrite (Hm sel) by left.
    rewrite (mapM_lookup_rename m2 m1 σ cases) by (intros o Ho; apply Hm; by right).
    destruct (m1 !! sel) as [ts|]; [|done]. cbn [ret_check]. rewrite !bind_Ok.
    destruct (mapM _ _); [|done]. cbn [ret_check]. rewrite !bind_Ok.
    change (GetType (rename σ n)) with (GetType n).
    change (id_ (rename σ n)) with (id_ n).
    destruct (Join _ _ _ _ _); [|done]. rewrite !bind_Ok. apply SetValue_transport.
Qed.

Lemma chain_in_mono (ns ns' : list Node) (rprefix : list Z) : ∀ p M : N,
  (∀ n, n ∈ ns → n ∈ ns') → chain_in ns p M rprefix → chain_in ns' p M rprefix.
Proof.
  induction rprefix as [|i rest IH]; intros p M Hsub; simpl; [done|].
  intros (n & Hn & Hid & [(Hop & a & Ha & Hc)|(Hop & a & idx & l & Ha & Hl & Hlid & Hlop & Hc)]).
  - exists n. do 2 (split; [by auto|]). left. split; [done|]. exists a. split; [done|].
    by apply IH.
  - exists n. do 2 (split; [by auto|]). right. split; [done|]. exists a, idx, l.
    do 4 (split; [by auto|]). by apply IH.
Qed.

Lemma chain_in_sound (F : FunctionBase) (ns : list Node) (rprefix : list Z) : ∀ p M : N,
  NoDup (map id_ (nodes_ F)) → (∀ n, n ∈ ns → n ∈ nodes_ F) →
  chain_in ns p M rprefix → is_index_chain F p M rprefix = true.
Proof.
  induction rprefix as [|i rest IH]; intros p M Hnd Hsub; simpl.
  - intros ->. by apply bool_decide_eq_true.
  - assert (∀ n, n ∈ ns → GetNode F (id_ n) = Some n) as Hget.
    { intros n Hn. unfold GetNode. apply find_id_NoDup; [done | by apply Hsub]. }
    intros (n & Hn & <- & [(Hop & a & Ha & Hc)|(Hop & a & idx & l & Ha & Hl & <- & Hlop & Hc)]);
      rewrite (Hget n Hn), Hop, Ha.
    + rewrite bool_decide_eq_true_2 by done. by apply IH.
    + unfold literal_index. rewrite (Hget l Hl). simpl. rewrite Hlop.
      rewrite bool_decide_eq_true_2 by done. by apply IH.
Qed.

Lemma GetNode_prefix (pre rest : list Node) (ret next a : N) (x : Node) :
  a ∈ map id_ pre →
  GetNode (MkFunctionBase (pre ++ rest) ret next) a = Some x → x ∈ pre ∧ id_ x = a.
Proof.
  intros Ha. unfold GetNode. simpl. rewrite find_app.
  destruct (List.find _ pre) as [y|] eqn:Hy.
  - intros [= <-]. apply find_some in Hy as [Hin Hid]. split.
    + by apply list_elem_of_In.
    + by apply bool_decide_eq_true_1 in Hid.
  - exfalso. apply list_elem_of_fmap_1 in Ha as (y & -> & Hyin).
    apply list_elem_of_In in Hyin.
    pose proof (find_none _ _ Hy y Hyin) as Hf. simpl in Hf.
    by rewrite bool_decide_eq_true_2 in Hf.
Qed.

Lemma is_index_chain_chain_in (pre rest : list Node) (ret next : N) (rprefix : list Z) :
  ∀ p M : N,
  (∀ n a, n ∈ pre → a ∈ operands_ n → a ∈ map id_ pre) →
  p ∈ map id_ pre →
  is_index_chain (MkFunctionBase (pre ++ rest) ret next) p M rprefix = true →
  chain_in pre p M rprefix.
Proof.
  induction rprefix as [|i rp IH]; intros p M Hscope Hp; simpl.
  - by intros ?%bool_decide_eq_true.
  - destruct (GetNode _ p) as [n|] eqn:Hn; [|done].
    apply GetNode_prefix in Hn as [Hnin Hnid]; [|done].
    destruct (op_ n) eqn:Hop; try done.
    + destruct (operands_ n) as [|a [|]] eqn:Hops; try done.
      intros [->%bool_decide_eq_true Hc]%andb_true_iff.
      exists n. do 2 (split; [done|]). left. split; [done|]. exists a. split; [done|].
      apply IH; [done| |done]. apply (Hscope n a Hnin). rewrite Hops. left.
    + destruct (operands_ n) as [|a [|idx [|]]] eqn:Hops; try done.
      intros [Hl%bool_decide_eq_true Hc]%andb_true_iff.
      unfold literal_index in Hl.
      destruct (GetNode _ idx) as [l|] eqn:Hlget; [|done]. simpl in Hl.
      apply GetNode_prefix in Hlget as [Hlin Hlid].
      2:{ apply (Hscope n idx Hnin). rewrite Hops. right. left. }
      exists n. do 2 (split; [done|]). right. split; [done|]. exists a, idx, l.
      do 3 (split; [done|]). split.
      * destruct (op_ l) as [|[z| |]| | | | | | | |]; try done. by injection Hl as ->.
      * apply IH; [done| |done]. apply (Hscope n a Hnin). rewrite Hops. left.
Qed.

Lemma settled_mono (ns ns' : list Node) (mo mo' : gmap N (LeafTypeTree NodeSource))
    (n : Node) :
  (∀ x, x ∈ ns → x ∈ ns') → (∀ a t, mo !! a = Some t → mo' !! a = Some t) →
  settled ns mo n → settled ns' mo' n.
Proof.
  intros Hsub Hmo (t & Ht & H). exists t. split; [by apply Hmo|].
  destruct H as [?|(M & prefix & mn & τ & Hco & Hmn & Hid & Hτ & H)]; [by left|].
  right. exists M, prefix, mn, τ. do 4 (split; [by auto|]).
  destruct H as [?|?]; [by left|]. right. by eapply chain_in_mono.
Qed.

Lemma settled_sound (F : FunctionBase) (mo : gmap N (LeafTypeTree NodeSource)) (n : Node) :
  NoDup (map id_ (nodes_ F)) → n ∈ nodes_ F → settled (nodes_ F) mo n →
  RewriteNode mo (id_ n) F = (F, Ok false).
Proof.
  intros Hnd Hn (t & Ht & H).
  assert (∀ x, x ∈ nodes_ F → GetNode F (id_ x) = Some x) as Hget.
  { intros x Hx. unfold GetNode. by apply find_id_NoDup. }
  unfold RewriteNode. rewrite (Hget n Hn), Ht. unfold single_ancestor.
  destruct H as [->|(M & prefix & mn & τ & -> & Hmn & <- & Hτ & H)]; [done|].
  rewrite (Hget mn Hmn). cbn [ret_check]. rewrite bind_Ok. unfold GetType. rewrite Hτ.
  cbn [ret_check]. rewrite bind_Ok.
  destruct (Ty_eqb τ (type_ n)) eqn:Heq; [|done].
  apply Ty_eqb_eq in Heq. destruct H as [?|Hc]; [done|].
  by rewrite (chain_in_sound F (nodes_ F) _ _ _ Hnd (λ _ H, H) Hc).
Qed.

Lemma analysis_split (f : FunctionBase) (m : gmap N (LeafTypeTree NodeSource))
    (pre post : list Node) (n : Node) :
  NoDup (map id_ (nodes_ f)) → Accept f = Ok m → nodes_ f = pre ++ n :: post →
  ∃ m1 t, VisitNodes f pre ∅ = Ok m1 ∧ VisitNode f n m1 = Ok (<[id_ n := t]> m1) ∧
          m !! id_ n = Some t ∧ ∀ a, a ∈ map id_ pre → m1 !! a = m !! a.
Proof.
  intros Hnd HAcc Hsplit. unfold Accept in HAcc. rewrite Hsplit in HAcc, Hnd.
  rewrite VisitNodes_app in HAcc. apply bind_Ok_inv in HAcc as (m1 & Hm1 & H).
  simpl in H. apply bind_Ok_inv in H as (m2 & Hm2 & H).
  destruct (VisitNode_inserts _ _ _ _ Hm2) as [t ->].
  rewrite map_app in Hnd. simpl in Hnd.
  apply NoDup_app in Hnd as (_ & Hdisj & [Hnpost _]%NoDup_cons).
  exists m1, t. do 2 (split; [done|]). split.
  - rewrite (VisitNodes_frame _ _ _ _ _ H Hnpost). apply lookup_insert_eq.
  - intros a Ha. rewrite (VisitNodes_frame _ _ _ _ a H).
    + rewrite lookup_insert_ne; [done|]. intros <-. apply (Hdisj _ Ha). left.
    + intros Hp. apply (Hdisj _ Ha). by right.
Qed.

Lemma has_shape_child_Some {T} (τ τ' : Ty) (t : LeafTypeTree T) (i : Z) :
  has_shape τ t = true → child_type τ i = Some τ' →
  ∃ c, subtree [i] t = Some c ∧ has_shape τ' c = true.
Proof.
  intros Hsh Hτ. pose proof (has_shape_child τ t i Hsh) as H. rewrite Hτ in H.
  rewrite subtree_cons. destruct (child t i) as [c|]; [|done]. by exists c.
Qed.

(** The analysis of a freshly inserted index chain: every index node gets
    the subtree of the container of the base that its path selects. *)
Lemma IndexChain_analysis (G : FunctionBase) (ns : list Node) (M : N)
    (tM : LeafTypeTree NodeSource) (τM : Ty) (prefix : list Z) :
  ∀ (cur : N) (τ : Ty) (next : N) (chain : list Node) (target : N) (τf : Ty) (next' : N)
    (acc : list Z) (tcur : LeafTypeTree NodeSource) (mo : gmap N (LeafTypeTree NodeSource)),
  IndexChain cur τ prefix next = Ok (chain, target, τf, next') →
  (∀ c, c ∈ chain → c ∈ ns ∧ GetNode G (id_ c) = Some c) →
  (cur < next)%N →
  mo !! cur = Some tcur → has_shape τ tcur = true →
  subtree (rev acc) tM = Some tcur → type_at τM (rev acc) = Some τ →
  chain_in ns cur M acc →
  ∃ mo' tt,
    VisitNodes G chain mo = Ok mo' ∧
    (∀ a, (a < next)%N → mo' !! a = mo !! a) ∧
    subtree (rev acc ++ prefix) tM = Some tt ∧ mo' !! target = Some tt ∧
    (prefix ≠ [] → ∃ c, c ∈ chain ∧ id_ c = target ∧ is_default_op (op_ c) = false) ∧
    ∀ c, c ∈ chain →
      (∃ tc, is_default_op (op_ c) = true ∧ mo' !! id_ c = Some tc ∧
             self_describing c tc) ∨
      (∃ q r tc, q ≠ [] ∧ prefix = q ++ r ∧ mo' !! id_ c = Some tc ∧
                 subtree (rev acc ++ q) tM = Some tc ∧
                 type_at τM (rev acc ++ q) = Some (type_ c) ∧
                 chain_in ns (id_ c) M (rev q ++ acc)).
Proof.
  induction prefix as [|i prefix IH];
    intros cur τ next chain target τf next' acc tcur mo H Hns Hlt Hcur Hsh Hsub Hty Hc;
    simpl in H.
  - injection H as <- <- <- <-. exists mo, tcur. split; [done|]. split; [done|].
    rewrite app_nil_r. do 2 (split; [done|]). split; [done|]. by intros c ?%elem_of_nil.
  - destruct τ as [w|ts|len e]; [done| |].
    + apply bind_Ok_inv in H as (τ1 & Hτ1%ret_check_Ok & H).
      apply bind_Ok_inv in H as ([[[ch tg] τ''] nx] & Hrec & H).
      injection H as <- <- <- <-.
      set (c1 := MkNode next "" (kTupleIndex i) [cur] τ1) in *.
      destruct (has_shape_child_Some (TupleType ts) τ1 tcur i Hsh Hτ1) as (t1 & Ht1 & Hsh1).
      assert (c1 ∈ ns ∧ GetNode G (id_ c1) = Some c1) as [Hc1 Hg1] by (apply Hns; left).
      assert (VisitNode G c1 mo = Ok (<[next := t1]> mo)) as Hv1.
      { unfold VisitNode. change (op_ c1) with (kTupleIndex i). cbv iota.
        unfold HandleTupleIndex, GetValue. change (operands_ c1) with [cur]. cbv iota.
        rewrite Hcur. cbn [ret_check]. rewrite bind_Ok, Ht1. cbn [ret_check].
        rewrite bind_Ok. unfold SetValue, GetType. change (type_ c1) with τ1.
        by rewrite Hsh1. }
      destruct (IH next τ1 (next + 1)%N ch tg τ'' nx (i :: acc) t1
                  (<[next := t1]> mo) Hrec)
        as (mo' & tt & Hvis & Hframe & Htt & Htg & Hlast & Hnodes).
      { intros c Hcin. apply Hns. by right. }
      { lia. }
      { apply lookup_insert_eq. }
      { done. }
      { simpl. by rewrite subtree_app, Hsub. }
      { simpl. rewrite type_at_app, Hty. simpl. by rewrite Hτ1. }
      { simpl. exists c1. do 2 (split; [done|]). left. split; [done|]. by exists cur. }
      assert (mo' !! next = Some t1) as Hnext.
      { rewrite Hframe by lia. apply lookup_insert_eq. }
      exists mo', tt. split; [by simpl; rewrite Hv1, bind_Ok|].
      split. { intros a Ha. rewrite Hframe by lia. apply lookup_insert_ne. lia. }
      split. { simpl in Htt. by rewrite <- app_assoc in Htt. }
      split; [done|]. split.
      * intros _. destruct prefix as [|j prefix'].
        -- simpl in Hrec. injection Hrec as <- <- <- <-. exists c1.
           split; [left | done].
        -- destruct Hlast as (c & Hcin & ? & ?); [done|]. exists c.
           split; [by right | done].
      * intros c [->|Hcin]%elem_of_cons.
        -- right. exists [i], prefix, t1. split; [done|]. split; [done|].
           split; [done|]. split; [by rewrite subtree_app, Hsub|]. split.
           ++ rewrite type_at_app, Hty. simpl. by rewrite Hτ1.
           ++ simpl. exists c1. do 2 (split; [done|]). left. split; [done|]. by exists cur.
        -- destruct (Hnodes c Hcin) as [?|(q & r & tc & Hq & -> & Htc & Hsubq & Htyq & Hchq)];
             [by left|].
           right. exists (i :: q), r, tc. split; [done|]. split; [done|].
           split; [done|]. simpl in Hsubq, Htyq. rewrite <- app_assoc in Hsubq, Htyq.
           do 2 (split; [done|]). simpl. by rewrite <- app_assoc.
    + case_bool_decide as Hi; [|done].
      apply bind_Ok_inv in H as ([[[ch tg] τ''] nx] & Hrec & H).
      injection H as <- <- <- <-.
      set (lit := MkNode next "" (kLiteral (VBits i)) [] (BitsType (N.size (Z.to_N i)))) in *.
      set (c1 := MkNode (next + 1) "" kArrayIndex [cur; next] e) in *.
      assert (child_type (ArrayType len e) i = Some e) as Hτ1.
      { simpl. by rewrite bool_decide_eq_true_2. }
      destruct (has_shape_child_Some (ArrayType len e) e tcur i Hsh Hτ1) as (t1 & Ht1 & Hsh1).
      assert (lit ∈ ns ∧ GetNode G (id_ lit) = Some lit) as [Hl Hgl] by (apply Hns; left).
      assert (c1 ∈ ns ∧ GetNode G (id_ c1) = Some c1) as [Hc1 Hg1]
        by (apply Hns; right; left).
      destruct (DefaultHandler_Ok lit mo) as (tl & Hdl & Hself).
      change (id_ lit) with next in Hdl.
      destruct tcur as [|cs]; [done|].
      assert (length cs = len) as Hlen.
      { simpl in Hsh. by apply andb_true_iff in Hsh as [?%Nat.eqb_eq _]. }
      assert (VisitNode G c1 (<[next := tl]> mo) = Ok (<[(next + 1)%N := t1]> (<[next := tl]> mo)))
        as Hv1.
      { unfold VisitNode. change (op_ c1) with kArrayIndex. cbv iota.
        unfold HandleArrayIndex, GetValue. change (operands_ c1) with [cur; next].
        cbv iota. rewrite (lookup_insert_ne _ next cur) by lia. rewrite Hcur.
        cbn [ret_check].
        rewrite bind_Ok, lookup_insert_eq. cbn [ret_check]. rewrite bind_Ok.
        unfold literal_index. rewrite (Hgl : GetNode G next = Some lit).
        change (op_ <$> Some lit) with (Some (kLiteral (VBits i))). cbv iota.
        assert (in_range i cs = true) as ->.
        { apply bool_decide_eq_true. lia. }
        rewrite Ht1. cbn [ret_check]. rewrite bind_Ok.
        unfold SetValue, GetType. change (type_ c1) with e. by rewrite Hsh1. }
      destruct (IH (next + 1)%N e (next + 2)%N ch tg τ'' nx (i :: acc) t1
                  (<[(next + 1)%N := t1]> (<[next := tl]> mo)) Hrec)
        as (mo' & tt & Hvis & Hframe & Htt & Htg & Hlast & Hnodes).
      { intros c Hcin. apply Hns. right. by right. }
      { lia. }
      { apply lookup_insert_eq. }
      { done. }
      { simpl. by rewrite subtree_app, Hsub. }
      { simpl. rewrite type_at_app, Hty. simpl. by rewrite bool_decide_eq_true_2. }
      { simpl. exists c1. do 2 (split; [done|]). right. split; [done|].
        exists cur, next, lit. done. }
      assert (mo' !! (next + 1)%N = Some t1) as Hnext1.
      { rewrite Hframe by lia. apply lookup_insert_eq. }
      assert (mo' !! next = Some tl) as Hnext.
      { rewrite Hframe by lia. rewrite lookup_insert_ne by lia. apply lookup_insert_eq. }
      exists mo', tt. split.
      { rewrite VisitNodes_cons, (VisitNode_default G lit mo eq_refl), Hdl, bind_Ok.
        by rewrite VisitNodes_cons, Hv1, bind_Ok. }
      split. { intros a Ha. rewrite Hframe by lia. rewrite !lookup_insert_ne by lia. done. }
      split. { simpl in Htt. by rewrite <- app_assoc in Htt. }
      split; [done|]. split.
      * intros _. destruct prefix as [|j prefix'].
        -- simpl in Hrec. injection Hrec as <- <- <- <-. exists c1.
           split; [right; left | done].
        -- destruct Hlast as (c & Hcin & ? & ?); [done|]. exists c.
           split; [right; by right | done].
      * intros c [->|[->|Hcin]%elem_of_cons]%elem_of_cons.
        -- left. exists tl. done.
        -- right. exists [i], prefix, t1. split; [done|]. split; [done|].
           split; [done|]. split; [by rewrite subtree_app, Hsub|]. split.
           ++ rewrite type_at_app, Hty. simpl. by rewrite bool_decide_eq_true_2.
           ++ simpl. exists c1. do 2 (split; [done|]). right. split; [done|].
              exists cur, next, lit. done.
        -- destruct (Hnodes c Hcin) as [?|(q & r & tc & Hq & -> & Htc & Hsubq & Htyq & Hchq)];
             [by left|].
           right. exists (i :: q), r, tc. split; [done|]. split; [done|].
           split; [done|]. simpl in Hsubq, Htyq. rewrite <- app_assoc in Hsubq, Htyq.
           do 2 (split; [done|]). simpl. by rewrite <- app_assoc.
Qed.

Lemma GetNode_nodes (f f' : FunctionBase) (a : N) :
  nodes_ f = nodes_ f' → GetNode f a = GetNode f' a.
Proof. unfold GetNode. by intros ->. Qed.

Lemma GetNode_app_l (pre rest : list Node) (ret next ret' next' a : N) :
  a ∈ map id_ pre →
  GetNode (MkFunctionBase (pre ++ rest) ret next) a
  = GetNode (MkFunctionBase pre ret' next') a.
Proof.
  intros Ha. unfold GetNode. simpl. rewrite find_app.
  destruct (GetNode_elem (MkFunctionBase pre ret' next') a Ha) as [x Hx].
  unfold GetNode in Hx. simpl in Hx. by rewrite Hx.
Qed.

Lemma literal_index_app_l (pre rest : list Node) (ret next ret' next' a : N) :
  a ∈ map id_ pre →
  literal_index (MkFunctionBase (pre ++ rest) ret next) a
  = literal_index (MkFunctionBase pre ret' next') a.
Proof. intros Ha. unfold literal_index. by rewrite (GetNode_app_l pre rest _ _ ret' next'). Qed.

Lemma VerifyNodes_literal (next : N) (ns : list Node) : ∀ seen : gmap N Ty,
  VerifyNodes next seen ns = true →
  ∀ n v, n ∈ ns → op_ n = kLiteral v → value_has_type v (type_ n) = true.
Proof.
  induction ns as [|n ns IH]; intros seen; simpl; [by intros _ n v ?%elem_of_nil|].
  intros [HVn HV]%andb_true_iff n' v [->|Hn']%elem_of_cons Hop; [|by eapply IH].
  unfold VerifyNode in HVn. apply andb_true_iff in HVn as [_ HVn]. rewrite Hop in HVn.
  by destruct (operands_ n).
Qed.

Lemma RewriteNodes_all_keep (m : gmap N (LeafTypeTree NodeSource)) (f : FunctionBase)
    (order : list N) : ∀ changed : bool,
  (∀ p, p ∈ order → RewriteNode m p f = (f, Ok false)) →
  RewriteNodes m order f changed = (f, Ok changed).
Proof.
  induction order as [|p order IH]; intros changed H; simpl; [done|].
  rewrite (H p) by left. rewrite orb_false_r. apply IH. intros p' Hp'. apply H. by right.
Qed.

Lemma literal_index_None_default (f : FunctionBase) (a : N) (c : Node) :
  GetNode f a = Some c → is_default_op (op_ c) = false → literal_index f a = None.
Proof. intros Hc Hop. unfold literal_index. rewrite Hc. simpl. by destruct (op_ c). Qed.

(** ** The rewrite phase preserves the computed function *)

Section RewritePhase.
Context (other_sem : string → list Value → Ty → Value).
Context (args : NodePtr → Value).
Context (f0 : FunctionBase).
Context (m : gmap N (LeafTypeTree NodeSource)).
Context (ρ0 : gmap N Value).
Hypothesis other_sem_typed :
  ∀ tag vs τ, value_has_type (other_sem tag vs τ) τ = true.
Hypothesis HV : VerifyFunction f0 = true.
Hypothesis Hargs : args_typed args f0 = true.
Hypothesis HAcc : Accept f0 = Ok m.
Hypothesis Hev0 : eval_nodes other_sem args ∅ (nodes_ f0) = Some ρ0.

Lemma env_dom_out (out : list Node) (ρ : gmap N Value) (a : N) :
  eval_nodes other_sem args ∅ out = Some ρ → is_Some (ρ !! a) ↔ a ∈ map id_ out.
Proof.
  intros Hev. rewrite (eval_nodes_dom _ _ _ _ _ a Hev). split; [|by right].
  intros [[? Ha]|?]; [by rewrite lookup_empty in Ha | done].
Qed.

(** The final environment is a fixed point of the node equations. *)
Lemma eval_fix (n : Node) :
  n ∈ nodes_ f0 →
  ∃ v, ρ0 !! id_ n = Some v ∧ eval_node other_sem args ρ0 n = Some v.
Proof.
  intros (pre & post & Hsplit)%list_elem_of_split.
  pose proof (verified_NoDup f0 HV) as Hnd. pose proof Hev0 as Hev.
  rewrite Hsplit in Hev, Hnd. rewrite eval_nodes_app in Hev.
  destruct (eval_nodes other_sem args ∅ pre) as [ρ1|] eqn:Hpre; [|done].
  simpl in Hev. destruct (eval_node other_sem args ρ1 n) as [v|] eqn:Hn; [|done].
  simpl in Hev. rewrite map_app in Hnd. simpl in Hnd.
  apply NoDup_app in Hnd as (_ & Hdisj & [Hnpost _]%NoDup_cons).
  assert (ρ0 !! id_ n = Some v) as Hv.
  { rewrite (eval_nodes_lookup_other _ _ _ _ _ _ Hev Hnpost). apply lookup_insert_eq. }
  exists v. split; [done|]. rewrite <- Hn. apply eval_node_ext. intros o Ho.
  pose proof (verified_operands_before f0 HV pre post n o Hsplit Ho) as Hopre.
  assert (o ≠ id_ n) as Hne.
  { intros ->. apply (Hdisj (id_ n) Hopre). by left. }
  rewrite (eval_nodes_lookup_other _ _ _ _ _ o Hev).
  - by apply lookup_insert_ne.
  - intros Hopost. apply (Hdisj o Hopre). by right.
Qed.

Lemma elem_of_ids (ns : list Node) (a : N) :
  a ∈ map id_ ns ↔ ∃ n, n ∈ ns ∧ id_ n = a.
Proof.
  split.
  - intros (n & -> & ?)%list_elem_of_fmap_1. eauto.
  - intros (n & ? & <-). by apply list_elem_of_fmap_2.
Qed.

(** An index operand that is not a literal does not have a literal as its
    provenance. *)
Definition lit_ok (a : N) : Prop :=
  literal_index f0 a = None →
  ∀ s, m !! a = Some (Leaf s) → literal_index f0 (node s) = None.

(** The analysis of the emitted nodes: the replacement of every original
    node has the container the original had, index operands kept their kind,
    and no emitted node is a candidate for a further rewrite. *)
Definition st_inv (done out : list Node) (σ : N → N) : Prop :=
  ∃ mo,
    VisitNodes (MkFunctionBase out 0 0) out ∅ = Ok mo ∧
    (∀ n0 t, n0 ∈ done → m !! id_ n0 = Some t → mo !! σ (id_ n0) = Some t) ∧
    (∀ n0, n0 ∈ done → σ (id_ n0) = id_ n0 ∨ lit_ok (id_ n0) →
       literal_index (MkFunctionBase out 0 0) (σ (id_ n0)) = literal_index f0 (id_ n0)) ∧
    (∀ n', n' ∈ out → settled out mo n').

Lemma literal_stable_lit_ok (n : Node) (idx : N) :
  literal_stable f0 m = true → n ∈ nodes_ f0 → index_operand n = Some idx → lit_ok idx.
Proof.
  intros Hst Hn Hidx Hnone s Hs. unfold literal_stable in Hst.
  apply forallb_Forall in Hst. rewrite Forall_forall in Hst. specialize (Hst n Hn).
  simpl in Hst. rewrite Hidx, Hnone, Hs in Hst. by apply bool_decide_eq_true in Hst.
Qed.

Lemma index_operand_elem (n : Node) (idx : N) :
  index_operand n = Some idx → idx ∈ operands_ n.
Proof.
  unfold index_operand. destruct (op_ n); try done.
  - destruct (operands_ n) as [|a [|i [|]]]; try done. intros [= ->]. right. left.
  - destruct (operands_ n) as [|a [|v [|i [|]]]]; try done. intros [= ->].
    right. right. left.
Qed.

Lemma out_memo_dom (out : list Node) (mo : gmap N (LeafTypeTree NodeSource)) (G : FunctionBase)
    (a : N) (t : LeafTypeTree NodeSource) :
  VisitNodes G out ∅ = Ok mo → mo !! a = Some t → a ∈ map id_ out.
Proof.
  intros Hvis Ha. destruct (decide (a ∈ map id_ out)) as [|Hn]; [done|].
  rewrite (VisitNodes_frame _ _ _ _ a Hvis Hn), lookup_empty in Ha. done.
Qed.

Lemma out_prefix_analysis (out new : list Node) (mo : gmap N (LeafTypeTree NodeSource)) :
  (∀ n' o, n' ∈ out → o ∈ operands_ n' → o ∈ map id_ out) →
  VisitNodes (MkFunctionBase out 0 0) out ∅ = Ok mo →
  VisitNodes (MkFunctionBase (out ++ new) 0 0) (out ++ new) ∅
  = VisitNodes (MkFunctionBase (out ++ new) 0 0) new mo.
Proof.
  intros Hscope Hvis. rewrite VisitNodes_app.
  rewrite (VisitNodes_ext _ (MkFunctionBase out 0 0) out ∅), Hvis; [done|].
  intros n a Hn Ha. apply GetNode_app_l. by eapply Hscope.
Qed.

(** The emitted nodes after a node is kept. *)
Lemma st_inv_keep (done todo out : list Node) (n0 : Node) (σ : N → N) (ret next : N)
    (rest : list Node) (t : LeafTypeTree NodeSource) :
  let G := MkFunctionBase (out ++ rename σ n0 :: rest) ret next in
  nodes_ f0 = done ++ n0 :: todo →
  NoDup (map id_ out) → id_ n0 ∉ map id_ out →
  (∀ n' o, n' ∈ out → o ∈ operands_ n' → o ∈ map id_ out) →
  (∀ nd, nd ∈ done → σ (id_ nd) ∈ map id_ out) →
  σ (id_ n0) = id_ n0 →
  m !! id_ n0 = Some t →
  (∀ M prefix, common_origin (id_ n0) t = Some (M, prefix) → M ∈ map id_ out) →
  (single_ancestor G (rename σ n0) t = Ok None ∨
   ∃ mn prefix, single_ancestor G (rename σ n0) t = Ok (Some (mn, prefix)) ∧
                is_index_chain G (id_ n0) (id_ mn) (rev prefix) = true) →
  literal_stable f0 m = true →
  st_inv done out σ →
  st_inv (done ++ [n0]) (out ++ [rename σ n0]) σ.
Proof.
  intros G Hsplit Hnd Hn0out Hscope Hσout Hσn0 Ht Horig Hkeep Hst (mo & Hvis & HS2 & HS3 & HS4).
  pose proof (verified_NoDup f0 HV) as Hndf.
  assert (n0 ∈ nodes_ f0) as Hn0f.
  { rewrite Hsplit. apply elem_of_app. right. left. }
  destruct (analysis_split f0 m done todo n0 Hndf HAcc Hsplit) as (m1 & t' & _ & Hv & Ht' & Hm1).
  assert (t' = t) as -> by congruence.
  assert (∀ o, o ∈ operands_ n0 → ∃ nd, nd ∈ done ∧ id_ nd = o) as Hopd.
  { intros o Ho. apply elem_of_ids.
    by apply (verified_operands_before f0 HV done todo n0 o Hsplit). }
  assert (∀ nd, nd ∈ done → is_Some (m !! id_ nd)) as Hmdone.
  { intros nd Hd. apply (VisitNodes_complete f0 (nodes_ f0) ∅ m HAcc).
    rewrite Hsplit. apply elem_of_app. by left. }
  set (out' := out ++ [rename σ n0]).
  assert (∀ a, a ∈ map id_ out →
            literal_index (MkFunctionBase out' 0 0) a
            = literal_index (MkFunctionBase out 0 0) a) as Hlitout.
  { intros a Ha. by apply literal_index_app_l. }
  assert (VisitNode (MkFunctionBase out' 0 0) (rename σ n0) mo
          = Ok (<[id_ n0 := t]> mo)) as Hv'.
  { apply (VisitNode_rename f0 _ σ n0 m1 mo t); [| |done].
    - intros a Ha. destruct (Hopd a Ha) as (nd & Hd & <-).
      rewrite Hm1 by (by apply list_elem_of_fmap_2).
      destruct (Hmdone nd Hd) as [ta Hta]. rewrite Hta. by apply HS2.
    - intros idx Hidx. pose proof (index_operand_elem n0 idx Hidx) as Hin.
      destruct (Hopd idx Hin) as (nd & Hd & <-).
      rewrite Hlitout by (by apply Hσout). apply HS3; [done|]. right.
      by apply (literal_stable_lit_ok n0). }
  assert (∀ a ta, mo !! a = Some ta → <[id_ n0 := t]> mo !! a = Some ta) as Hmono.
  { intros a ta Ha. rewrite lookup_insert_ne; [done|]. intros <-.
    apply Hn0out. by eapply out_memo_dom. }
  exists (<[id_ n0 := t]> mo). split; [|split; [|split]].
  - unfold out'. rewrite (out_prefix_analysis out _ mo Hscope Hvis). fold out'.
    by rewrite VisitNodes_cons, Hv', bind_Ok.
  - intros nd t1 [Hd| ->%list_elem_of_singleton]%elem_of_app Ht1.
    + apply Hmono. by apply HS2.
    + rewrite Hσn0, lookup_insert_eq. congruence.
  - intros nd [Hd| ->%list_elem_of_singleton]%elem_of_app Hcond.
    + rewrite Hlitout by (by apply Hσout). by apply HS3.
    + rewrite Hσn0. unfold literal_index.
      rewrite (GetNode_head out [] (rename σ n0) 0 0 Hn0out
               : GetNode (MkFunctionBase out' 0 0) (id_ n0) = Some (rename σ n0)).
      by rewrite (verified_GetNode f0 HV n0 Hn0f).
  - intros n' [Hn'| ->%list_elem_of_singleton]%elem_of_app.
    + apply (settled_mono out out' mo); [|done|by apply HS4].
      intros x Hx. apply elem_of_app. by left.
    + exists t. split; [apply lookup_insert_eq|]. change (id_ (rename σ n0)) with (id_ n0).
      assert (∀ M mn, M ∈ map id_ out → GetNode G M = Some mn → mn ∈ out' ∧ id_ mn = M)
        as Hlook.
      { intros M mn HM Hg. apply GetNode_prefix in Hg as [? ?]; [|done].
        split; [|done]. apply elem_of_app. by left. }
      destruct Hkeep as [Hnone|(mn & prefix & Hsome & Hguard)].
      * apply single_ancestor_Ok in Hnone
          as [?|(M & prefix & mn & τ & Hco & Hg & Hτ & Hne)]; [by left|].
        right. change (id_ (rename σ n0)) with (id_ n0) in Hco.
        destruct (Hlook M mn (Horig M prefix Hco) Hg) as [Hin Hid].
        exists M, prefix, mn, τ. do 4 (split; [done|]). by left.
      * apply single_ancestor_Ok in Hsome as (Hco & Hg & Hτ).
        change (id_ (rename σ n0)) with (id_ n0) in Hco.
        destruct (Hlook (id_ mn) mn (Horig _ prefix Hco) Hg) as [Hin _].
        right. exists (id_ mn), prefix, mn, (type_ (rename σ n0)).
        do 4 (split; [done|]). right.
        apply (is_index_chain_chain_in out' rest ret next).
        -- intros n' a [Hn'| ->%list_elem_of_singleton]%elem_of_app Ha;
             unfold out'; rewrite map_app, elem_of_app; left.
           ++ by eapply Hscope.
           ++ simpl in Ha. apply list_elem_of_fmap_1 in Ha as (o & -> & Ho).
              destruct (Hopd o Ho) as (nd & Hd & <-). by apply Hσout.
        -- unfold out'. rewrite map_app, elem_of_app. right. simpl. left.
        -- unfold out'. by rewrite <- app_assoc.
Qed.

(** The emitted nodes after a node is replaced by an index chain into its
    origin (the empty chain when the origin itself replaces it). *)
Lemma st_inv_replace (done todo out : list Node) (n0 nM n' : Node) (σ : N → N) (next : N)
    (t tM : LeafTypeTree NodeSource) (M : N) (prefix : list Z)
    (chain : list Node) (target next' : N) :
  nodes_ f0 = done ++ n0 :: todo →
  NoDup (map id_ out) → id_ n0 ∉ map id_ out → (id_ n0 < next)%N →
  (∀ n1, n1 ∈ out → (id_ n1 < next)%N) →
  (∀ n1 o, n1 ∈ out → o ∈ operands_ n1 → o ∈ map id_ out) →
  (∀ nd, nd ∈ done → σ (id_ nd) ∈ map id_ out) →
  σ (id_ n0) = id_ n0 →
  m !! id_ n0 = Some t → has_shape (type_ n0) t = true →
  common_origin (id_ n0) t = Some (M, prefix) →
  nM ∈ done → id_ nM = M → m !! M = Some tM → has_shape (type_ nM) tM = true →
  σ M = M → n' ∈ out → id_ n' = M → type_ n' = type_ nM →
  (∀ p, leaf_at p t = Some (MkNodeSource M (prefix ++ p)) →
        leaf_at (prefix ++ p) tM = Some (MkNodeSource M (prefix ++ p))) →
  IndexChain M (type_ nM) prefix next = Ok (chain, target, type_ n0, next') →
  literal_stable f0 m = true →
  st_inv done out σ →
  st_inv (done ++ [n0]) (out ++ chain)
         ((λ o, if bool_decide (o = id_ n0) then target else o) ∘ σ).
Proof.
  intros Hsplit Hnd Hn0out Hn0lt Hlt Hscope Hσout Hσn0 Ht Hsh Hco HnMd HidM HtM HshM HσM
    Hn'out Hn'id Hn'ty Hcanon Hch Hst (mo & Hvis & HS2 & HS3 & HS4).
  set (g := λ o : N, if bool_decide (o = id_ n0) then target else o).
  pose proof (verified_NoDup f0 HV) as Hndf.
  assert (n0 ∈ nodes_ f0) as Hn0f.
  { rewrite Hsplit. apply elem_of_app. right. left. }
  destruct (common_origin_Some _ _ _ _ Hco) as (HMne & (p0 & Hp0) & Hall).
  destruct (IndexChain_spec _ _ _ _ _ _ _ _ Hch) as (Hle & Hty & Htg & Hndc & Hids & Hcops).
  set (out' := out ++ chain).
  assert (NoDup (map id_ out')) as Hnd'.
  { unfold out'. rewrite map_app. apply NoDup_app. split; [done|]. split; [|done].
    intros a (c & Hc & <-)%elem_of_ids (c' & Hc' & Heq)%elem_of_ids.
    specialize (Hlt c Hc). specialize (Hids c' Hc'). lia. }
  assert (∀ a, a ∈ map id_ out → (a < next)%N) as Hoid.
  { intros a (c & Hc & <-)%elem_of_ids. by apply Hlt. }
  assert (mo !! M = Some tM) as HmoM.
  { rewrite <- HσM, <- HidM. apply HS2; [done|]. by rewrite HidM. }
  destruct (IndexChain_analysis (MkFunctionBase out' 0 0) out' M tM (type_ nM) prefix
              M (type_ nM) next chain target (type_ n0) next' [] tM mo Hch)
    as (mo' & tt & Hvis' & Hframe & Htt & Hmotg & Hlast & Hnodes); try done.
  { intros c Hc. assert (c ∈ out') as Hc' by (apply elem_of_app; by right).
    split; [done|]. unfold GetNode. by apply find_id_NoDup. }
  { rewrite <- Hn'id. by apply Hlt. }
  simpl in Htt.
  assert (tt = t) as ->.
  { apply (tree_ext (type_ n0)); [|done|].
    - pose proof (has_shape_subtree prefix _ _ HshM) as H. by rewrite Hty, Htt in H.
    - intros p Hp. apply (has_shape_leaf_at _ t p Hsh) in Hp as [s Hs].
      pose proof (Hall p s Hs) as ->. rewrite Hs.
      rewrite <- (leaf_at_subtree prefix p tM tt Htt). by apply Hcanon. }
  assert (∀ a ta, mo !! a = Some ta → mo' !! a = Some ta) as Hmono.
  { intros a ta Ha. rewrite Hframe; [done|]. apply Hoid. by eapply out_memo_dom. }
  assert (∀ a, a ∈ map id_ out →
            literal_index (MkFunctionBase out' 0 0) a
            = literal_index (MkFunctionBase out 0 0) a) as Hlitout.
  { intros a Ha. by apply literal_index_app_l. }
  assert (∀ nd, nd ∈ done → g (σ (id_ nd)) = σ (id_ nd)) as Hgσ.
  { intros nd Hd. unfold g. rewrite bool_decide_eq_false_2; [done|]. intros Heq.
    apply Hn0out. rewrite <- Heq. by apply Hσout. }
  assert (target ≠ id_ n0) as Htgne.
  { destruct Htg as [->|(c & Hc & <-)%elem_of_ids]; [done|].
    specialize (Hids c Hc). lia. }
  exists mo'. split; [|split; [|split]].
  - unfold out'. rewrite (out_prefix_analysis out chain mo Hscope Hvis). by fold out'.
  - intros nd t1 [Hd| ->%list_elem_of_singleton]%elem_of_app Ht1; simpl.
    + rewrite (Hgσ nd Hd). apply Hmono. by apply HS2.
    + rewrite Hσn0. unfold g. rewrite bool_decide_eq_true_2 by done. congruence.
  - intros nd [Hd| ->%list_elem_of_singleton]%elem_of_app; simpl.
    + rewrite (Hgσ nd Hd). intros Hcond. rewrite Hlitout by (by apply Hσout).
      by apply HS3.
    + rewrite Hσn0. unfold g. rewrite bool_decide_eq_true_2 by done.
      intros [?|Hlok]; [done|].
      destruct (analysis_split f0 m done todo n0 Hndf HAcc Hsplit)
        as (m1 & t' & _ & Hv & Ht' & _).
      assert (t' = t) as -> by congruence.
      assert (literal_index f0 (id_ n0) = None) as Hn0lit.
      { unfold literal_index. rewrite (verified_GetNode f0 HV n0 Hn0f). simpl.
        destruct (op_ n0) as [|v| | | | | | | |] eqn:Hop; try done. exfalso.
        rewrite (VisitNode_default f0 n0 m1) in Hv by (by rewrite Hop).
        destruct (DefaultHandler_Ok n0 m1) as (t'' & Hd & _ & _ & Hself).
        rewrite Hd in Hv. injection Hv as Heq.
        apply (f_equal (λ x, x !! id_ n0)) in Heq. rewrite !lookup_insert_eq in Heq.
        injection Heq as ->. specialize (Hself _ _ Hp0). by injection Hself as ->. }
      rewrite Hn0lit. destruct prefix as [|i prefix].
      * simpl in Hch. injection Hch as <- <- Hτ <-. rewrite Hlitout.
        2:{ rewrite <- Hn'id. by apply list_elem_of_fmap_2. }
        rewrite <- HσM at 1. rewrite <- HidM.
        rewrite HS3 by (done || by left; rewrite HidM).
        rewrite HidM. destruct (literal_index f0 M) as [k|] eqn:HlM; [|done]. exfalso.
        unfold literal_index in HlM.
        assert (nM ∈ nodes_ f0) as HnMf by (rewrite Hsplit; apply elem_of_app; by left).
        rewrite <- HidM, (verified_GetNode f0 HV nM HnMf) in HlM. simpl in HlM.
        destruct (op_ nM) as [|[z| |]| | | | | | | |] eqn:Hop; try done.
        pose proof (VerifyNodes_literal _ _ _ (verified_nodes f0 HV) nM _ HnMf Hop) as Hv'.
        destruct (type_ nM) as [w| |] eqn:HτM; try done.
        rewrite <- Hτ in Hsh. destruct t as [s|]; [|done].
        pose proof (Hall [] s eq_refl) as ->. simpl in Hlok.
        specialize (Hlok Hn0lit _ Ht). simpl in Hlok. unfold literal_index in Hlok.
        rewrite <- HidM, (verified_GetNode f0 HV nM HnMf) in Hlok. simpl in Hlok.
        by rewrite Hop in Hlok.
      * destruct Hlast as (c & Hc & Hcid & Hcop); [done|].
        apply (literal_index_None_default _ _ c); [|done].
        rewrite <- Hcid. unfold GetNode. apply find_id_NoDup; [done|].
        apply elem_of_app. by right.
  - intros n1 [Hn1|Hc]%elem_of_app.
    + apply (settled_mono out out' mo); [|done|by apply HS4].
      intros x Hx. apply elem_of_app. by left.
    + destruct (Hnodes n1 Hc) as [(tc & Hop & Htc & Hself)
                                  |(q & r & tc & Hq & Hpre & Htc & Hsub & Htyq & Hchain)].
      * exists tc. split; [done|]. left. by apply self_describing_no_ancestor.
      * exists tc. split; [done|]. simpl in Hsub, Htyq. rewrite app_nil_r in Hchain.
        destruct (common_origin (id_ n1) tc) as [[M' pre']|] eqn:Hco'; [|by left].
        right. destruct (common_origin_Some _ _ _ _ Hco') as (_ & _ & Hall').
        assert (leaf_at (r ++ p0) tc = Some (MkNodeSource M (prefix ++ p0))) as Hleaf.
        { rewrite <- (leaf_at_subtree q (r ++ p0) tM tc Hsub), app_assoc, <- Hpre.
          by apply Hcanon. }
        specialize (Hall' _ _ Hleaf). injection Hall' as HM' Hpath.
        rewrite Hpre, <- app_assoc in Hpath. apply app_inv_tail in Hpath.
        subst M' pre'.
        exists (id_ nM), q, n', (type_ n1). rewrite HidM. split; [done|].
        split; [apply elem_of_app; by left|]. split; [done|].
        split; [by rewrite Hn'ty|]. by right.
Qed.

(** The state of the rewrite phase: the nodes already emitted, the
    redirection of the original ids, and the environment of the emitted
    nodes. *)
Definition rw_inv_at (done todo : list Node) (G : FunctionBase)
    (out : list Node) (σ : N → N) (ρ : gmap N Value) : Prop :=
  nodes_ G = out ++ map (rename σ) todo ∧
  return_value_ G = σ (return_value_ f0) ∧
  (next_node_id_ f0 ≤ next_node_id_ G)%N ∧
  (∀ n', n' ∈ out → (id_ n' < next_node_id_ G)%N) ∧
  NoDup (map id_ out) ∧
  (∀ n', n' ∈ todo → id_ n' ∉ map id_ out) ∧
  (∀ n' o, n' ∈ out → o ∈ operands_ n' → o ∈ map id_ out) ∧
  eval_nodes other_sem args ∅ out = Some ρ ∧
  (∀ n0, n0 ∈ done → ρ !! σ (id_ n0) = ρ0 !! id_ n0) ∧
  (∀ n0, n0 ∈ todo → σ (id_ n0) = id_ n0) ∧
  (∀ n0 t p, n0 ∈ done → m !! id_ n0 = Some t →
     leaf_at p t = Some (MkNodeSource (id_ n0) p) →
     σ (id_ n0) = id_ n0 ∧ ∃ n', n' ∈ out ∧ id_ n' = id_ n0 ∧ type_ n' = type_ n0) ∧
  (literal_stable f0 m = true → st_inv done out σ).

Definition rw_inv (done todo : list Node) (G : FunctionBase) : Prop :=
  ∃ out σ ρ, rw_inv_at done todo G out σ ρ.

Lemma rw_inv_init : rw_inv [] (nodes_ f0) f0.
Proof.
  exists [], id, ∅. unfold rw_inv_at. simpl.
  split; [by rewrite map_rename_id|].
  split; [done|]. split; [lia|]. split; [by intros n' ?%elem_of_nil|].
  split; [constructor|]. split; [by intros n' _ ?%elem_of_nil|].
  split; [by intros n' o ?%elem_of_nil|]. split; [done|].
  split; [by intros n' ?%elem_of_nil|]. split; [done|].
  split; [by intros n' t p ?%elem_of_nil|].
  intros _. exists ∅. split; [done|]. split; [by intros n0 t ?%elem_of_nil|].
  split; [by intros n0 ?%elem_of_nil | by intros n' ?%elem_of_nil].
Qed.

Lemma eval_renamed (σ : N → N) (todo : list Node) : ∀ (done : list Node) (ρ : gmap N Value),
  nodes_ f0 = done ++ todo →
  (∀ n0, n0 ∈ done → ρ !! σ (id_ n0) = ρ0 !! id_ n0) →
  (∀ n0, n0 ∈ todo → σ (id_ n0) = id_ n0) →
  (∀ n0, n0 ∈ todo → ρ !! id_ n0 = None) →
  ∃ ρ', eval_nodes other_sem args ρ (map (rename σ) todo) = Some ρ' ∧
        ∀ n0, n0 ∈ nodes_ f0 → ρ' !! σ (id_ n0) = ρ0 !! id_ n0.
Proof.
  induction todo as [|n0 todo IH]; intros done ρ Hsplit HVd HVt Hfresh; simpl.
  - exists ρ. split; [done|]. rewrite Hsplit, app_nil_r. done.
  - assert (n0 ∈ nodes_ f0) as Hn0.
    { rewrite Hsplit. apply elem_of_app. right. by left. }
    destruct (eval_fix n0 Hn0) as (v & Hv & Hev).
    assert (eval_node other_sem args ρ (rename σ n0) = Some v) as ->.
    { rewrite <- Hev. apply eval_node_rename. intros o Ho.
      pose proof (verified_operands_before f0 HV done todo n0 o Hsplit Ho) as Hod.
      apply elem_of_ids in Hod as (nd & Hnd & <-). by apply HVd. }
    simpl. pose proof (verified_NoDup f0 HV) as Hnd. rewrite Hsplit in Hnd.
    rewrite map_app in Hnd. simpl in Hnd.
    apply NoDup_app in Hnd as (_ & _ & [Hn0t _]%NoDup_cons).
    apply (IH (done ++ [n0])).
    + by rewrite <- app_assoc.
    + intros nd [Hnd|Hnd]%elem_of_app.
      * rewrite lookup_insert_ne; [by apply HVd|]. intros Heq.
        assert (nd ∈ nodes_ f0) as Hndf.
        { rewrite Hsplit. apply elem_of_app. by left. }
        destruct (eval_fix nd Hndf) as (vd & Hvd & _).
        specialize (HVd nd Hnd). rewrite <- Heq, Hvd in HVd.
        rewrite (Hfresh n0) in HVd; [done | by left].
      * apply list_elem_of_singleton in Hnd as ->.
        rewrite (HVt n0) by (by left). by rewrite lookup_insert_eq.
    + intros n' Hn'. apply HVt. by right.
    + intros n' Hn'. rewrite lookup_insert_ne; [apply Hfresh; by right|].
      intros Heq. apply Hn0t. rewrite Heq. by apply list_elem_of_fmap_2.
Qed.

Lemma rw_inv_interpret (done todo : list Node) (G : FunctionBase) :
  nodes_ f0 = done ++ todo → rw_inv done todo G →
  InterpretFunction other_sem args G = ρ0 !! return_value_ f0.
Proof.
  intros Hsplit (out & σ & ρ & Hnodes & Hret & _ & _ & _ & Htodo & _ & Hev & HVd & HVt & _).
  unfold InterpretFunction. rewrite Hnodes, eval_nodes_app, Hev. simpl.
  destruct (eval_renamed σ todo done ρ Hsplit HVd HVt) as (ρ' & -> & Hfin).
  - intros n0 Hn0. destruct (ρ !! id_ n0) as [v|] eqn:Hv; [|done].
    exfalso. apply (Htodo n0 Hn0). apply (env_dom_out out ρ); [done | by eexists].
  - simpl. rewrite Hret.
    pose proof (verified_return f0 HV) as (nr & Hnr & <-)%elem_of_ids. by apply Hfin.
Qed.

Lemma rw_step (done todo : list Node) (n0 : Node) (G G' : FunctionBase)
    (st : StatusOr bool) :
  nodes_ f0 = done ++ n0 :: todo →
  rw_inv done (n0 :: todo) G →
  RewriteNode m (id_ n0) G = (G', st) →
  ∃ c, st = Ok c ∧ rw_inv (done ++ [n0]) todo G'.
Proof.
  intros Hsplit (out & σ & ρ & Hnodes & Hret & Hnext & Hlt & Hnd & Htodo & Hscope
                 & Hev & HVd & HVt & HK & HS) HR.
  destruct G as [nodes ret next]. simpl in Hnodes, Hret, Hnext, Hlt. subst nodes.
  pose proof (verified_NoDup f0 HV) as Hndf. rewrite Hsplit, map_app in Hndf.
  simpl in Hndf. apply NoDup_app in Hndf as (Hnd_done & Hdisj & [Hn0todo Hnd_todo]%NoDup_cons).
  assert (n0 ∈ nodes_ f0) as Hn0f.
  { rewrite Hsplit. apply elem_of_app. right. by left. }
  assert (id_ n0 ∉ map id_ out) as Hn0out by (apply Htodo; by left).
  assert (∀ nd, nd ∈ done → nd ∈ nodes_ f0) as Hdonef.
  { intros nd Hd. rewrite Hsplit. apply elem_of_app. by left. }
  assert (∀ nd, nd ∈ done → σ (id_ nd) ∈ map id_ out) as Hσout.
  { intros nd Hd. apply (env_dom_out out ρ _ Hev). rewrite (HVd nd Hd).
    destruct (eval_fix nd (Hdonef nd Hd)) as (v & -> & _).
    by eexists. }
  assert (∀ n', n' ∈ out → id_ n0 ∉ operands_ n') as Hops.
  { intros n' Hn' Ho. apply Hn0out. by eapply Hscope. }
  assert (∀ n', n' ∈ todo → id_ n' ≠ id_ n0) as Htodo_ne.
  { intros n' Hn' Heq. apply Hn0todo. rewrite <- Heq. by apply list_elem_of_fmap_2. }
  assert (∀ nd, nd ∈ done → id_ nd ≠ id_ n0) as Hdone_ne.
  { intros nd Hd Heq. apply (Hdisj (id_ nd)); [by apply list_elem_of_fmap_2|].
    rewrite Heq. by left. }
  destruct (eval_fix n0 Hn0f) as (vN & HvN & HevN).
  assert (eval_node other_sem args ρ (rename σ n0) = Some vN) as HevN'.
  { rewrite <- HevN. apply eval_node_rename. intros o Ho.
    pose proof (verified_operands_before f0 HV done todo n0 o Hsplit Ho) as Hod.
    apply elem_of_ids in Hod as (nd & Hd & <-). by apply HVd. }
  assert ((id_ n0 < next)%N) as Hn0lt.
  { pose proof (verified_id_lt f0 HV n0 Hn0f). lia. }
  destruct (node_facts other_sem args f0 m other_sem_typed HV Hargs HAcc ρ0
              done todo n0 Hev0 Hsplit) as (vN' & t' & HvN' & HvNτ & Ht' & Hsh & Hsrc).
  assert (vN' = vN) as -> by congruence.
  set (G := MkFunctionBase (out ++ map (rename σ) (n0 :: todo)) ret next).
  assert (∀ M prefix, common_origin (id_ n0) t' = Some (M, prefix) →
            ∃ nM vM tM n' p0,
              nM ∈ done ∧ id_ nM = M ∧ ρ0 !! M = Some vM ∧
              value_has_type vM (type_ nM) = true ∧ m !! M = Some tM ∧
              leaf_at (prefix ++ p0) tM = Some (MkNodeSource M (prefix ++ p0)) ∧
              leaf_at p0 t' = Some (MkNodeSource M (prefix ++ p0)) ∧
              σ M = M ∧ n' ∈ out ∧ id_ n' = M ∧ type_ n' = type_ nM ∧
              GetNode G M = Some n' ∧ is_Some (type_at (type_ n') prefix) ∧
              has_shape (type_ nM) tM = true) as Horigin.
  { intros M prefix Hsa.
    destruct (common_origin_Some _ _ _ _ Hsa) as (HMne & (p0 & Hp0) & Hall).
    destruct (Hsrc p0 _ Hp0)
      as (nM & vM & tM & u0 & HnM & HidM & HvM & HvMτ & HtM & Hself & _).
    simpl in HidM, HvM, HtM, Hself.
    assert (nM ∈ done) as HnMd.
    { apply elem_of_app in HnM as [?| ->%list_elem_of_singleton]; [done | congruence]. }
    destruct (HK nM tM (prefix ++ p0) HnMd) as (HσM & n' & Hn'out & Hn'id & Hn'ty).
    { by rewrite HidM. }
    { by rewrite HidM. }
    rewrite HidM in HσM, Hn'id.
    exists nM, vM, tM, n', p0. do 11 (split; [done|]). split.
    { rewrite <- Hn'id. by apply (GetNode_out out _ n' ret next Hnd Hn'out). }
    destruct (list_elem_of_split _ _ (Hdonef nM HnMd)) as (pre' & post' & Hsplit').
    destruct (node_facts other_sem args f0 m other_sem_typed HV Hargs HAcc ρ0
                pre' post' nM Hev0 Hsplit') as (_ & tM' & _ & _ & HtM' & HshM & _).
    rewrite HidM in HtM'. assert (tM' = tM) as -> by congruence.
    destruct (proj1 (has_shape_leaf_at _ tM (prefix ++ p0) HshM)) as [w Hw];
      [by eexists|].
    split; [|done]. rewrite Hn'ty. rewrite type_at_app in Hw.
    destruct (type_at (type_ nM) prefix); [by eexists | done]. }
  simpl in HR.
  destruct (RewriteNode_split m out (map (rename σ) todo) (rename σ n0) ret next G' st)
    as [(e & -> & -> & Hwhy)|[(-> & -> & t & Ht & Hkeep)
        |(t & M & prefix & mn & chain & target & next' & -> & Ht & Hsa & HM & Hguard
          & Hch & ->)]];
    try done.
  { by rewrite map_map. }
  all: change (id_ (rename σ n0)) with (id_ n0) in *.
  all: change (type_ (rename σ n0)) with (type_ n0) in *.
  - (* no error in phase 2 *)
    exfalso. destruct Hwhy as [Hnone|(t & M & prefix & Ht & Hsa & Hbad)]; [congruence|].
    assert (t' = t) as -> by congruence.
    destruct (Horigin M prefix Hsa) as (nM & vM & tM & n' & p0 & _ & _ & _ & _ & _ & _ & _
                                        & _ & _ & _ & _ & HM' & [τ Hτ] & _).
    specialize (Hbad n' HM'). congruence.
  - (* the node is kept *)
    exists false. split; [done|].
    exists (out ++ [rename σ n0]), σ, (<[id_ n0 := vN]> ρ). unfold rw_inv_at. simpl.
    split; [by rewrite <- app_assoc|]. split; [done|]. split; [done|].
    split. { intros n' [?| ->%list_elem_of_singleton]%elem_of_app; [by apply Hlt | done]. }
    split. { rewrite map_app. simpl. apply NoDup_app. split; [done|]. split.
             - intros a Ha ->%list_elem_of_singleton. done.
             - apply NoDup_singleton. }
    split. { intros n' Hn'. rewrite map_app, elem_of_app. simpl.
             intros [?|Heq%list_elem_of_singleton].
             - apply (Htodo n'); [by right | done].
             - by apply (Htodo_ne n'). }
    split. { intros n' o [Hn'| ->%list_elem_of_singleton]%elem_of_app Ho;
               rewrite map_app, elem_of_app; left.
             - by eapply Hscope.
             - simpl in Ho. apply list_elem_of_fmap_1 in Ho as (o' & -> & Ho').
               pose proof (verified_operands_before f0 HV done todo n0 o' Hsplit Ho') as Hod.
               apply elem_of_ids in Hod as (nd & Hd & <-). by apply Hσout. }
    split. { rewrite eval_nodes_app, Hev. simpl. by rewrite HevN'. }
    split. { intros nd [Hd| ->%list_elem_of_singleton]%elem_of_app.
             - rewrite lookup_insert_ne; [by apply HVd|].
               intros Heq. apply Hn0out. rewrite Heq. by apply Hσout.
             - rewrite (HVt n0) by (by left). by rewrite lookup_insert_eq. }
    split. { intros n' Hn'. apply HVt. by right. }
    split.
    { intros nd t1 p' [Hd| ->%list_elem_of_singleton]%elem_of_app Ht1 Hsa'.
      + destruct (HK nd t1 p' Hd Ht1 Hsa') as (? & n' & ? & ? & ?).
        split; [done|]. exists n'. split; [|done]. apply elem_of_app. by left.
      + split; [apply HVt; by left|]. exists (rename σ n0).
        split; [|done]. apply elem_of_app. right. by left. }
    intros Hst.
    apply (st_inv_keep done todo out n0 σ ret next (map (rename σ) todo) t);
      try done.
    + apply HVt. by left.
    + intros M prefix Hco. assert (t' = t) as Heq by congruence. rewrite <- Heq in Hco.
      destruct (Horigin M prefix Hco)
        as (nM & vM & tM & n' & p0 & _ & _ & _ & _ & _ & _ & _ & _ & Hn'out & Hn'id & _).
      rewrite <- Hn'id. by apply list_elem_of_fmap_2.
    + by apply HS.
  - (* the node is replaced *)
    exists true. split; [done|].
    assert (t' = t) as -> by congruence.
    destruct (common_origin_Some _ _ _ _ Hsa) as (HMne & _ & Hall). simpl in HMne.
    destruct (Horigin M prefix Hsa)
      as (nM & vM & tM & n' & p0 & HnMd & HidM & HvM & HvMτ & HtM & Hself & Hp0 & HσM
          & Hn'out & Hn'id & Hn'ty & HM' & _ & HshM).
    change (GetNode G M = Some mn) in HM.
    assert (mn = n') as -> by congruence.
    rewrite Hn'ty in Hch. simpl in Hch.
    destruct (IndexChain_spec _ _ _ _ _ _ _ _ Hch)
      as (Hle & Hty & Htg & Hndc & Hids & Hcops).
    assert (ρ !! M = Some vM) as HρM.
    { specialize (HVd nM HnMd). rewrite HidM, HσM in HVd. congruence. }
    assert ((M < next)%N) as HMlt.
    { rewrite <- Hn'id. by apply Hlt. }
    destruct (IndexChain_eval other_sem args prefix M (type_ nM) next chain target
                (type_ n0) next' ρ vM Hch HMlt HρM HvMτ) as (ρ' & u & Hevc & Hρtg & Hu).
    assert (u = vN) as ->.
    { destruct (value_has_type_subvalue prefix vM _ _ HvMτ Hty) as (u' & Hu' & Huτ).
      assert (u' = u) as -> by congruence.
      apply (value_ext (type_ n0)); [done | done |].
      intros p Hp. apply (has_shape_leaf_at _ t p Hsh) in Hp as [s Hs].
      pose proof (Hall p s Hs) as ->.
      destruct (Hsrc p _ Hs) as (_ & vM' & _ & u' & _ & _ & HvM' & _ & _ & _ & HuN & HuM).
      simpl in HvM', HuM. assert (vM' = vM) as -> by congruence.
      rewrite subvalue_app, Hu in HuM. simpl in HuM. congruence. }
    assert (∀ a, a ∈ map id_ chain → (next ≤ a < next')%N) as Hcid.
    { intros a (c & Hc & <-)%elem_of_ids. by apply Hids. }
    assert (∀ a, a ∈ map id_ out → (a < next)%N) as Hoid.
    { intros a (c & Hc & <-)%elem_of_ids. by apply Hlt. }
    assert (target ≠ id_ n0) as Htgne.
    { destruct Htg as [->|Htg]; [done|]. specialize (Hcid _ Htg). lia. }
    set (g := λ o : N, if bool_decide (o = id_ n0) then target else o).
    exists (out ++ chain), (g ∘ σ), ρ'. unfold rw_inv_at. simpl.
    split. { rewrite <- app_assoc. do 2 f_equal. rewrite map_map.
             apply map_ext. intros n1. by rewrite replace_operand_rename, rename_rename. }
    split. { unfold g. by rewrite Hret. }
    split; [lia|].
    split. { intros n1 [Hn1|Hn1]%elem_of_app.
             - specialize (Hlt n1 Hn1). lia.
             - specialize (Hids n1 Hn1). lia. }
    split. { rewrite map_app. apply NoDup_app. split; [done|]. split; [|done].
             intros a Ha Hc. specialize (Hoid a Ha). specialize (Hcid a Hc). lia. }
    split. { intros n1 Hn1. rewrite map_app, elem_of_app. intros [?|Hc].
             - apply (Htodo n1); [by right | done].
             - specialize (Hcid _ Hc).
               assert (n1 ∈ nodes_ f0) as Hn1f.
               { rewrite Hsplit. apply elem_of_app. right. by right. }
               pose proof (verified_id_lt f0 HV n1 Hn1f). lia. }
    split. { intros n1 o [Hn1|Hn1]%elem_of_app Ho; rewrite map_app, elem_of_app.
             - left. by eapply Hscope.
             - destruct (Hcops n1 o Hn1 Ho) as [->|?]; [left | by right].
               rewrite <- Hn'id. by apply list_elem_of_fmap_2. }
    split. { rewrite eval_nodes_app, Hev. simpl. done. }
    split. { intros nd [Hd| ->%list_elem_of_singleton]%elem_of_app; simpl.
             - pose proof (Hσout nd Hd) as Hso.
               assert (g (σ (id_ nd)) = σ (id_ nd)) as ->.
               { unfold g. rewrite bool_decide_eq_false_2; [done|]. intros Heq.
                 by rewrite Heq in Hso. }
               rewrite <- (HVd nd Hd).
               apply (eval_nodes_lookup_other other_sem args chain ρ ρ' _ Hevc).
               intros Hc. specialize (Hoid _ Hso). specialize (Hcid _ Hc). lia.
             - rewrite (HVt n0) by (by left). unfold g.
               rewrite bool_decide_eq_true_2 by done. congruence. }
    split. { intros n1 Hn1. simpl. rewrite (HVt n1) by (by right). unfold g.
             rewrite bool_decide_eq_false_2; [done|]. by apply Htodo_ne. }
    split.
    { intros nd t1 p1 [Hd| ->%list_elem_of_singleton]%elem_of_app Ht1 Hsa1.
      2: { assert (t1 = t) as -> by congruence. specialize (Hall _ _ Hsa1).
           injection Hall as Hall _. congruence. }
      destruct (HK nd t1 p1 Hd Ht1 Hsa1) as (Hσd & n1 & ? & ? & ?). simpl.
      split.
      + rewrite Hσd. unfold g. rewrite bool_decide_eq_false_2; [done|]. by apply Hdone_ne.
      + exists n1. split; [|done]. apply elem_of_app. by left. }
    intros Hst.
    apply (st_inv_replace done todo out n0 nM n' σ next t tM M prefix chain target next');
      try done.
    + apply HVt. by left.
    + intros p Hp. destruct (Hsrc p _ Hp) as (_ & _ & tM' & _ & _ & _ & _ & _ & HtM' & Hc & _).
      simpl in HtM', Hc. congruence.
    + by apply HS.
Qed.

Lemma rw_run (todo : list Node) : ∀ (done : list Node) (G G' : FunctionBase)
    (changed : bool) (st : StatusOr bool),
  nodes_ f0 = done ++ todo →
  rw_inv done todo G →
  RewriteNodes m (map id_ todo) G changed = (G', st) →
  (∃ c, st = Ok c) ∧ rw_inv (nodes_ f0) [] G'.
Proof.
  induction todo as [|n0 todo IH]; intros done G G' changed st Hsplit Hinv HR; simpl in HR.
  - injection HR as <- <-. rewrite app_nil_r in Hsplit. rewrite Hsplit. eauto.
  - destruct (RewriteNode m (id_ n0) G) as [G1 st1] eqn:Hstep.
    destruct (rw_step done todo n0 G G1 st1 Hsplit Hinv Hstep) as (c & -> & Hinv1).
    apply (IH (done ++ [n0]) G1 G' (changed || c) st); [|done|done].
    by rewrite <- app_assoc.
Qed.
End RewritePhase.

(** ** Soundness of the pass *)

Section PassSoundness.
Context (other_sem : string → list Value → Ty → Value).
Context (args : NodePtr → Value).
Hypothesis other_sem_typed :
  ∀ tag vs τ, value_has_type (other_sem tag vs τ) τ = true.

Lemma eval_nodes_typed (next : N) (ns : list Node) :
  ∀ (seen : gmap N Ty) (ρ : gmap N Value),
  env_typed seen ρ → VerifyNodes next seen ns = true → args_typed_on args ns →
  ∃ ρ', eval_nodes other_sem args ρ ns = Some ρ' ∧ env_typed (seen_after ns seen) ρ'.
Proof.
  induction ns as [|n ns IH]; intros seen ρ Henv HVn Hargs; simpl in *.
  - by exists ρ.
  - apply andb_true_iff in HVn as [HVn HVns].
    destruct (eval_node_typed other_sem args other_sem_typed next seen ρ n Henv HVn)
      as (v & -> & Hv).
    { apply Hargs. by left. }
    simpl. apply IH; [|done|].
    + intros a. destruct (decide (a = id_ n)) as [->|Hne].
      * rewrite !lookup_insert_eq. eauto.
      * rewrite !lookup_insert_ne by done. apply Henv.
    + intros n' Hn'. apply Hargs. by right.
Qed.

Lemma verified_interpret (f : FunctionBase) :
  VerifyFunction f = true → args_typed args f = true →
  ∃ ρ0 v, eval_nodes other_sem args ∅ (nodes_ f) = Some ρ0 ∧
          ρ0 !! return_value_ f = Some v ∧
          InterpretFunction other_sem args f = Some v.
Proof.
  intros HV Hargs.
  destruct (eval_nodes_typed (next_node_id_ f) (nodes_ f) ∅ ∅)
    as (ρ0 & Hev & _).
  { intros a. by rewrite !lookup_empty. }
  { by apply verified_nodes. }
  { apply (verified_args args f Hargs). by intros n Hn. }
  pose proof (verified_return f HV) as (nr & Hnr & Hid)%elem_of_ids.
  destruct (eval_fix other_sem args f ρ0 HV Hev nr Hnr) as (v & Hv & _).
  rewrite Hid in Hv. exists ρ0, v. do 2 (split; [done|]).
  unfold InterpretFunction. by rewrite Hev.
Qed.

(** C1. For every well-typed graph and every valuation of its parameters,
    the function computed by the graph before the pass and the function
    computed by the graph the pass leaves behind (whatever status it
    returns) are the same. *)
Theorem DataflowSimplificationPass_sound (f f' : FunctionBase) (st : StatusOr bool) :
  VerifyFunction f = true →
  args_typed args f = true →
  RunOnFunctionBaseInternal f = (f', st) →
  ∃ v, InterpretFunction other_sem args f = Some v ∧
       InterpretFunction other_sem args f' = Some v.
Proof.
  intros HV Hargs Hrun.
  destruct (verified_interpret f HV Hargs) as (ρ0 & v & Hev0 & Hv & Hf).
  exists v. split; [done|]. unfold RunOnFunctionBaseInternal in Hrun.
  destruct (Accept f) as [m|c] eqn:HAcc; [|by injection Hrun as <- <-].
  destruct (rw_run other_sem args f m ρ0 other_sem_typed HV Hargs HAcc Hev0
              (nodes_ f) [] f f' false st eq_refl) as (_ & Hinv);
    [|done|].
  { exact (rw_inv_init other_sem args f m ρ0). }
  rewrite (rw_inv_interpret other_sem args f m ρ0 HV Hev0 (nodes_ f) [] f'); [done| |done].
  by rewrite app_nil_r.
Qed.
End PassSoundness.

Lemma DataflowSimplificationPass_sound_witness :
  let u8 := BitsType 8 in
  let f := MkFunctionBase
    [MkNode 1 "z" kParam [] (TupleType [u8; ArrayType 2 u8]);
     MkNode 2 "x" kParam [] u8;
     MkNode 3 "a" (kTupleIndex 1) [1%N] (ArrayType 2 u8);
     MkNode 4 "one" (kLiteral (VBits 1)) [] (BitsType 1);
     MkNode 5 "b" kArrayIndex [3%N; 4%N] u8;
     MkNode 6 "t" kTuple [5%N; 2%N] (TupleType [u8; u8]);
     MkNode 7 "r" (kTupleIndex 0) [6%N] u8;
     MkNode 8 "s" kSel [4%N; 2%N; 7%N] u8] 8 9 in
  let args := λ p : N, if (p =? 1)%N then VTuple [VBits 7; VArray [VBits 3; VBits 9]]
                       else VBits 5 in
  let other_sem := λ (_ : string) (_ : list Value) τ, ZeroOfType τ in
  (∀ tag vs τ, value_has_type (other_sem tag vs τ) τ = true) ∧
  VerifyFunction f = true ∧
  args_typed args f = true ∧
  snd (RunOnFunctionBaseInternal f) = Ok true ∧
  ∃ v, InterpretFunction other_sem args f = Some v ∧
       InterpretFunction other_sem args (fst (RunOnFunctionBaseInternal f)) = Some v.
Proof.
  intros u8 f args other_sem.
  assert (∀ tag vs τ, value_has_type (other_sem tag vs τ) τ = true) as Hsem.
  { intros tag vs τ. apply value_has_type_ZeroOfType. }
  split; [exact Hsem|]. split; [vm_compute; reflexivity|].
  split; [vm_compute; reflexivity|]. split; [vm_compute; reflexivity|].
  apply (DataflowSimplificationPass_sound other_sem args Hsem f
           (fst (RunOnFunctionBaseInternal f)) (snd (RunOnFunctionBaseInternal f))).
  - vm_compute. reflexivity.
  - vm_compute. reflexivity.
  - vm_compute. reflexivity.
Defined.

(** ** Error atomicity *)

Lemma zero_sem_typed (tag : string) (vs : list Value) (τ : Ty) :
  value_has_type (zero_sem tag vs τ) τ = true.
Proof. apply value_has_type_ZeroOfType. Qed.

Lemma zero_args_typed (f : FunctionBase) :
  VerifyFunction f = true → args_typed (zero_args f) f = true.
Proof.
  intros HV. apply forallb_Forall, Forall_forall. intros n Hn.
  destruct (op_ n); try done. unfold zero_args.
  rewrite (verified_GetNode f HV n Hn). apply value_has_type_ZeroOfType.
Qed.




(** ** Fixed points of the pass *)

(** C2, counterexample. On a well-typed graph the second run still rewrites:
    after the first run the index of [r] is a literal, and the second run
    redirects the uses of [r] to [y] and returns true. *)
Lemma second_run_changes_graph :
  let f1 := fst (RunOnFunctionBaseInternal idempotence_example) in
  VerifyFunction idempotence_example = true ∧
  snd (RunOnFunctionBaseInternal idempotence_example) = Ok true ∧
  snd (RunOnFunctionBaseInternal f1) = Ok true ∧
  fst (RunOnFunctionBaseInternal f1) ≠ f1 ∧
  return_value_ f1 = 6%N ∧
  return_value_ (fst (RunOnFunctionBaseInternal f1)) = 4%N.
Proof. vm_compute. repeat split; done. Qed.

(** C2, amended. On a well-typed graph whose analysis succeeds and finds
    no index operand of an array operation, other than a literal, to have a
    literal as its provenance, the pass is idempotent: the first run
    succeeds, and a second run on the graph it leaves performs no rewrite,
    returns false and leaves that graph as it is. *)
Theorem second_run_is_noop (f : FunctionBase) (m : gmap N (LeafTypeTree NodeSource)) :
  VerifyFunction f = true → Accept f = Ok m → literal_stable f m = true →
  ∃ f1 c, RunOnFunctionBaseInternal f = (f1, Ok c) ∧
          RunOnFunctionBaseInternal f1 = (f1, Ok false).
Proof.
  intros HV HAcc Hst. pose proof (zero_args_typed f HV) as Hargs.
  destruct (verified_interpret zero_sem (zero_args f) zero_sem_typed f HV Hargs)
    as (ρ0 & v & Hev0 & _ & _).
  destruct (RewriteNodes m (map id_ (nodes_ f)) f false) as [f1 st] eqn:HR.
  destruct (rw_run zero_sem (zero_args f) f m ρ0 zero_sem_typed HV Hargs HAcc Hev0
              (nodes_ f) [] f f1 false st eq_refl) as ([c ->] & Hinv); [|done|].
  { exact (rw_inv_init zero_sem (zero_args f) f m ρ0). }
  exists f1, c. split.
  { unfold RunOnFunctionBaseInternal. by rewrite HAcc. }
  destruct Hinv as (out & σ & ρ & Hnodes & _ & _ & _ & Hnd & _ & _ & _ & _ & _ & _ & HS).
  simpl in Hnodes. rewrite app_nil_r in Hnodes.
  destruct (HS Hst) as (mo & Hvis & _ & _ & Hsettled).
  unfold RunOnFunctionBaseInternal, Accept.
  rewrite (VisitNodes_ext f1 (MkFunctionBase out 0 0) (nodes_ f1) ∅), Hnodes, Hvis.
  2:{ intros n a _ _. by apply GetNode_nodes. }
  apply RewriteNodes_all_keep. intros p (n & Hn & <-)%elem_of_ids.
  apply settled_sound; rewrite ?Hnodes; auto.
Qed.

Lemma second_run_is_noop_witness :
  let u8 := BitsType 8 in
  let f := MkFunctionBase
    [MkNode 1 "z" kParam [] (TupleType [u8; ArrayType 2 u8]);
     MkNode 2 "x" kParam [] u8;
     MkNode 3 "a" (kTupleIndex 1) [1%N] (ArrayType 2 u8);
     MkNode 4 "one" (kLiteral (VBits 1)) [] (BitsType 1);
     MkNode 5 "b" kArrayIndex [3%N; 4%N] u8;
     MkNode 6 "t" kTuple [5%N; 2%N] (TupleType [u8; u8]);
     MkNode 7 "r" (kTupleIndex 0) [6%N] u8;
     MkNode 8 "i" kIdentity [2%N] u8;
     MkNode 9 "k" kArrayIndex [3%N; 8%N] u8;
     MkNode 10 "s" kSel [4%N; 9%N; 7%N] u8] 10 11 in
  let m := match Accept f with Ok m => m | Err _ => ∅ end in
  VerifyFunction f = true ∧ Accept f = Ok m ∧ literal_stable f m = true ∧
  snd (RunOnFunctionBaseInternal f) = Ok true ∧
  ∃ f1 c, RunOnFunctionBaseInternal f = (f1, Ok c) ∧
          RunOnFunctionBaseInternal f1 = (f1, Ok false).
Proof.
  intros u8 f m. split; [vm_compute; reflexivity|]. split; [vm_compute; reflexivity|].
  split; [vm_compute; reflexivity|]. split; [vm_compute; reflexivity|].
  apply (second_run_is_noop f m); vm_compute; reflexivity.
Defined.

(** ** Scenarios *)

Lemma VisitNodes_default (f : FunctionBase) (users : list Node) :
  ∀ m : gmap N (LeafTypeTree NodeSource),
  Forall (λ u, is_default_op (op_ u) = true) users →
  NoDup (map id_ users) →
  ∃ m', VisitNodes f users m = Ok m' ∧
        (∀ a, a ∉ map id_ users → m' !! a = m !! a) ∧
        (∀ u, u ∈ users → ∃ tu, m' !! id_ u = Some tu ∧ self_describing u tu).
Proof.
  induction users as [|u users IH]; intros m Hall Hnd; simpl.
  - exists m. split; [done|]. split; [done|]. by intros u ?%elem_of_nil.
  - apply Forall_cons in Hall as [Hu Hall]. apply NoDup_cons in Hnd as [Hu' Hnd].
    rewrite (VisitNode_default f u m Hu).
    destruct (DefaultHandler_Ok u m) as (tu & -> & Hself). rewrite bind_Ok.
    destruct (IH (<[id_ u := tu]> m) Hall Hnd) as (m' & -> & Hother & Husers).
    exists m'. split; [done|]. split.
    + intros a Ha. rewrite Hother.
      * apply lookup_insert_ne. intros Heq. apply Ha. rewrite <- Heq. by left.
      * intros ?. apply Ha. by right.
    + intros u' [->|Hu'']%elem_of_cons; [|by apply Husers].
      exists tu. split; [|done]. rewrite Hother by done. apply lookup_insert_eq.
Qed.

(** A container built from children that describe themselves has no single
    ancestor: the paths of its leaves are longer than the paths of their
    sources. *)
Lemma aggregate_no_ancestor (n : N) (cs : list (LeafTypeTree NodeSource)) :
  (∀ c p s, c ∈ cs → leaf_at p c = Some s → tree_index s = p) →
  common_origin n (Branch cs) = None.
Proof.
  intros Hcs. destruct (common_origin n (Branch cs)) as [[M prefix]|] eqn:H; [|done].
  apply common_origin_Some in H as (_ & ([|i p] & Hp0) & _); [done|].
  rewrite leaf_at_cons in Hp0. simpl in Hp0.
  destruct (nth_z cs i) as [c|] eqn:Hc; [|done]. simpl in Hp0.
  apply nth_z_Some in Hc as [_ Hc%list_elem_of_lookup_2].
  pose proof (Hcs c p _ Hc Hp0) as Hlen. simpl in Hlen.
  apply (f_equal length) in Hlen. rewrite length_app in Hlen. simpl in Hlen. lia.
Qed.

(** A container that is the self-describing container of another node has
    that node as its single ancestor, at the empty prefix. *)
Lemma self_describing_ancestor (r : N) (n : Node) (t : LeafTypeTree NodeSource) :
  self_describing n t → (∃ p, is_leaf_path (GetType n) p) → r ≠ id_ n →
  common_origin r t = Some (id_ n, []).
Proof.
  intros (Hsh & Hpaths & Hall) [p Hp] Hne. unfold common_origin.
  destruct (leaves t) as [|[p0 s0] ls] eqn:Hls.
  { pose proof (Hpaths p Hp) as Hl%elem_of_leaves. rewrite Hls in Hl.
    by apply elem_of_nil in Hl. }
  assert (∀ q s, (q, s) ∈ leaves t → s = MkNodeSource (id_ n) q) as Hleaves.
  { intros q s Hq%elem_of_leaves. by apply Hall. }
  rewrite (Hleaves p0 s0) by (rewrite Hls; by left). simpl.
  rewrite bool_decide_eq_false_2 by done.
  assert (strip_suffix p0 p0 = Some []) as ->.
  { unfold strip_suffix. rewrite Nat.sub_diag. simpl. by rewrite bool_decide_eq_true_2. }
  cbn [mbind option_bind]. rewrite NodeSource_eq_refl. simpl.
  assert (forallb (λ '(q, s), NodeSource_eq s (MkNodeSource (id_ n) q)) ls = true)
    as ->; [|done].
  apply forallb_Forall, Forall_forall. intros [q s] Hq. apply NodeSource_eq_eq.
  apply Hleaves. rewrite Hls. by right.
Qed.

Lemma RewriteNode_keep (m : gmap N (LeafTypeTree NodeSource)) (p : N) (f : FunctionBase)
    (t : LeafTypeTree NodeSource) :
  is_Some (GetNode f p) → m !! p = Some t → common_origin p t = None →
  RewriteNode m p f = (f, Ok false).
Proof.
  intros [n Hn] Ht Hsa. unfold RewriteNode. rewrite Hn, Ht.
  pose proof (GetNode_Some _ _ _ Hn) as [_ Hid].
  unfold single_ancestor. by rewrite Hid, Hsa.
Qed.

Lemma RewriteNodes_keep (m : gmap N (LeafTypeTree NodeSource)) (f : FunctionBase)
    (order : list N) : ∀ changed : bool,
  (∀ p, p ∈ order →
     is_Some (GetNode f p) ∧ ∃ t, m !! p = Some t ∧ common_origin p t = None) →
  RewriteNodes m order f changed = (f, Ok changed).
Proof.
  induction order as [|p order IH]; intros changed H; simpl; [done|].
  destruct (H p) as (Hn & t & Ht & Hsa); [by left|].
  rewrite (RewriteNode_keep m p f t Hn Ht Hsa), orb_false_r.
  apply IH. intros p' Hp'. apply H. by right.
Qed.

Lemma RewriteNodes_app (m : gmap N (LeafTypeTree NodeSource)) (order order' : list N) :
  ∀ (f : FunctionBase) (changed : bool),
  RewriteNodes m (order ++ order') f changed
  = match RewriteNodes m order f changed with
    | (f', Ok c) => RewriteNodes m order' f' c
    | (f', Err e) => (f', Err e)
    end.
Proof.
  induction order as [|p order IH]; intros f changed; simpl; [done|].
  destruct (RewriteNode m p f) as [f1 [c|e]]; [apply IH | done].
Qed.

Lemma has_users_replaced (out rest : list Node) (ret next old new : N) :
  new ≠ old → (∀ n, n ∈ out → old ∉ operands_ n) →
  has_users old
    (MkFunctionBase (out ++ map (replace_operand old new) rest)
                    (if bool_decide (ret = old) then new else ret) next) = false.
Proof.
  intros Hne Hout. unfold has_users. simpl. apply orb_false_iff. split.
  - apply not_true_iff_false. intros (n' & Hn' & Hu%bool_decide_eq_true)%existsb_exists.
    apply list_elem_of_In in Hn'. apply elem_of_app in Hn' as [Hn'|Hn'].
    + by apply (Hout n').
    + apply list_elem_of_fmap_1 in Hn' as (n'' & -> & _).
      by apply replace_operand_not_elem in Hu.
  - apply bool_decide_eq_false. case_bool_decide; congruence.
Qed.

(** C5. For [t = tuple(x, y); r = tuple_index(t, 1)] the pass redirects
    every use of [r] to [y] and detaches [r]: in the graph it leaves, the
    users have [y] where they had [r], and [r] has no remaining use. *)
Theorem tuple_index_of_tuple_redirected (x y t r : N) (τx τy : Ty)
    (users : list Node) (ret next : N) :
  NoDup (x :: y :: t :: r :: map id_ users) →
  (∃ p, is_leaf_path τy p) →
  Forall (λ u, is_default_op (op_ u) = true) users →
  RunOnFunctionBaseInternal (tuple_index_scenario x y t r τx τy users ret next)
  = (tuple_index_scenario_after x y t r τx τy users ret next, Ok true)
  ∧ has_users r (tuple_index_scenario_after x y t r τx τy users ret next) = false
  ∧ GetNode (tuple_index_scenario_after x y t r τx τy users ret next) r = None.
Proof.
  intros Hnd Hleaf Husers.
  apply NoDup_cons in Hnd as [Hx Hnd]. apply NoDup_cons in Hnd as [Hy Hnd].
  apply NoDup_cons in Hnd as [Ht Hnd]. apply NoDup_cons in Hnd as [Hr Hnd].
  rewrite !not_elem_of_cons in Hx. rewrite !not_elem_of_cons in Hy.
  rewrite !not_elem_of_cons in Ht.
  destruct Hx as (Hxy & Hxt & Hxr & Hxu), Hy as (Hyt & Hyr & Hyu), Ht as (Htr & Htu).
  set (X := MkNode x "x" kParam [] τx). set (Y := MkNode y "y" kParam [] τy).
  set (T := MkNode t "t" kTuple [x; y] (TupleType [τx; τy])).
  set (R := MkNode r "r" (kTupleIndex 1) [t] τy).
  set (f := tuple_index_scenario x y t r τx τy users ret next).
  set (f' := tuple_index_scenario_after x y t r τx τy users ret next).
  (* phase 1 *)
  destruct (DefaultHandler_Ok X ∅) as (tx & HX & Hsx). change (id_ X) with x in HX.
  destruct (DefaultHandler_Ok Y (<[x := tx]> ∅)) as (ty & HY & Hsy).
  change (id_ Y) with y in HY.
  destruct (VisitNodes_default f users
              (<[r := ty]> (<[t := Branch [tx; ty]]> (<[y := ty]> (<[x := tx]> ∅))))
              Husers Hnd) as (m & Hm & Hother & Hmu).
  assert (Accept f = Ok m) as HAcc.
  { unfold Accept. change (nodes_ f) with (X :: Y :: T :: R :: users).
    destruct Hsx as (Hshx & _), Hsy as (Hshy & _). simpl in Hshx, Hshy.
    rewrite VisitNodes_cons, (VisitNode_default f X), HX, bind_Ok by done.
    rewrite VisitNodes_cons, (VisitNode_default f Y), HY, bind_Ok by done.
    rewrite VisitNodes_cons.
    assert (VisitNode f T (<[y := ty]> (<[x := tx]> ∅))
            = Ok (<[t := Branch [tx; ty]]> (<[y := ty]> (<[x := tx]> ∅)))) as ->.
    { unfold VisitNode, HandleAggregate, SetValue. simpl.
      rewrite (lookup_insert_ne _ y x) by congruence. rewrite !lookup_insert_eq. simpl.
      by rewrite Hshx, Hshy. }
    rewrite bind_Ok, VisitNodes_cons.
    assert (VisitNode f R (<[t := Branch [tx; ty]]> (<[y := ty]> (<[x := tx]> ∅)))
            = Ok (<[r := ty]> (<[t := Branch [tx; ty]]> (<[y := ty]> (<[x := tx]> ∅)))))
      as ->.
    { unfold VisitNode, HandleTupleIndex, SetValue, GetValue. simpl.
      rewrite lookup_insert_eq. simpl. by rewrite Hshy. }
    by rewrite bind_Ok. }
  assert (m !! x = Some tx ∧ m !! y = Some ty ∧ m !! t = Some (Branch [tx; ty])
          ∧ m !! r = Some ty) as (Hmx & Hmy & Hmt & Hmr).
  { rewrite (Hother x Hxu), (Hother y Hyu), (Hother t Htu), (Hother r Hr).
    rewrite lookup_insert_eq.
    rewrite (lookup_insert_ne _ r t), lookup_insert_eq by congruence.
    rewrite (lookup_insert_ne _ r y), (lookup_insert_ne _ t y), lookup_insert_eq
      by congruence.
    rewrite (lookup_insert_ne _ r x), (lookup_insert_ne _ t x), (lookup_insert_ne _ y x),
      lookup_insert_eq by congruence.
    done. }
  (* phase 2 *)
  assert (r ∉ map id_ [X; Y; T]) as Hr3.
  { simpl. rewrite !not_elem_of_cons. repeat split; try congruence. apply not_elem_of_nil. }
  assert (∀ n', n' ∈ [X; Y; T] → r ∉ operands_ n') as Hops.
  { intros n'. rewrite !elem_of_cons, elem_of_nil.
    intros [->|[->|[->|[]]]]; simpl; rewrite ?not_elem_of_cons; repeat split;
      try congruence; apply not_elem_of_nil. }
  assert (RunOnFunctionBaseInternal f = (f', Ok true)) as Hrun.
  { unfold RunOnFunctionBaseInternal. rewrite HAcc.
    change (map id_ (nodes_ f)) with ([x; y; t] ++ [r] ++ map id_ users).
    rewrite RewriteNodes_app, (RewriteNodes_keep m f [x; y; t] false).
    2:{ intros p Hp. split.
        - apply GetNode_elem. change (map id_ (nodes_ f)) with ([x; y; t] ++ r :: map id_ users).
          apply elem_of_app. by left.
        - apply elem_of_cons in Hp as [->|Hp]; [|apply elem_of_cons in Hp as [->|Hp]].
          + exists tx. split; [done|]. by apply (self_describing_no_ancestor X).
          + exists ty. split; [done|]. by apply (self_describing_no_ancestor Y).
          + apply list_elem_of_singleton in Hp as ->. exists (Branch [tx; ty]).
            split; [done|]. apply aggregate_no_ancestor. intros c p s Hc Hs.
            destruct Hsx as (_ & _ & Hax), Hsy as (_ & _ & Hay).
            apply elem_of_cons in Hc as [->|Hc]; [by rewrite (Hax p s Hs)|].
            apply list_elem_of_singleton in Hc as ->. by rewrite (Hay p s Hs). }
    rewrite RewriteNodes_app. simpl RewriteNodes at 1.
    assert (RewriteNode m r f = (f', Ok true)) as ->.
    { unfold RewriteNode.
      rewrite (GetNode_head [X; Y; T] users R ret next Hr3 : GetNode f r = Some R).
      rewrite Hmr. unfold single_ancestor. change (id_ R) with r.
      rewrite (self_describing_ancestor r Y ty Hsy Hleaf) by (simpl; congruence).
      assert (GetNode f (id_ Y) = Some Y) as ->.
      { unfold GetNode, f, tuple_index_scenario. simpl.
        by rewrite bool_decide_eq_false_2, bool_decide_eq_true_2. }
      cbn [ret_check]. rewrite bind_Ok. unfold GetType. cbn [type_at ret_check].
      rewrite bind_Ok. change (type_ Y) with τy. change (type_ R) with τy.
      rewrite Ty_eqb_refl. cbn [rev is_index_chain]. change (id_ Y) with y.
      rewrite (bool_decide_eq_false_2 (r = y)) by congruence.
      rewrite bool_decide_eq_true_2 by done. f_equal.
      apply (replace_and_detach [X; Y; T] users R ret next y); [simpl; congruence|done..]. }
    apply RewriteNodes_keep. intros p Hp.
    apply elem_of_ids in Hp as (u & Hu & <-). split.
    - apply GetNode_elem.
      change (map id_ (nodes_ f'))
        with ([x; y; t] ++ map id_ (map (replace_operand r y) users)).
      apply elem_of_app. right. rewrite map_id_replace_operand.
      by apply list_elem_of_fmap_2.
    - destruct (Hmu u Hu) as (tu & Hmtu & Hsu). exists tu. split; [done|].
      by apply self_describing_no_ancestor. }
  split; [done|]. split.
  - apply (has_users_replaced [X; Y; T] users ret next r y); [congruence | done].
  - unfold GetNode. apply find_id_None.
    change (map id_ (nodes_ f')) with (map id_ [X; Y; T] ++ map id_ (map (replace_operand r y) users)).
    rewrite map_id_replace_operand, elem_of_app. by intros [?|?].
Qed.

Lemma tuple_index_of_tuple_redirected_witness :
  let u32 := BitsType 32 in
  let users := [MkNode 5 "u" (kOther "add") [4%N; 1%N] u32;
                MkNode 6 "w" (kOther "neg") [4%N] u32] in
  NoDup (1 :: 2 :: 3 :: 4 :: map id_ users)%N ∧
  (∃ p, is_leaf_path (TupleType [u32; u32]) p) ∧
  Forall (λ u, is_default_op (op_ u) = true) users ∧
  RunOnFunctionBaseInternal
    (tuple_index_scenario 1 2 3 4 u32 (TupleType [u32; u32]) users 4 7)
  = (tuple_index_scenario_after 1 2 3 4 u32 (TupleType [u32; u32]) users 4 7, Ok true)
  ∧ has_users 4 (tuple_index_scenario_after 1 2 3 4 u32 (TupleType [u32; u32]) users 4 7)
    = false
  ∧ GetNode (tuple_index_scenario_after 1 2 3 4 u32 (TupleType [u32; u32]) users 4 7) 4
    = None.
Proof.
  intros u32 users.
  assert (NoDup (1 :: 2 :: 3 :: 4 :: map id_ users)%N) as Hnd.
  { apply (bool_decide_eq_true_1 _). vm_compute. reflexivity. }
  assert (∃ p, is_leaf_path (TupleType [u32; u32]) p) as Hleaf.
  { exists [0]. exists 32%N. reflexivity. }
  assert (Forall (λ u, is_default_op (op_ u) = true) users) as Hd.
  { repeat constructor. }
  split; [exact Hnd|]. split; [exact Hleaf|]. split; [exact Hd|].
  apply (tuple_index_of_tuple_redirected 1 2 3 4 u32 (TupleType [u32; u32]) users 4 7
           Hnd Hleaf Hd).
Defined.

Lemma Join_two_leaves (w : N) (a b : NodeSource) (control : list (LeafTypeTree NodeSource))
    (n : N) (index : list Z) :
  a ≠ b →
  Join (BitsType w) [Leaf a; Leaf b] control n index = Ok (Leaf (MkNodeSource n index)).
Proof.
  intros Hne. unfold Join, ForEachIndex. simpl.
  rewrite NodeSource_eq_refl. simpl.
  destruct (NodeSource_eq b a) eqn:Hba.
  - apply NodeSource_eq_eq in Hba. congruence.
  - simpl. by rewrite app_nil_r.
Qed.

Lemma self_describing_array (n : Node) (len : nat) (w : N) (t : LeafTypeTree NodeSource) :
  GetType n = ArrayType len (BitsType w) → self_describing n t →
  ∃ cs, t = Branch cs ∧ length cs = len ∧
        ∀ k, (k < len)%nat → cs !! k = Some (Leaf (MkNodeSource (id_ n) [Z.of_nat k])).
Proof.
  intros Hty (Hsh & _ & Hall). rewrite Hty in Hsh.
  destruct t as [s|cs]; [done|]. simpl in Hsh.
  apply andb_true_iff in Hsh as [Hlen%Nat.eqb_eq Hcs%forallb_Forall].
  exists cs. split; [done|]. split; [done|]. intros k Hk.
  destruct (lookup_lt_is_Some_2 cs k) as [c Hc]; [lia|]. rewrite Hc. f_equal.
  pose proof (Forall_lookup_1 _ _ _ _ Hcs Hc) as Hshc.
  destruct c as [s|?]; [|done]. f_equal. apply (Hall [Z.of_nat k] s).
  rewrite leaf_at_cons. simpl. by rewrite nth_z_of_nat, Hc.
Qed.

Lemma self_describing_bits (n : Node) (w : N) (t : LeafTypeTree NodeSource) :
  GetType n = BitsType w → self_describing n t → t = Leaf (MkNodeSource (id_ n) []).
Proof.
  intros Hty (Hsh & _ & Hall). rewrite Hty in Hsh. destruct t as [s|cs]; [|done].
  f_equal. by apply (Hall [] s).
Qed.

(** Membership in a list of numerals. *)
Ltac solve_not_elem :=
  simpl; rewrite ?not_elem_of_cons; repeat split; try lia; apply not_elem_of_nil.

(** C6. For [u = array_update(A, x, {i})] with [i] not a literal and
    [r = array_index(u, {42})], the pass performs no rewrite of [r] (nor of
    any other node: it returns false and leaves the graph as it was). The
    provenance of [r] stays the unresolved join NodeSource(u, {42}) that the
    analysis made at [u], since the update may have hit slot 42. *)
Theorem dynamic_update_not_rewritten (len : nat) (w wi : N) (users : list Node)
    (ret next : N) :
  (42 < len)%nat →
  NoDup (map id_ users) →
  (∀ u, u ∈ users → (6 < id_ u < next)%N) →
  (6 < next)%N →
  Forall (λ u, is_default_op (op_ u) = true) users →
  (∃ m tu, Accept (dynamic_update_scenario len w wi users ret next) = Ok m ∧
           m !! 6%N = Some (Leaf (MkNodeSource 4 [42])) ∧
           m !! 4%N = Some tu ∧ leaf_at [42] tu = Some (MkNodeSource 4 [42])) ∧
  RunOnFunctionBaseInternal (dynamic_update_scenario len w wi users ret next)
  = (dynamic_update_scenario len w wi users ret next, Ok false).
Proof.
  intros Hlen Hnd Hids Hnext Husers.
  set (NA := MkNode 1 "A" kParam [] (ArrayType len (BitsType w))).
  set (NX := MkNode 2 "x" kParam [] (BitsType w)).
  set (NI := MkNode 3 "i" kParam [] (BitsType wi)).
  set (NU := MkNode 4 "u" kArrayUpdate [1; 2; 3]%N (ArrayType len (BitsType w))).
  set (NC := MkNode 5 "c" (kLiteral (VBits 42)) [] (BitsType 6)).
  set (NR := MkNode 6 "r" kArrayIndex [4; 5]%N (BitsType w)).
  set (f := dynamic_update_scenario len w wi users ret next).
  assert (∀ a, (a ≤ 6)%N → a ∉ map id_ users) as Hsmall.
  { intros a Ha (u & Hu & <-)%elem_of_ids. specialize (Hids u Hu). lia. }
  (* phase 1 *)
  destruct (DefaultHandler_Ok NA ∅) as (tA & HA & HsA). change (id_ NA) with 1%N in HA.
  destruct (self_describing_array NA len w tA eq_refl HsA) as (cs & -> & Hcslen & Hcs).
  destruct (DefaultHandler_Ok NX (<[1%N := Branch cs]> ∅)) as (tX & HX & HsX).
  change (id_ NX) with 2%N in HX.
  pose proof (self_describing_bits NX w tX eq_refl HsX) as ->. change (id_ NX) with 2%N in HX.
  set (m2 := <[2%N := Leaf (MkNodeSource 2 [])]> (<[1%N := Branch cs]> ∅)) in *.
  destruct (DefaultHandler_Ok NI m2) as (tI & HI & HsI). change (id_ NI) with 3%N in HI.
  set (m3 := <[3%N := tI]> m2) in *.
  destruct (imapM_is_Ok
              (λ k c, Join (BitsType w) [c; Leaf (MkNodeSource 2 [])] [tI] 4%N [k]) 0 cs)
    as [cs' Hcs'].
  { intros k c Hc. pose proof (lookup_lt_Some _ _ _ Hc) as Hk.
    rewrite Hcs in Hc by lia. injection Hc as <-. rewrite Join_two_leaves by done.
    by eexists. }
  pose proof (imapM_Ok _ _ _ _ Hcs') as [Hlen' Hcs'k].
  assert (∀ k, (k < len)%nat → cs' !! k = Some (Leaf (MkNodeSource 4 [Z.of_nat k]))) as Hcs'v.
  { intros k Hk. destruct (Hcs'k k _ (Hcs k Hk)) as (b & -> & Hb).
    rewrite Join_two_leaves in Hb by done. by injection Hb as <-. }
  set (m4 := <[4%N := Branch cs']> m3) in *.
  destruct (DefaultHandler_Ok NC m4) as (tC & HC & HsC). change (id_ NC) with 5%N in HC.
  set (m5 := <[5%N := tC]> m4) in *.
  set (m6 := <[6%N := Leaf (MkNodeSource 4 [42])]> m5) in *.
  destruct (VisitNodes_default f users m6 Husers Hnd) as (m & Hm & Hother & Hmu).
  assert (GetNode f 3 = Some NI) as HgI.
  { apply (GetNode_head [NA; NX] _ NI ret next). solve_not_elem. }
  assert (GetNode f 4 = Some NU) as HgU.
  { apply (GetNode_head [NA; NX; NI] _ NU ret next). solve_not_elem. }
  assert (GetNode f 5 = Some NC) as HgC.
  { apply (GetNode_head [NA; NX; NI; NU] _ NC ret next). solve_not_elem. }
  assert (Accept f = Ok m) as HAcc.
  { unfold Accept. change (nodes_ f) with (NA :: NX :: NI :: NU :: NC :: NR :: users).
    rewrite VisitNodes_cons, (VisitNode_default f NA), HA, bind_Ok by done.
    rewrite VisitNodes_cons, (VisitNode_default f NX), HX, bind_Ok by done.
    rewrite VisitNodes_cons, (VisitNode_default f NI), HI, bind_Ok by done.
    rewrite VisitNodes_cons.
    assert (VisitNode f NU m3 = Ok m4) as ->.
    { unfold VisitNode, HandleArrayUpdate, GetValue. simpl.
      unfold m3, m2. rewrite (lookup_insert_ne _ 3%N 1%N), (lookup_insert_ne _ 2%N 1%N),
        lookup_insert_eq by done. simpl.
      rewrite (lookup_insert_ne _ 3%N 2%N), lookup_insert_eq by done. simpl.
      rewrite lookup_insert_eq. simpl. rewrite Hcs', bind_Ok.
      unfold SetValue. simpl. rewrite Hlen', Hcslen, Nat.eqb_refl. simpl.
      assert (forallb (λ t : LeafTypeTree NodeSource,
                         match t with Leaf _ => true | Branch _ => false end) cs' = true)
        as ->; [|done].
      apply forallb_Forall, Forall_lookup. intros k c Hc.
      pose proof (lookup_lt_Some _ _ _ Hc) as Hk. rewrite Hcs'v in Hc by lia.
      by injection Hc as <-. }
    rewrite bind_Ok, VisitNodes_cons, (VisitNode_default f NC), HC, bind_Ok by done.
    rewrite VisitNodes_cons.
    assert (VisitNode f NR m5 = Ok m6) as ->.
    { unfold VisitNode, HandleArrayIndex, GetValue. simpl.
      unfold m5, m4. rewrite (lookup_insert_ne _ 5%N 4%N) by done.
      rewrite !lookup_insert_eq. simpl.
      assert (in_range 42 cs' = true) as ->.
      { apply bool_decide_eq_true. lia. }
      unfold nth_z. simpl. change (Z.to_nat 42) with 42%nat.
      rewrite (Hcs'v 42%nat) by lia. simpl. done. }
    by rewrite bind_Ok. }
  assert (m !! 1%N = Some (Branch cs) ∧ m !! 2%N = Some (Leaf (MkNodeSource 2 []))
          ∧ m !! 3%N = Some tI ∧ m !! 4%N = Some (Branch cs') ∧ m !! 5%N = Some tC
          ∧ m !! 6%N = Some (Leaf (MkNodeSource 4 [42])))
    as (Hm1 & Hm2 & Hm3 & Hm4 & Hm5 & Hm6).
  { rewrite !Hother by (apply Hsmall; lia). unfold m6, m5, m4, m3, m2.
    repeat split; repeat (rewrite lookup_insert_ne by done); by rewrite lookup_insert_eq. }
  assert (leaf_at [42] (Branch cs') = Some (MkNodeSource 4 [42])) as Hleaf42.
  { rewrite leaf_at_cons. simpl. unfold nth_z. simpl. change (Z.to_nat 42) with 42%nat.
    by rewrite (Hcs'v 42%nat) by lia. }
  split. { exists m, (Branch cs'). done. }
  (* phase 2 *)
  unfold RunOnFunctionBaseInternal. rewrite HAcc.
  change (map id_ (nodes_ f)) with ([1; 2; 3; 4; 5]%N ++ [6%N] ++ map id_ users).
  rewrite RewriteNodes_app, (RewriteNodes_keep m f [1; 2; 3; 4; 5]%N false).
  2:{ intros p Hp. split.
      - apply GetNode_elem.
        change (map id_ (nodes_ f)) with ([1; 2; 3; 4; 5]%N ++ 6%N :: map id_ users).
        apply elem_of_app. by left.
      - rewrite !elem_of_cons, elem_of_nil in Hp.
        destruct Hp as [->|[->|[->|[->|[->|[]]]]]].
        + exists (Branch cs). split; [done|]. by apply (self_describing_no_ancestor NA).
        + exists (Leaf (MkNodeSource 2 [])). split; [done|].
          by apply (self_describing_no_ancestor NX).
        + exists tI. split; [done|]. by apply (self_describing_no_ancestor NI).
        + exists (Branch cs'). split; [done|].
          by apply (common_origin_None_self 4 _ [42] (MkNodeSource 4 [42])).
        + exists tC. split; [done|]. by apply (self_describing_no_ancestor NC). }
  rewrite RewriteNodes_app. simpl RewriteNodes at 1.
  assert (GetNode f 6 = Some NR) as HgR.
  { apply (GetNode_head [NA; NX; NI; NU; NC] _ NR ret next). solve_not_elem. }
  assert (RewriteNode m 6 f = (f, Ok false)) as ->.
  { unfold RewriteNode. rewrite HgR, Hm6. unfold single_ancestor.
    change (common_origin (id_ NR) (Leaf (MkNodeSource 4 [42]))) with (Some (4%N, [42])).
    cbv iota beta. rewrite HgU. cbn [ret_check]. rewrite bind_Ok. unfold GetType.
    change (type_ NU) with (ArrayType len (BitsType w)). cbn [type_at child_type].
    rewrite bool_decide_eq_true_2 by lia. cbn [mbind option_bind type_at ret_check].
    rewrite bind_Ok. change (type_ NR) with (BitsType w). rewrite Ty_eqb_refl.
    cbn [rev app is_index_chain]. rewrite HgR. cbn [op_ operands_ NR].
    unfold literal_index. rewrite HgC. simpl. done. }
  apply RewriteNodes_keep. intros p Hp.
  apply elem_of_ids in Hp as (u & Hu & <-). split.
  - apply GetNode_elem.
    change (map id_ (nodes_ f)) with ([1; 2; 3; 4; 5; 6]%N ++ map id_ users).
    apply elem_of_app. right. by apply list_elem_of_fmap_2.
  - destruct (Hmu u Hu) as (tu & Hmtu & Hsu). exists tu. split; [done|].
    by apply self_describing_no_ancestor.
Qed.

Lemma dynamic_update_not_rewritten_witness :
  let users := [MkNode 7 "out" (kOther "neg") [6%N] (BitsType 8);
                MkNode 8 "sum" (kOther "add") [6%N; 2%N] (BitsType 8)] in
  (42 < 64)%nat ∧
  NoDup (map id_ users) ∧
  (∀ u, u ∈ users → (6 < id_ u < 9)%N) ∧
  (6 < 9)%N ∧
  Forall (λ u, is_default_op (op_ u) = true) users ∧
  (∃ m tu, Accept (dynamic_update_scenario 64 8 6 users 8 9) = Ok m ∧
           m !! 6%N = Some (Leaf (MkNodeSource 4 [42])) ∧
           m !! 4%N = Some tu ∧ leaf_at [42] tu = Some (MkNodeSource 4 [42])) ∧
  RunOnFunctionBaseInternal (dynamic_update_scenario 64 8 6 users 8 9)
  = (dynamic_update_scenario 64 8 6 users 8 9, Ok false).
Proof.
  intros users.
  assert ((42 < 64)%nat) as H1 by lia.
  assert (NoDup (map id_ users)) as H2.
  { apply (bool_decide_eq_true_1 _). vm_compute. reflexivity. }
  assert (∀ u, u ∈ users → (6 < id_ u < 9)%N) as H3.
  { intros u. unfold users. rewrite !elem_of_cons, elem_of_nil.
    intros [->|[->|[]]]; simpl; lia. }
  assert ((6 < 9)%N) as H4 by lia.
  assert (Forall (λ u, is_default_op (op_ u) = true) users) as H5.
  { repeat constructor. }
  do 5 (split; [assumption|]).
  apply (dynamic_update_not_rewritten 64 8 6 users 8 9 H1 H2 H3 H4 H5).
Defined.

(** ** NodeSource as a key: equality and hashing *)

(** X1. [operator==] on NodeSource is an equivalence relation: it is
    reflexive, symmetric and transitive. *)
Theorem NodeSource_eq_equivalence :
  (∀ a, NodeSource_eq a a = true) ∧
  (∀ a b, NodeSource_eq a b = NodeSource_eq b a) ∧
  (∀ a b c, NodeSource_eq a b = true → NodeSource_eq b c = true →
            NodeSource_eq a c = true).
Proof.
  split; [apply NodeSource_eq_refl|]. split.
  - intros a b. destruct (NodeSource_eq a b) eqn:Hab.
    + apply NodeSource_eq_eq in Hab as ->. symmetry. apply NodeSource_eq_refl.
    + destruct (NodeSource_eq b a) eqn:Hba; [|done].
      apply NodeSource_eq_eq in Hba as ->. by rewrite NodeSource_eq_refl in Hab.
  - intros a b c ->%NodeSource_eq_eq. done.
Qed.

(** X3. [AbslHashValue] feeds the hash state everything [operator==]
    compares: when the hash state keeps apart the values it is fed, two
    sources with the same resulting state started from the same state and
    compare equal. *)
Theorem AbslHashValue_separates {H} `{!HashState H} (h h' : H) (a b : NodeSource) :
  (∀ h1 h2 p q, combine_ptr h1 p = combine_ptr h2 q → h1 = h2 ∧ p = q) →
  (∀ h1 h2 l k, combine_span h1 l = combine_span h2 k → h1 = h2 ∧ l = k) →
  AbslHashValue h a = AbslHashValue h' b →
  h = h' ∧ NodeSource_eq a b = true.
Proof.
  intros Hptr Hspan [[-> Hn]%Hptr Hi]%Hspan. split; [done|].
  apply NodeSource_eq_eq. destruct a, b. unfold node, tree_index in *. simpl in *.
  congruence.
Qed.

Lemma AbslHashValue_separates_witness :
  let a := MkNodeSource 3 [0; 1] in
  let H := list (N + list Z) in
  (∀ (h1 h2 : H) p q, combine_ptr h1 p = combine_ptr h2 q → h1 = h2 ∧ p = q) ∧
  (∀ (h1 h2 : H) l k, combine_span h1 l = combine_span h2 k → h1 = h2 ∧ l = k) ∧
  AbslHashValue (H := H) [inl 9%N] a = AbslHashValue [inl 9%N] a ∧
  ([inl 9%N] = [inl 9%N] :> H) ∧ NodeSource_eq a a = true.
Proof.
  intros a H.
  assert (∀ (h1 h2 : H) p q, combine_ptr h1 p = combine_ptr h2 q → h1 = h2 ∧ p = q)
    as Hptr by (intros h1 h2 p q [= -> ->]; done).
  assert (∀ (h1 h2 : H) l k, combine_span h1 l = combine_span h2 k → h1 = h2 ∧ l = k)
    as Hspan by (intros h1 h2 l k [= -> ->]; done).
  split; [exact Hptr|]. split; [exact Hspan|]. split; [reflexivity|].
  apply (AbslHashValue_separates (H := H) [inl 9%N] [inl 9%N] a a Hptr Hspan).
  reflexivity.
Defined.

(** ** Rendering a NodeSource *)

Lemma string_app_nil_r (s : string) : s +:+ "" = s.
Proof.
  induction s as [|c s IH]; [done|].
  change (String c (s +:+ "") = String c s). by rewrite IH.
Qed.

Lemma StrFormat_s (str : string) : StrFormat "%s" [str] = Some str.
Proof. simpl. by rewrite string_app_nil_r. Qed.

(** X4. [AbslStringify] writes exactly the text of [ToString] behind what the
    sink already holds, and has no result where [ToString] has none; two
    sources written one after the other appear in that order. *)
Theorem AbslStringify_appends_ToString (f : FunctionBase) (sink : string) :
  (∀ s, AbslStringify f sink s = (λ str, sink +:+ str) <$> ToString f s) ∧
  (∀ s1 s2 str1 str2,
     ToString f s1 = Some str1 → ToString f s2 = Some str2 →
     AbslStringify f sink s1 ≫= (λ sink', AbslStringify f sink' s2)
     = Some (sink +:+ str1 +:+ str2)).
Proof.
  assert (∀ k s, AbslStringify f k s = (λ str, k +:+ str) <$> ToString f s) as Hone.
  { intros k s. unfold AbslStringify, Format.
    destruct (ToString f s) as [str|]; [|done]. simpl option_bind.
    cbn [mbind option_bind]. by rewrite StrFormat_s. }
  split; [apply Hone|].
  intros s1 s2 str1 str2 H1 H2. rewrite !Hone, H1. cbn [fmap option_fmap option_map mbind option_bind].
  rewrite Hone, H2. cbn [fmap option_fmap option_map]. by rewrite string_app_assoc.
Qed.

Lemma string_forallb_app (P : ascii → bool) (a b : string) :
  string_forallb P (a +:+ b) = string_forallb P a && string_forallb P b.
Proof.
  induction a as [|c a IH]; [done|].
  change (P c && string_forallb P (a +:+ b) = P c && string_forallb P a && string_forallb P b).
  rewrite IH. by destruct (P c).
Qed.

(** A text is cut in one way only at the first character that fails a
    test. *)
Lemma string_cut_unique (P : ascii → bool) (a a' r r' : string) (c c' : ascii) :
  string_forallb P a = true → string_forallb P a' = true →
  P c = false → P c' = false →
  a +:+ String c r = a' +:+ String c' r' →
  a = a' ∧ c = c' ∧ r = r'.
Proof.
  revert a'. induction a as [|x a IH]; intros [|x' a']; simpl.
  - intros _ _ _ _ [= -> ->]. done.
  - intros _ [Hx' _]%andb_true_iff Hc _.
    change (String c r = String x' (a' +:+ String c' r') → "" = String x' a' ∧ c = c' ∧ r = r').
    intros [= -> _]. congruence.
  - intros [Hx _]%andb_true_iff _ _ Hc'.
    change (String x (a +:+ String c r) = String c' r' → String x a = "" ∧ c = c' ∧ r = r').
    intros [= -> _]. congruence.
  - intros [_ Ha]%andb_true_iff [_ Ha']%andb_true_iff Hc Hc'.
    change (String x (a +:+ String c r) = String x' (a' +:+ String c' r') →
            String x a = String x' a' ∧ c = c' ∧ r = r').
    intros [= -> Heq]. destruct (IH a' Ha Ha' Hc Hc' Heq) as (-> & -> & ->). done.
Qed.

Lemma pretty_N_go_chars (x : N) (s : string) :
  string_forallb is_number_char s = true →
  string_forallb is_number_char (pretty_N_go x s) = true.
Proof.
  revert s. induction (N.lt_wf_0 x) as [x _ IH]; intros s Hs.
  destruct (decide (x = 0%N)) as [->|Hx]; [by rewrite pretty_N_go_0|].
  rewrite pretty_N_go_step by lia. apply IH.
  - apply N.div_lt; lia.
  - simpl. rewrite Hs, andb_true_r. unfold pretty_N_char. by repeat case_match.
Qed.

Lemma pretty_Z_chars (z : Z) : string_forallb is_number_char (pretty z) = true.
Proof.
  assert (∀ p : positive, string_forallb is_number_char (pretty p) = true) as Hpos.
  { intros p. unfold pretty, pretty_positive, pretty, pretty_N.
    case_decide; [done|]. by apply pretty_N_go_chars. }
  destruct z as [|p|p]; [done | apply Hpos |].
  change (pretty (Z.neg p)) with ("-" +:+ pretty p).
  rewrite string_forallb_app, Hpos. done.
Qed.

(** Two non-empty paths with the same rendering are the same path. *)
Lemma concat_pretty_inj (l1 l2 : list Z) :
  l1 ≠ [] → l2 ≠ [] →
  String.concat "," (map pretty l1) +:+ "}" = String.concat "," (map pretty l2) +:+ "}" →
  l1 = l2.
Proof.
  assert (is_number_char "}" = false) as Hclose by done.
  assert (is_number_char "," = false) as Hcomma by done.
  assert (∀ (x : Z) (r : list Z), r ≠ [] →
            String.concat "," (map pretty (x :: r)) +:+ "}"
            = pretty x +:+ String "," (String.concat "," (map pretty r) +:+ "}")) as Hcons.
  { intros x [|y r] Hr; [done|].
    change (String.concat "," (map pretty (x :: y :: r)))
      with (pretty x +:+ "," +:+ String.concat "," (map pretty (y :: r))).
    by rewrite !string_app_assoc. }
  revert l2. induction l1 as [|x r1 IH]; intros [|y r2] H1 H2; try done.
  destruct r1 as [|x' r1], r2 as [|y' r2].
  - simpl. intros [Hxy _]%(string_cut_unique is_number_char); try done; try apply pretty_Z_chars.
    by apply (inj pretty) in Hxy as ->.
  - rewrite (Hcons y (y' :: r2)) by done. simpl String.concat. simpl map.
    intros (_ & [=] & _)%(string_cut_unique is_number_char); try done; apply pretty_Z_chars.
  - rewrite (Hcons x (x' :: r1)) by done. simpl (String.concat _ (map pretty [y])).
    intros (_ & [=] & _)%(string_cut_unique is_number_char); try done; apply pretty_Z_chars.
  - rewrite (Hcons x (x' :: r1)), (Hcons y (y' :: r2)) by done.
    intros (Hxy & _ & Hrest)%(string_cut_unique is_number_char); try done; try apply pretty_Z_chars.
    apply (inj pretty) in Hxy as ->. f_equal. by apply IH.
Qed.

Lemma ToString_path (f : FunctionBase) (s : NodeSource) (n : Node) :
  GetNode f (node s) = Some n → tree_index s ≠ [] →
  ToString f s
  = Some (GetName n +:+ String "{" (String.concat "," (map pretty (tree_index s)) +:+ "}")).
Proof.
  intros Hn Hp. unfold ToString. rewrite Hn. simpl.
  rewrite bool_decide_eq_false_2 by done. by rewrite StrJoin_concat.
Qed.

Lemma ToString_no_path (f : FunctionBase) (s : NodeSource) (n : Node) :
  GetNode f (node s) = Some n → tree_index s = [] → ToString f s = Some (GetName n).
Proof.
  intros Hn Hp. unfold ToString. rewrite Hn. simpl. by rewrite bool_decide_eq_true_2.
Qed.

Lemma brace_free_no_brace (a r : string) : brace_free (a +:+ String "{" r) = false.
Proof.
  unfold brace_free. rewrite string_forallb_app. simpl. apply andb_false_r.
Qed.

(** X5. [ToString] is unambiguous for names without an opening brace: two
    sources whose origins are nodes of the function and which render to the
    same text have origins of the same name and the same path; where names
    are unique in the function, they are the same source. *)
Theorem ToString_injective (f : FunctionBase) (s1 s2 : NodeSource) (n1 n2 : Node) :
  GetNode f (node s1) = Some n1 → GetNode f (node s2) = Some n2 →
  brace_free (GetName n1) = true → brace_free (GetName n2) = true →
  ToString f s1 = ToString f s2 →
  GetName n1 = GetName n2 ∧ tree_index s1 = tree_index s2 ∧
  ((∀ a b, a ∈ nodes_ f → b ∈ nodes_ f → GetName a = GetName b → id_ a = id_ b) →
   s1 = s2).
Proof.
  intros Hn1 Hn2 Hb1 Hb2 Heq.
  assert (GetName n1 = GetName n2 ∧ tree_index s1 = tree_index s2) as [Hname Hpath].
  { destruct (decide (tree_index s1 = [])) as [Hp1|Hp1],
             (decide (tree_index s2 = [])) as [Hp2|Hp2].
    - rewrite (ToString_no_path f s1 n1), (ToString_no_path f s2 n2) in Heq by done.
      split; congruence.
    - rewrite (ToString_no_path f s1 n1), (ToString_path f s2 n2) in Heq by done.
      injection Heq as Heq. rewrite Heq, brace_free_no_brace in Hb1. done.
    - rewrite (ToString_path f s1 n1), (ToString_no_path f s2 n2) in Heq by done.
      injection Heq as Heq. rewrite <- Heq, brace_free_no_brace in Hb2. done.
    - rewrite (ToString_path f s1 n1), (ToString_path f s2 n2) in Heq by done.
      injection Heq as Heq.
      apply (string_cut_unique (λ c, negb (Ascii.eqb c "{"))) in Heq
        as (Hname & _ & Hrest); try done.
      split; [done|]. by apply concat_pretty_inj. }
  split; [done|]. split; [done|]. intros Huniq.
  apply GetNode_Some in Hn1 as [Hin1 Hid1]. apply GetNode_Some in Hn2 as [Hin2 Hid2].
  pose proof (Huniq n1 n2 Hin1 Hin2 Hname) as Hid.
  destruct s1, s2. unfold node, tree_index in *. simpl in *. congruence.
Qed.

Lemma ToString_injective_witness :
  let x := MkNode 1 "x" kParam [] (TupleType [BitsType 8; BitsType 8]) in
  let f := MkFunctionBase [x] 1 2 in
  let s := MkNodeSource 1 [1] in
  GetNode f (node s) = Some x ∧
  brace_free (GetName x) = true ∧
  ToString f s = ToString f s ∧
  GetName x = GetName x ∧ tree_index s = tree_index s ∧
  ((∀ a b, a ∈ nodes_ f → b ∈ nodes_ f → GetName a = GetName b → id_ a = id_ b) →
   s = s).
Proof.
  intros x f s. split; [reflexivity|]. split; [reflexivity|]. split; [reflexivity|].
  apply (ToString_injective f s s x x); reflexivity.
Defined.

(** ** JoinElements as a join *)

Lemma JoinElements_agree (ety : Ty) (ds : list NodeSource)
    (cs : list (LeafTypeTree NodeSource)) (n : N) (idx : list Z) (c : NodeSource) :
  ds ≠ [] → (∀ s, s ∈ ds → s = c) →
  JoinElements ety ds cs n idx = Some (Ok c).
Proof.
  destruct ds as [|front rest]; [done|]. intros _ Hall. unfold JoinElements.
  assert (front = c) as -> by (apply Hall; left).
  rewrite (proj2 (forallb_Forall _ _)); [done|].
  apply Forall_forall. intros s Hs. apply NodeSource_eq_eq. by apply Hall.
Qed.

Lemma JoinElements_disagree (ety : Ty) (ds : list NodeSource)
    (cs : list (LeafTypeTree NodeSource)) (n : N) (idx : list Z) (s1 s2 : NodeSource) :
  s1 ∈ ds → s2 ∈ ds → s1 ≠ s2 →
  JoinElements ety ds cs n idx = Some (Ok (MkNodeSource n idx)).
Proof.
  destruct ds as [|front rest]; [by intros ?%elem_of_nil|]. intros H1 H2 Hne.
  unfold JoinElements. destruct (forallb _ _) eqn:Hall; [|done].
  apply forallb_Forall in Hall. rewrite Forall_forall in Hall.
  pose proof (Hall s1 H1) as ->%NodeSource_eq_eq.
  pose proof (Hall s2 H2) as ->%NodeSource_eq_eq. done.
Qed.

Lemma forallb_false {A} (f : A → bool) (l : list A) :
  forallb f l = false → ∃ x, x ∈ l ∧ f x = false.
Proof.
  induction l as [|a l IH]; simpl; [done|].
  destruct (f a) eqn:Ha; simpl.
  - intros (x & ? & ?)%IH. exists x. split; [by right | done].
  - intros _. exists a. split; [left | done].
Qed.

Lemma candidates_agree_or_differ (ds : list NodeSource) :
  ds ≠ [] →
  (∃ c, c ∈ ds ∧ ∀ s, s ∈ ds → s = c) ∨ (∃ s1 s2, s1 ∈ ds ∧ s2 ∈ ds ∧ s1 ≠ s2).
Proof.
  destruct ds as [|front rest]; [done|]. intros _.
  destruct (forallb (λ s, NodeSource_eq s front) rest) eqn:Hall.
  - left. exists front. split; [left|].
    apply forallb_Forall in Hall. rewrite Forall_forall in Hall.
    intros s [->|Hs]%elem_of_cons; [done|]. by apply NodeSource_eq_eq, Hall.
  - right. apply forallb_false in Hall as (s & Hs & Hne).
    exists s, front. split; [by right|]. split; [left|].
    intros ->. by rewrite NodeSource_eq_refl in Hne.
Qed.

Lemma JoinElements_absorb (ety : Ty) (ds : list NodeSource)
    (cs : list (LeafTypeTree NodeSource)) (n : N) (idx : list Z) :
  MkNodeSource n idx ∈ ds →
  JoinElements ety ds cs n idx = Some (Ok (MkNodeSource n idx)).
Proof.
  intros Hin. assert (ds ≠ []) as Hne by (intros ->; by apply elem_of_nil in Hin).
  destruct (candidates_agree_or_differ ds Hne) as [(c & _ & Hall)|(s1 & s2 & H1 & H2 & Hd)].
  - apply JoinElements_agree; [done|]. intros s Hs.
    by rewrite (Hall _ Hin), (Hall _ Hs).
  - by apply (JoinElements_disagree _ _ _ _ _ s1 s2).
Qed.

Lemma JoinElements_is_Some (ety : Ty) (ds : list NodeSource)
    (cs : list (LeafTypeTree NodeSource)) (n : N) (idx : list Z) (r : StatusOr NodeSource) :
  JoinElements ety ds cs n idx = Some r → ds ≠ [].
Proof. by destruct ds. Qed.

(** X6. The result of [JoinElements] depends only on which sources occur
    among the candidates, on the node and on the index: neither the order
    of the candidates, nor how often one occurs, nor the element type, nor
    the control sources matter. *)
Theorem JoinElements_candidate_set (ety ety' : Ty) (ds ds' : list NodeSource)
    (cs cs' : list (LeafTypeTree NodeSource)) (n : NodePtr) (idx : list Z) :
  (∀ s, s ∈ ds ↔ s ∈ ds') →
  JoinElements ety ds cs n idx = JoinElements ety' ds' cs' n idx.
Proof.
  intros Hset. destruct ds as [|front rest].
  - destruct ds' as [|s ?]; [done|].
    assert (s ∈ @nil NodeSource) as []%elem_of_nil. apply Hset. left.
  - assert (ds' ≠ []) as Hne'.
    { intros ->. assert (front ∈ @nil NodeSource) as []%elem_of_nil. apply Hset. left. }
    destruct (candidates_agree_or_differ (front :: rest)) as
      [(c & _ & Hall)|(s1 & s2 & H1 & H2 & Hd)]; [done| |].
    + rewrite (JoinElements_agree ety _ cs n idx c) by done.
      symmetry. apply JoinElements_agree; [done|]. intros s Hs. by apply Hall, Hset.
    + rewrite (JoinElements_disagree ety _ cs n idx s1 s2) by done.
      symmetry. apply (JoinElements_disagree _ _ _ _ _ s1 s2); [| |done]; by apply Hset.
Qed.

Lemma JoinElements_candidate_set_witness :
  let a := MkNodeSource 1 [0] in
  let b := MkNodeSource 2 [] in
  (∀ s, s ∈ [a; b; a] ↔ s ∈ [b; a]) ∧
  JoinElements (BitsType 8) [a; b; a] [] 5 [1]
  = JoinElements (BitsType 16) [b; a] [Leaf a] 5 [1].
Proof.
  intros a b.
  assert (∀ s, s ∈ [a; b; a] ↔ s ∈ [b; a]) as Hset.
  { intros s. rewrite !elem_of_cons, elem_of_nil. tauto. }
  split; [exact Hset|].
  apply (JoinElements_candidate_set (BitsType 8) (BitsType 16) [a; b; a] [b; a]
           [] [Leaf a] 5%N [1] Hset).
Defined.

(** X7. [JoinElements] can be taken in parts: joining the candidates of two
    lists at once gives the same result as joining each list and then
    joining the two results (at the same node and index). *)
Theorem JoinElements_in_parts (ety : Ty) (ds1 ds2 : list NodeSource)
    (cs : list (LeafTypeTree NodeSource)) (n : NodePtr) (idx : list Z)
    (r1 r2 : NodeSource) :
  JoinElements ety ds1 cs n idx = Some (Ok r1) →
  JoinElements ety ds2 cs n idx = Some (Ok r2) →
  JoinElements ety (ds1 ++ ds2) cs n idx = JoinElements ety [r1; r2] cs n idx.
Proof.
  intros H1 H2.
  pose proof (JoinElements_is_Some _ _ _ _ _ _ H1) as Hne1.
  pose proof (JoinElements_is_Some _ _ _ _ _ _ H2) as Hne2.
  destruct (candidates_agree_or_differ ds1 Hne1) as
    [(c1 & Hc1 & Hall1)|(s1 & s2 & Hs1 & Hs2 & Hd)].
  - rewrite (JoinElements_agree ety ds1 cs n idx c1) in H1 by done.
    injection H1 as <-.
    destruct (candidates_agree_or_differ ds2 Hne2) as
      [(c2 & Hc2 & Hall2)|(s1 & s2 & Hs1 & Hs2 & Hd)].
    + rewrite (JoinElements_agree ety ds2 cs n idx c2) in H2 by done.
      injection H2 as <-.
      destruct (NodeSource_eq c1 c2) eqn:Heq.
      * apply NodeSource_eq_eq in Heq as <-.
        rewrite (JoinElements_agree ety (ds1 ++ ds2) cs n idx c1).
        -- symmetry. apply JoinElements_agree; [done|].
           intros s. rewrite !elem_of_cons, elem_of_nil. by intros [->|[->|[]]].
        -- by destruct ds1.
        -- intros s [?|?]%elem_of_app; [by apply Hall1 | by apply Hall2].
      * assert (c1 ≠ c2) as Hne.
        { intros ->. by rewrite NodeSource_eq_refl in Heq. }
        rewrite (JoinElements_disagree ety (ds1 ++ ds2) cs n idx c1 c2);
          [|apply elem_of_app; by left|apply elem_of_app; by right|done].
        symmetry. apply (JoinElements_disagree _ _ _ _ _ c1 c2); [| |done].
        -- left.
        -- right. left.
    + rewrite (JoinElements_disagree ety ds2 cs n idx s1 s2) in H2 by done.
      injection H2 as <-.
      rewrite (JoinElements_disagree ety (ds1 ++ ds2) cs n idx s1 s2);
        [|apply elem_of_app; by right|apply elem_of_app; by right|done].
      symmetry. apply JoinElements_absorb. right. left.
  - rewrite (JoinElements_disagree ety ds1 cs n idx s1 s2) in H1 by done.
    injection H1 as <-.
    rewrite (JoinElements_disagree ety (ds1 ++ ds2) cs n idx s1 s2);
      [|apply elem_of_app; by left|apply elem_of_app; by left|done].
    symmetry. apply JoinElements_absorb. left.
Qed.

Lemma JoinElements_in_parts_witness :
  let a := MkNodeSource 1 [0] in
  let b := MkNodeSource 2 [] in
  JoinElements (BitsType 8) [a; a] [] 5 [1] = Some (Ok a) ∧
  JoinElements (BitsType 8) [a; b] [] 5 [1] = Some (Ok (MkNodeSource 5 [1])) ∧
  JoinElements (BitsType 8) ([a; a] ++ [a; b]) [] 5 [1]
  = JoinElements (BitsType 8) [a; MkNodeSource 5 [1]] [] 5 [1].
Proof.
  intros a b. split; [reflexivity|]. split; [reflexivity|].
  apply (JoinElements_in_parts (BitsType 8) [a; a] [a; b] [] 5%N [1]); reflexivity.
Defined.

(** X8. A leaf that has collapsed stays collapsed: when the candidates join
    to the fresh source of the current node and index, so does every list
    of candidates that contains them. *)
Theorem JoinElements_collapse_is_permanent (ety : Ty) (ds before after : list NodeSource)
    (cs : list (LeafTypeTree NodeSource)) (n : NodePtr) (idx : list Z) :
  JoinElements ety ds cs n idx = Some (Ok (MkNodeSource n idx)) →
  JoinElements ety (before ++ ds ++ after) cs n idx = Some (Ok (MkNodeSource n idx)).
Proof.
  intros H. pose proof (JoinElements_is_Some _ _ _ _ _ _ H) as Hne.
  destruct (candidates_agree_or_differ ds Hne) as
    [(c & Hc & Hall)|(s1 & s2 & Hs1 & Hs2 & Hd)].
  - rewrite (JoinElements_agree ety ds cs n idx c) in H by done.
    injection H as ->. apply JoinElements_absorb.
    apply elem_of_app. right. apply elem_of_app. by left.
  - apply (JoinElements_disagree _ _ _ _ _ s1 s2); [| |done];
      apply elem_of_app; right; apply elem_of_app; by left.
Qed.

Lemma JoinElements_collapse_is_permanent_witness :
  let a := MkNodeSource 1 [0] in
  let b := MkNodeSource 2 [] in
  JoinElements (BitsType 8) [a; b] [] 5 [1] = Some (Ok (MkNodeSource 5 [1])) ∧
  JoinElements (BitsType 8) ([a] ++ [a; b] ++ [a; a]) [] 5 [1]
  = Some (Ok (MkNodeSource 5 [1])).
Proof.
  intros a b. split; [reflexivity|].
  apply (JoinElements_collapse_is_permanent (BitsType 8) [a; b] [a] [a; a] [] 5%N [1]).
  reflexivity.
Defined.

(** ** DefaultHandler and JoinElements together *)

Lemma DefaultHandler_leaf (b : Node) (m0 m : gmap N (LeafTypeTree NodeSource))
    (t : LeafTypeTree NodeSource) (p : list Z) (s : NodeSource) :
  DefaultHandler b m0 = Ok m → m !! id_ b = Some t → leaf_at p t = Some s →
  s = MkNodeSource (id_ b) p.
Proof.
  destruct (DefaultHandler_Ok b m0) as (t' & -> & _ & _ & Hleaves).
  intros [= <-]. rewrite lookup_insert_eq. intros [= <-]. apply Hleaves.
Qed.

(** X9. Joining the leaves that [DefaultHandler] produced for a list of
    nodes, taken at one path: the result is the leaf of the first node when
    all the nodes are that same node, and the fresh source of the current
    node and index as soon as two of them differ. *)
Theorem JoinElements_of_default_leaves (a : Node) (rest : list Node) (p : list Z)
    (candidates : list NodeSource) (ety : Ty) (cs : list (LeafTypeTree NodeSource))
    (n : NodePtr) (idx : list Z) :
  Forall2 (λ b s, ∃ m0 m t, DefaultHandler b m0 = Ok m ∧ m !! id_ b = Some t ∧
                            leaf_at p t = Some s)
          (a :: rest) candidates →
  JoinElements ety candidates cs n idx
  = Some (Ok (if forallb (λ b, (id_ b =? id_ a)%N) rest
              then MkNodeSource (id_ a) p else MkNodeSource n idx)).
Proof.
  intros HF.
  assert (candidates = map (λ b, MkNodeSource (id_ b) p) (a :: rest)) as ->.
  { induction HF as [|b s bs ss (m0 & m & t & Hd & Hm & Hl) _ IH]; [done|].
    simpl. f_equal; [|done]. by eapply DefaultHandler_leaf. }
  destruct (forallb _ rest) eqn:Hall.
  - apply JoinElements_agree; [done|]. intros s.
    rewrite list_elem_of_fmap. intros (b & -> & [->|Hb]%elem_of_cons); [done|].
    apply forallb_Forall in Hall. rewrite Forall_forall in Hall.
    by rewrite (proj1 (N.eqb_eq _ _) (Hall b Hb)).
  - apply forallb_false in Hall as (b & Hb & Hne%N.eqb_neq).
    apply (JoinElements_disagree _ _ _ _ _
             (MkNodeSource (id_ a) p) (MkNodeSource (id_ b) p)).
    + apply list_elem_of_fmap. exists a. split; [done | left].
    + apply list_elem_of_fmap. exists b. split; [done | by right].
    + congruence.
Qed.

Lemma JoinElements_of_default_leaves_witness :
  let x := MkNode 1 "x" kParam [] (TupleType [BitsType 8; BitsType 8]) in
  let y := MkNode 2 "y" kParam [] (TupleType [BitsType 8; BitsType 8]) in
  let candidates := [MkNodeSource 1 [1]; MkNodeSource 2 [1]; MkNodeSource 1 [1]] in
  Forall2 (λ b s, ∃ m0 m t, DefaultHandler b m0 = Ok m ∧ m !! id_ b = Some t ∧
                            leaf_at [1] t = Some s)
          (x :: [y; x]) candidates ∧
  JoinElements (BitsType 8) candidates [] 7 []
  = Some (Ok (if forallb (λ b, (id_ b =? id_ x)%N) [y; x]
              then MkNodeSource (id_ x) [1] else MkNodeSource 7 [])).
Proof.
  intros x y candidates.
  assert (Forall2 (λ b s, ∃ m0 m t, DefaultHandler b m0 = Ok m ∧ m !! id_ b = Some t ∧
                                    leaf_at [1] t = Some s)
                  (x :: [y; x]) candidates) as HF.
  { repeat constructor.
    - exists ∅, {[1%N := Branch [Leaf (MkNodeSource 1 [0]); Leaf (MkNodeSource 1 [1])]]},
        (Branch [Leaf (MkNodeSource 1 [0]); Leaf (MkNodeSource 1 [1])]).
      repeat split; reflexivity.
    - exists ∅, {[2%N := Branch [Leaf (MkNodeSource 2 [0]); Leaf (MkNodeSource 2 [1])]]},
        (Branch [Leaf (MkNodeSource 2 [0]); Leaf (MkNodeSource 2 [1])]).
      repeat split; reflexivity.
    - exists ∅, {[1%N := Branch [Leaf (MkNodeSource 1 [0]); Leaf (MkNodeSource 1 [1])]]},
        (Branch [Leaf (MkNodeSource 1 [0]); Leaf (MkNodeSource 1 [1])]).
      repeat split; reflexivity. }
  split; [exact HF|].
  apply (JoinElements_of_default_leaves x [y; x] [1] candidates (BitsType 8) [] 7%N [] HF).
Defined.

(** ** DefaultHandler in closed form *)

Lemma imapM_map_pure {A B C} (g : Z → B → StatusOr C) (h : Z → A → C) (c : A → B)
    (i : Z) (l : list A) :
  Forall (λ a, ∀ j, g j (c a) = Ok (h j a)) l →
  imapM g i (map c l) = Ok (imapZ h i l).
Proof.
  intros HF. revert i. induction HF as [|a l Ha _ IH]; intros i; simpl; [done|].
  by rewrite Ha, bind_Ok, IH, bind_Ok.
Qed.

Lemma ForEachIndex_from_default (n : N) (d : NodeSource) (τ : Ty) :
  ∀ (σ : Ty) (index : list Z),
    ForEachIndex_from (λ _ _ index, Ok (MkNodeSource n index)) σ index
      (CreateFromType d τ)
    = Ok (default_tree n τ index).
Proof.
  induction τ as [w|ts IH|k e IH] using Ty_ind'; intros σ index; simpl.
  - done.
  - rewrite (imapM_map_pure _ (λ i τ', default_tree n τ' (index ++ [i]))); [done|].
    eapply Forall_impl; [exact IH|]. intros τ' Hτ' j. apply Hτ'.
  - rewrite <- (fmap_replicate (λ _ : unit, CreateFromType d e) k ()).
    rewrite (imapM_map_pure _ (λ i (_ : unit), default_tree n e (index ++ [i]))); [done|].
    apply Forall_forall. intros [] _ j. apply IH.
Qed.

(** X10. [DefaultHandler] builds its container in two steps, a
    value-initialised container that [ForEachIndex] then overwrites leaf by
    leaf; the container it records is the one built directly from the
    node's type with NodeSource(node, index) at each leaf. *)
Theorem DefaultHandler_closed_form (n : Node) (map_ : gmap N (LeafTypeTree NodeSource)) :
  DefaultHandler n map_
  = Ok (<[id_ n := default_tree (id_ n) (GetType n) []]> map_).
Proof.
  destruct (DefaultHandler_Ok n map_) as (t & Ht & _). revert Ht.
  unfold DefaultHandler, ForEachIndex. rewrite ForEachIndex_from_default, bind_Ok.
  unfold SetValue. destruct (has_shape _ _); [done|]. discriminate.
Qed.
